(** * The scene-graph reconciler of the react-three-fiber article

    A shallow embedding of the JavaScript listed in
    [src/posts/a-technical-breakdown-of-react-three-fiber.mdx]:
    [applyProps], [appendChild], [removeChild], [insertBefore], [render],
    [state.subscribe], the animation loop, the [events] manager and
    [unmountComponentAtNode].

    JavaScript objects live in a heap and are reached through references, so
    that aliasing and in-place mutation are the code's.  A computation is a
    function from worlds to a result, normal or thrown, and a world.

    What is outside the listings is treated as follows.
    - Calls that leave the module (three.js setters, [dispose], DOM
      registration, author callbacks) are recorded in a trace.  The body of
      an author callback is not run.
    - The host methods whose effect the module depends on ([Object3D.add],
      [Object3D.remove], [setAnimationLoop], [forceContextLoss],
      [addEventListener], [removeEventListener]) are modelled after the
      sources of three.js and the DOM standard.
    - The ray cast is three.js's: its answer is an argument of [handleEvent].
    - The reconciler is React's: [updateContainer] records the call and runs
      its callback at once.
    - Numbers are integers and NaN.  The three quotients the listings store
      (the pointer coordinates and the camera aspect) are floating-point and
      are not stored. *)

From Stdlib Require Import ZArith String List Lia Permutation.
From stdpp Require Import base option list strings pretty.

Local Open Scope string_scope.
Local Open Scope list_scope.

(** ** Values *)

(** Heap addresses. *)
Abbreviation loc := nat.

(** Primitives are compared by value, everything else by reference. *)
Inductive value :=
| VUndefined
| VNull
| VBool (b : bool)
| VNum (n : Z)
| VNaN
| VStr (s : string)
| VNative (m : string)   (* a prototype method of three.js or of the DOM *)
| VRef (l : loc).        (* object, array or function in the heap *)

(** [a === b] *)
Definition strict_eq (a b : value) : bool :=
  match a, b with
  | VUndefined, VUndefined => true
  | VNull, VNull => true
  | VBool x, VBool y => Bool.eqb x y
  | VNum x, VNum y => Z.eqb x y
  | VStr x, VStr y => String.eqb x y
  | VNative x, VNative y => String.eqb x y
  | VRef x, VRef y => Nat.eqb x y
  | _, _ => false          (* in particular NaN === NaN is false *)
  end.

(** SameValueZero, the comparison of [Array.prototype.includes] and of [Map]
    keys: as [===], but NaN equals NaN. *)
Definition same_value_zero (a b : value) : bool :=
  match a, b with
  | VNaN, VNaN => true
  | _, _ => strict_eq a b
  end.

(** ToBoolean *)
Definition truthy (v : value) : bool :=
  match v with
  | VUndefined | VNull | VNaN => false
  | VBool b => b
  | VNum n => negb (Z.eqb n 0)
  | VStr s => negb (String.eqb s "")
  | VNative _ | VRef _ => true
  end.

(** ToPropertyKey, for [obj[v]].  A reference is keyed by the text of
    [Object.prototype.toString]. *)
Definition to_key (v : value) : string :=
  match v with
  | VUndefined => "undefined"
  | VNull => "null"
  | VBool true => "true"
  | VBool false => "false"
  | VNum n => pretty n
  | VNaN => "NaN"
  | VStr s => s
  | VNative _ => "function () { [native code] }"
  | VRef _ => "[object Object]"
  end.

(** ** Own properties

    An object's own enumerable properties, in insertion order. *)

Definition props := list (string * value).

Fixpoint lookup_prop (key : string) (o : props) : option value :=
  match o with
  | [] => None
  | (k, v) :: o' => if String.eqb k key then Some v else lookup_prop key o'
  end.

(** [o[key]] on a record of properties: a missing key reads [undefined]. *)
Definition prop (o : props) (key : string) : value :=
  match lookup_prop key o with Some v => v | None => VUndefined end.

(** [o[key] = x]: overwrite in place, or append a new property. *)
Fixpoint set_prop (key : string) (x : value) (o : props) : props :=
  match o with
  | [] => [(key, x)]
  | (k, v) :: o' =>
      if String.eqb k key then (k, x) :: o' else (k, v) :: set_prop key x o'
  end.

(** [delete o[key]] *)
Fixpoint delete_prop (key : string) (o : props) : props :=
  match o with
  | [] => []
  | (k, v) :: o' =>
      if String.eqb k key then delete_prop key o' else (k, v) :: delete_prop key o'
  end.

(** [Object.keys(o)] *)
Definition keys (o : props) : list string := map fst o.

(** ** Heap cells *)

(** What the module asks of a class: its name ([constructor.name]), the
    methods found on its prototype, and the two [instanceof]-like tests. *)
Record klass := {
  k_name : string;
  k_methods : list string;
  k_isColor : bool;         (* instanceof THREE.Color *)
  k_isObject3D : bool;      (* the isObject3D flag three.js tests in add *)
}.

(** Function objects: callbacks written by the author of a scene are opaque;
    the closures this module creates are named after their source. *)
Inductive func :=
| FUser (id : nat)
| FSubscribe (state : value)                 (* ref => { ... } in render *)
| FLoop (state : value)                      (* the setAnimationLoop callback *)
| FListener (state : value) (type : string)  (* event => handleEvent(event, type) *)
| FNoop.                                   (* () => undefined *)

Inductive shape :=
| SObject (k : klass)
| SArray (xs : list value)
| SFunction (f : func).

Record cell := { c_shape : shape; c_own : props }.

Definition plain : klass :=
  {| k_name := "Object"; k_methods := []; k_isColor := false; k_isObject3D := false |}.

Definition obj (k : klass) (o : props) : cell := {| c_shape := SObject k; c_own := o |}.
Definition arr (xs : list value) : cell := {| c_shape := SArray xs; c_own := [] |}.
Definition fn (f : func) : cell := {| c_shape := SFunction f; c_own := [] |}.

(** ** The world *)

(** Calls that leave the module. *)
Inductive event :=
| EvCall (recv : value) (method : string) (args : list value)
| EvApply (f : func) (args : list value)
| EvReconciler (operation : string) (args : list value)
| EvConsoleError (msg : string).

Inductive error :=
| TypeError (msg : string).

(** Host registrations that outlive a call: what a leak is made of. *)
Record host := {
  loops : list (value * value);               (* renderer, its animation callback *)
  listeners : list (value * string * value);  (* target, DOM event name, listener *)
  contexts : list value;                      (* renderers holding a graphics context *)
}.

Record world := {
  heap : list cell;
  roots : list (value * (value * value));  (* const roots = new Map(): canvas -> {root, state} *)
  hovered : props;                         (* const hovered = {} *)
  trace : list event;
  hosts : host;
}.

Definition with_heap (h : list cell) (w : world) : world :=
  {| heap := h; roots := roots w; hovered := hovered w; trace := trace w; hosts := hosts w |}.
Definition with_roots (r : list (value * (value * value))) (w : world) : world :=
  {| heap := heap w; roots := r; hovered := hovered w; trace := trace w; hosts := hosts w |}.
Definition with_hovered (hv : props) (w : world) : world :=
  {| heap := heap w; roots := roots w; hovered := hv; trace := trace w; hosts := hosts w |}.
Definition with_trace (t : list event) (w : world) : world :=
  {| heap := heap w; roots := roots w; hovered := hovered w; trace := t; hosts := hosts w |}.
Definition with_hosts (hs : host) (w : world) : world :=
  {| heap := heap w; roots := roots w; hovered := hovered w; trace := trace w; hosts := hs |}.

Definition empty_host : host := {| loops := []; listeners := []; contexts := [] |}.
Definition empty_world : world :=
  {| heap := []; roots := []; hovered := []; trace := []; hosts := empty_host |}.

(** ** The monad of the module: state and exceptions *)

Inductive result (A : Type) :=
| Ok (a : A)
| Throw (e : error).
Arguments Ok {A} a.
Arguments Throw {A} e.

Definition M (A : Type) : Type := world -> result A * world.

#[global] Instance M_ret : MRet M := fun A a w => (Ok a, w).
#[global] Instance M_bind : MBind M := fun A B f m w =>
  match m w with
  | (Ok a, w') => f a w'
  | (Throw e, w') => (Throw e, w')
  end.

Definition throw {A} (msg : string) : M A := fun w => (Throw (TypeError msg), w).
Definition emit (e : event) : M unit := fun w => (Ok tt, with_trace (trace w ++ [e]) w).
Definition read {A} (f : world -> A) : M A := fun w => (Ok (f w), w).
Definition modify (f : world -> world) : M unit := fun w => (Ok tt, f w).

(** [xs.forEach(f)] *)
Fixpoint forEach {A} (f : A -> M unit) (xs : list A) : M unit :=
  match xs with
  | [] => mret tt
  | x :: xs' => f x ;; forEach f xs'
  end.

Definition when (b : bool) (m : M unit) : M unit := if b then m else mret tt.

(** ** Property access *)

Definition alloc (c : cell) : M value := fun w =>
  (Ok (VRef (length (heap w))), with_heap (heap w ++ [c]) w).

(** What the prototype chain answers when [key] is not an own property. *)
Definition proto (c : cell) (key : string) : value :=
  match c_shape c with
  | SObject k => if bool_decide (key ∈ k_methods k) then VNative key else VUndefined
  | SArray xs => if String.eqb key "length" then VNum (Z.of_nat (length xs)) else VUndefined
  | SFunction _ => VUndefined
  end.

Definition read_cell (c : cell) (key : string) : value :=
  match lookup_prop key (c_own c) with
  | Some x => x
  | None => proto c key
  end.

(** [v.key] / [v[key]].  A primitive has none of the properties the module
    reads and answers [undefined]. *)
Definition get (v : value) (key : string) : M value :=
  match v with
  | VUndefined | VNull =>
      throw ("Cannot read properties of " ++ to_key v ++ " (reading '" ++ key ++ "')")
  | VRef l => read (fun w =>
      match heap w !! l with
      | Some c => read_cell c key
      | None => VUndefined
      end)
  | _ => mret VUndefined
  end.

(** [v?.key] *)
Definition get_opt (v : value) (key : string) : M value :=
  match v with
  | VUndefined | VNull => mret VUndefined
  | _ => get v key
  end.

Definition write_cell (key : string) (x : value) (c : cell) : cell :=
  {| c_shape := c_shape c; c_own := set_prop key x (c_own c) |}.

Definition erase_cell (key : string) (c : cell) : cell :=
  {| c_shape := c_shape c; c_own := delete_prop key (c_own c) |}.

(** [v.key = x].  The listings are ES modules, hence strict: writing to a
    primitive throws.  A property written on a built-in method is read by
    nobody and is not kept. *)
Definition set (v : value) (key : string) (x : value) : M unit :=
  match v with
  | VUndefined | VNull =>
      throw ("Cannot set properties of " ++ to_key v ++ " (setting '" ++ key ++ "')")
  | VRef l => modify (fun w => with_heap (alter (write_cell key x) l (heap w)) w)
  | VNative _ => mret tt
  | _ => throw ("Cannot create property '" ++ key ++ "'")
  end.

(** [delete v[key]] *)
Definition delete_ (v : value) (key : string) : M unit :=
  match v with
  | VUndefined | VNull => throw "Cannot convert undefined or null to object"
  | VRef l => modify (fun w => with_heap (alter (erase_cell key) l (heap w)) w)
  | _ => mret tt
  end.

(** The keys a [for (const property in v)] visits on an object: the own
    enumerable ones (three.js keeps its methods on non-enumerable prototype
    slots). *)
Definition enumerate (v : value) : M (list string) :=
  match v with
  | VRef l => read (fun w =>
      match heap w !! l with
      | Some c => keys (c_own c)
      | None => []
      end)
  | _ => mret []
  end.

(** [typeof v === 'function'] *)
Definition is_function (v : value) : M bool :=
  match v with
  | VNative _ => mret true
  | VRef l => read (fun w =>
      match heap w !! l with
      | Some {| c_shape := SFunction _ |} => true
      | _ => false
      end)
  | _ => mret false
  end.

(** [Array.isArray(v)] *)
Definition is_array (v : value) : M bool :=
  match v with
  | VRef l => read (fun w =>
      match heap w !! l with
      | Some {| c_shape := SArray _ |} => true
      | _ => false
      end)
  | _ => mret false
  end.

(** [v.constructor.name] *)
Definition constructor_name (v : value) : M string :=
  match v with
  | VUndefined | VNull =>
      throw ("Cannot read properties of " ++ to_key v ++ " (reading 'constructor')")
  | VBool _ => mret "Boolean"
  | VNum _ | VNaN => mret "Number"
  | VStr _ => mret "String"
  | VNative _ => mret "Function"
  | VRef l => read (fun w =>
      match heap w !! l with
      | Some {| c_shape := SObject k |} => k_name k
      | Some {| c_shape := SArray _ |} => "Array"
      | Some {| c_shape := SFunction _ |} => "Function"
      | None => "Object"
      end)
  end.

(** ** Arrays *)

(** The elements of [v] when an array method is called on it; on anything
    else the method is missing and the call is a TypeError. *)
Definition elements (v : value) : M (list value) :=
  match v with
  | VRef l => fun w =>
      match heap w !! l with
      | Some {| c_shape := SArray xs |} => (Ok xs, w)
      | _ => (Throw (TypeError "is not a function"), w)
      end
  | VUndefined | VNull => throw ("Cannot read properties of " ++ to_key v)
  | _ => throw "is not a function"
  end.

Definition store_elements (xs : list value) (c : cell) : cell :=
  match c_shape c with
  | SArray _ => {| c_shape := SArray xs; c_own := c_own c |}
  | _ => c
  end.

(** In-place update of an array (the body of [push] and [splice]). *)
Definition update_elements (v : value) (f : list value -> list value) : M unit :=
  xs ← elements v;
  match v with
  | VRef l => modify (fun w => with_heap (alter (store_elements (f xs)) l (heap w)) w)
  | _ => mret tt
  end.

(** [xs.indexOf(x)]: first position that is [===] to [x], or -1. *)
Fixpoint indexOf (x : value) (xs : list value) : Z :=
  match xs with
  | [] => -1
  | y :: ys =>
      if strict_eq y x then 0
      else let i := indexOf x ys in if (i <? 0)%Z then -1 else (1 + i)%Z
  end.

(** [xs.includes(x)] *)
Definition includes (x : value) (xs : list value) : bool :=
  existsb (same_value_zero x) xs.

(** The clamping of a relative index that [slice] performs. *)
Definition relative (len k : Z) : Z :=
  if (k <? 0)%Z then Z.max (len + k) 0 else Z.min k len.

(** [xs.slice(from, to)] *)
Definition slice {A} (xs : list A) (from to : Z) : list A :=
  let len := Z.of_nat (length xs) in
  let a := relative len from in
  let b := relative len to in
  take (Z.to_nat (b - a)) (drop (Z.to_nat a) xs).

(** [xs.slice(from)] *)
Definition slice_from {A} (xs : list A) (from : Z) : list A :=
  slice xs from (Z.of_nat (length xs)).

(** [xs.splice(i, 1)] *)
Definition splice1 {A} (i : nat) (xs : list A) : list A := take i xs ++ drop (S i) xs.

(** ** The host: three.js and the DOM

    Every method call that leaves the module is recorded.  The methods below
    also act on state the module reads back, after the library's sources. *)

Definition arg (n : nat) (args : list value) : value := nth n args VUndefined.

(** A callback reached through a call is recorded, its body is not run. *)
Definition apply_function (f : value) (args : list value) : M value :=
  match f with
  | VRef l => fun w =>
      match heap w !! l with
      | Some {| c_shape := SFunction fu |} =>
          (Ok VUndefined, with_trace (trace w ++ [EvApply fu args]) w)
      | _ => (Throw (TypeError "is not a function"), w)
      end
  | _ => throw "is not a function"
  end.

Definition same_loop (gl : value) (entry : value * value) : bool :=
  strict_eq (fst entry) gl.

(** [WebGLRenderer.setAnimationLoop(callback)]: one loop per renderer,
    [null] stops it. *)
Definition setAnimationLoop (this callback : value) : M unit :=
  modify (fun w =>
    let others := List.filter (fun e => negb (same_loop this e)) (loops (hosts w)) in
    with_hosts {| loops := if strict_eq callback VNull then others
                           else others ++ [(this, callback)];
                  listeners := listeners (hosts w);
                  contexts := contexts (hosts w) |} w).

(** [WebGLRenderer.forceContextLoss()] *)
Definition forceContextLoss (this : value) : M unit :=
  modify (fun w =>
    with_hosts {| loops := loops (hosts w);
                  listeners := listeners (hosts w);
                  contexts := List.filter (fun g => negb (strict_eq g this))
                                          (contexts (hosts w)) |} w).

Definition same_listener (target : value) (name : string) (listener : value)
    (entry : value * string * value) : bool :=
  strict_eq (fst (fst entry)) target && String.eqb (snd (fst entry)) name
  && strict_eq (snd entry) listener.

(** [EventTarget.addEventListener(name, listener, options)]: a listener
    already registered for the name is not registered twice. *)
Definition addEventListener (this : value) (name : string) (listener : value) : M unit :=
  modify (fun w =>
    let ls := listeners (hosts w) in
    with_hosts {| loops := loops (hosts w);
                  listeners := if existsb (same_listener this name listener) ls then ls
                               else ls ++ [(this, name, listener)];
                  contexts := contexts (hosts w) |} w).

(** [EventTarget.removeEventListener(name, listener)] *)
Definition removeEventListener (this : value) (name : string) (listener : value) : M unit :=
  modify (fun w =>
    with_hosts {| loops := loops (hosts w);
                  listeners := List.filter (fun e => negb (same_listener this name listener e))
                                           (listeners (hosts w));
                  contexts := contexts (hosts w) |} w).

(** The position of the first element [===] to [x]. *)
Definition position (x : value) (xs : list value) : option nat :=
  let i := indexOf x xs in if (i <? 0)%Z then None else Some (Z.to_nat i).

(** Events handed to [dispatchEvent] are written as their [type]. *)
Definition dispatch_logged (object : value) (type : string) : M unit :=
  f ← get object "dispatchEvent";
  match f with
  | VNative m => emit (EvCall object m [VStr type])
  | _ => apply_function f [VStr type] ;; mret tt
  end.

(** [Object3D.remove(object)]:
    [const index = this.children.indexOf(object);
     if (index !== -1) { object.parent = null; this.children.splice(index, 1);
                         object.dispatchEvent({ type: 'removed' }) }] *)
Definition Object3D_remove (this object : value) : M unit :=
  children ← get this "children";
  xs ← elements children;
  match position object xs with
  | Some index =>
      set object "parent" VNull ;;
      update_elements children (splice1 index) ;;
      dispatch_logged object "removed"
  | None => mret tt
  end.

(** Methods that call no other method. *)
Definition native_leaf (m : string) (this : value) (args : list value) : M value :=
  emit (EvCall this m args) ;;
  (if String.eqb m "remove" then Object3D_remove this (arg 0 args)
   else if String.eqb m "setAnimationLoop" then setAnimationLoop this (arg 0 args)
   else if String.eqb m "forceContextLoss" then forceContextLoss this
   else if String.eqb m "addEventListener" then
     addEventListener this (to_key (arg 0 args)) (arg 1 args)
   else if String.eqb m "removeEventListener" then
     removeEventListener this (to_key (arg 0 args)) (arg 1 args)
   else mret tt) ;;
  mret (if String.eqb m "remove" then this else VUndefined).

Definition call_leaf (f this : value) (args : list value) : M value :=
  match f with
  | VNative m => native_leaf m this args
  | _ => apply_function f args
  end.

Definition is_Object3D (v : value) : M bool :=
  match v with
  | VRef l => read (fun w =>
      match heap w !! l with
      | Some {| c_shape := SObject k |} => k_isObject3D k
      | _ => false
      end)
  | _ => mret false
  end.

(** [Object3D.add(object)]:
    [if (object === this) { console.error(...); return this }
     if (object && object.isObject3D) {
       if (object.parent !== null) object.parent.remove(object);
       object.parent = this; this.children.push(object);
       object.dispatchEvent({ type: 'added' })
     } else console.error(...)] *)
Definition Object3D_add (this object : value) : M unit :=
  if strict_eq object this then
    emit (EvConsoleError "THREE.Object3D.add: object can't be added as a child of itself.")
  else
    is3D ← is_Object3D object;
    if truthy object && is3D then
      parent ← get object "parent";
      (if negb (strict_eq parent VNull) then
         remove ← get parent "remove";
         call_leaf remove parent [object] ;; mret tt
       else mret tt) ;;
      set object "parent" this ;;
      children ← get this "children";
      update_elements children (fun xs => xs ++ [object]) ;;
      dispatch_logged object "added"
    else
      emit (EvConsoleError "THREE.Object3D.add: object not an instance of THREE.Object3D.").

Definition native (m : string) (this : value) (args : list value) : M value :=
  if String.eqb m "add" then
    emit (EvCall this m args) ;; Object3D_add this (arg 0 args) ;; mret this
  else native_leaf m this args.

(** [f.call(this, ...args)] *)
Definition call (f this : value) (args : list value) : M value :=
  match f with
  | VNative m => native m this args
  | _ => apply_function f args
  end.

(** [recv.name(...args)] *)
Definition invoke (recv : value) (name : string) (args : list value) : M unit :=
  f ← get recv name;
  call f recv args ;; mret tt.

(** ** Scene Mutator *)

(** [child.attach && parentInstance[child.attach] !== undefined] *)
Definition attaches (parentInstance child : value) : M bool :=
  attach ← get child "attach";
  if truthy attach then
    slot ← get parentInstance (to_key attach);
    mret (negb (strict_eq slot VUndefined))
  else mret false.

Definition appendChild (parentInstance child : value) : M unit :=
  if negb (truthy child) then mret tt
  else
    attached ← attaches parentInstance child;
    if (attached : bool) then
      (* Attach material, geometry, fog, etc. *)
      attach ← get child "attach";
      set parentInstance (to_key attach) child
    else
      invoke parentInstance "add" [child].

(** The block of [removeChild] under "Safely dispose of element":
    [if (child.type !== 'Scene') {
       if (child.dispose) child.dispose();
       for (const property in child) {
         if (property.dispose) property.dispose();
         delete child[property];
       }
     }]
    The loop variable [property] is the property's name, a string. *)
Definition dispose_element (child : value) : M unit :=
  type ← get child "type";
  if negb (strict_eq type (VStr "Scene")) then
    dispose ← get child "dispose";
    when (truthy dispose) (invoke child "dispose" []) ;;
    (* Dispose of its properties as well *)
    properties ← enumerate child;
    forEach (fun property : string =>
      dispose ← get (VStr property) "dispose";
      when (truthy dispose) (invoke (VStr property) "dispose" []) ;;
      delete_ child property) properties
  else mret tt.

Definition removeChild (parentInstance child : value) : M unit :=
  if negb (truthy child) then mret tt
  else
    attached ← attaches parentInstance child;
    (if (attached : bool) then
       (* Remove material, geometry, fog, etc. *)
       attach ← get child "attach";
       set parentInstance (to_key attach) VNull
     else
       invoke parentInstance "remove" [child]) ;;
    (* Safely dispose of element *)
    dispose_element child.

Definition insertBefore (parentInstance child beforeChild : value) : M unit :=
  if negb (truthy child) then mret tt
  else
    set child "parent" parentInstance ;;
    children ← get parentInstance "children";
    xs ← elements children;
    let index := indexOf beforeChild xs in
    fresh ← alloc (arr (slice xs 0 index ++ [child] ++ slice_from xs index));
    set parentInstance "children" fresh ;;
    (* Emit an event that tells three.js the element is added *)
    dispatch_logged child "added".

(** ** Property Applier *)

(** [typeof v === 'function'], on a given heap. *)
Definition callable (h : list cell) (v : value) : bool :=
  match v with
  | VNative _ => true
  | VRef l => match h !! l with
              | Some {| c_shape := SFunction _ |} => true
              | _ => false
              end
  | _ => false
  end.

(** [pruneKeys(obj, ...keys)]: the entries whose key is not listed. *)
Definition pruneKeys (o : props) (ks : list string) : props :=
  List.filter (fun entry => negb (existsb (String.eqb (fst entry)) ks)) o.

(** [target instanceof THREE.Color] *)
Definition is_Color (v : value) : M bool :=
  match v with
  | VRef l => read (fun w =>
      match heap w !! l with
      | Some {| c_shape := SObject k |} => k_isColor k
      | _ => false
      end)
  | _ => mret false
  end.

(** The body of [Object.entries(props).forEach(([key, value]) => { ... })]. *)
Definition apply_entry (instance : value) (entry : string * value) : M unit :=
  let '(key, value) := entry in
  target ← get instance key;
  isColor ← is_Color target;
  (* Prefer to use properties' copy and set methods,
     otherwise mutate the property directly *)
  setter ← get_opt target "set";
  if truthy setter then
    target_name ← constructor_name target;
    value_name ← constructor_name value;
    (if String.eqb target_name value_name then
       invoke target "copy" [value]
     else
       isArray ← is_array value;
       if (isArray : bool) then
         xs ← elements value;
         invoke target "set" xs
       else
         setScalar ← get_opt target "setScalar";
         if negb isColor && truthy setScalar then
           (* Allow shorthand like scale={1} *)
           invoke target "setScalar" [value]
         else
           invoke target "set" [value]) ;;
    (* Auto-convert sRGB colors *)
    when isColor (invoke target "convertSRGBToLinear" [])
  else
    set instance key value.

(** [Object.keys(newProps).filter(key => newProps[key] === oldProps[key])] *)
Definition identical_keys (newProps oldProps : props) : list string :=
  List.filter (fun key => strict_eq (prop newProps key) (prop oldProps key)) (keys newProps).

(** [Object.keys(newProps).filter(
       key => typeof newProps[key] === 'function' && key.startsWith('on'))] *)
Definition handler_keys (h : list cell) (newProps : props) : list string :=
  List.filter (fun key => callable h (prop newProps key) && String.prefix "on" key)
              (keys newProps).

(** [handlers.reduce((acc, key) => ({ ...acc, [key]: newProps[key] }), {})];
    of the objects the reduction allocates only the last is kept. *)
Definition collect (handlers : list string) (newProps : props) : props :=
  fold_left (fun acc key => set_prop key (prop newProps key) acc) handlers [].

Definition applyProps (instance : value) (newProps oldProps : props) : M unit :=
  (* Filter identical props, event handlers, and reserved keys *)
  let identical := identical_keys newProps oldProps in
  handlers ← read (fun w => handler_keys (heap w) newProps);
  let props := pruneKeys newProps (identical ++ handlers ++ ["children"; "key"; "ref"]) in
  (* Mutate our three.js element *)
  when (negb (Nat.eqb (length (keys props)) 0))
       (forEach (apply_entry instance) props) ;;
  (* Collect event handlers *)
  when (negb (Nat.eqb (length handlers) 0))
       (collected ← alloc (obj plain (collect handlers newProps));
        set instance "__handlers" collected).

(** [commitUpdate(instance, updatePayload, type, oldProps, newProps)] *)
Definition commitUpdate (instance : value) (oldProps newProps : props) : M unit :=
  set instance "busy" (VBool true) ;;
  applyProps instance newProps oldProps ;;
  set instance "busy" (VBool false).

(** ** The THREE namespace, as far as [render] and [events] construct from it *)

Module THREE.

Definition Object3D_methods : list string :=
  ["add"; "remove"; "dispatchEvent"; "lookAt"; "raycast"].

Definition Vector2 : klass :=
  {| k_name := "Vector2"; k_methods := ["set"; "copy"; "setScalar"];
     k_isColor := false; k_isObject3D := false |}.
Definition Vector3 : klass :=
  {| k_name := "Vector3"; k_methods := ["set"; "copy"; "setScalar"];
     k_isColor := false; k_isObject3D := false |}.
Definition Euler : klass :=
  {| k_name := "Euler"; k_methods := ["set"; "copy"];
     k_isColor := false; k_isObject3D := false |}.
Definition Color : klass :=
  {| k_name := "Color"; k_methods := ["set"; "copy"; "setScalar"; "convertSRGBToLinear"];
     k_isColor := true; k_isObject3D := false |}.
Definition Raycaster : klass :=
  {| k_name := "Raycaster"; k_methods := ["setFromCamera"; "intersectObjects"];
     k_isColor := false; k_isObject3D := false |}.
Definition WebGLRenderer : klass :=
  {| k_name := "WebGLRenderer";
     k_methods := ["setAnimationLoop"; "forceContextLoss"; "dispose"; "render"; "setSize"];
     k_isColor := false; k_isObject3D := false |}.
Definition PerspectiveCamera : klass :=
  {| k_name := "PerspectiveCamera";
     k_methods := Object3D_methods ++ ["updateProjectionMatrix"];
     k_isColor := false; k_isObject3D := true |}.
Definition Scene : klass :=
  {| k_name := "Scene"; k_methods := Object3D_methods;
     k_isColor := false; k_isObject3D := true |}.
Definition Mesh : klass :=
  {| k_name := "Mesh"; k_methods := Object3D_methods;
     k_isColor := false; k_isObject3D := true |}.
Definition BufferGeometry (name : string) : klass :=
  {| k_name := name; k_methods := ["dispose"; "dispatchEvent"];
     k_isColor := false; k_isObject3D := false |}.
Definition Material (name : string) : klass :=
  {| k_name := name; k_methods := ["dispose"; "dispatchEvent"];
     k_isColor := false; k_isObject3D := false |}.

Definition sRGBEncoding : value := VNum 3001.
Definition ACESFilmicToneMapping : value := VNum 4.

(** [new THREE.Vector2()] and [new THREE.Vector3()] *)
Definition new_vector (k : klass) : M value :=
  alloc (obj k [("x", VNum 0); ("y", VNum 0)]).

(** The own properties every [Object3D] is constructed with; the uuid
    three.js draws at random is made from the fresh address. *)
Definition new_Object3D (k : klass) (type : string) : M value :=
  uuid ← read (fun w => "uuid-" +:+ pretty (length (heap w)));
  children ← alloc (arr []);
  position ← alloc (obj Vector3 [("x", VNum 0); ("y", VNum 0); ("z", VNum 0)]);
  rotation ← alloc (obj Euler [("x", VNum 0); ("y", VNum 0); ("z", VNum 0)]);
  scale ← alloc (obj Vector3 [("x", VNum 1); ("y", VNum 1); ("z", VNum 1)]);
  alloc (obj k [("uuid", VStr uuid); ("type", VStr type); ("parent", VNull);
                ("children", children); ("position", position);
                ("rotation", rotation); ("scale", scale)]).

(** [new THREE.WebGLRenderer({ canvas, ... })]: acquires a graphics context. *)
Definition new_WebGLRenderer (canvas : value) : M value :=
  gl ← alloc (obj WebGLRenderer [("domElement", canvas)]);
  modify (fun w =>
    with_hosts {| loops := loops (hosts w);
                  listeners := listeners (hosts w);
                  contexts := contexts (hosts w) ++ [gl] |} w) ;;
  mret gl.

End THREE.

(** ** Event Manager *)

(** Supported DOM events and their JSX keys with passive args *)
Definition EVENT_TYPES : list (string * (string * bool)) :=
  [("click", ("onClick", false));
   ("dblclick", ("onDoubleClick", false));
   ("pointerup", ("onPointerUp", true));
   ("pointerdown", ("onPointerDown", true));
   (* We hijack the mousemove event to handle hover state *)
   ("mousemove", ("hoverEvent", true))].

(** [if (handlers.name) handlers.name(event)] *)
Definition fire (handlers : value) (name : string) (event : value) : M unit :=
  handler ← get handlers name;
  when (truthy handler) (call handler handlers [event] ;; mret tt).

(** [v.key = ...] needs an object to write to. *)
Definition writable (v : value) (key : string) : M unit :=
  match v with
  | VUndefined | VNull =>
      throw ("Cannot set properties of " ++ to_key v ++ " (setting '" ++ key ++ "')")
  | _ => mret tt
  end.

(** The first half of [handleEvent]: pointer position and ray cast.  The
    numbers stored in [state.mouse.x] and [state.mouse.y] are floating-point
    quotients read by the ray cast only; the reads and calls around them are
    kept, the two stores are not. *)
Definition cast_ray (state event : value) : M unit :=
  (* Convert mouse coordinates *)
  mouse ← get state "mouse";
  _ ← get event "clientX";
  size ← get state "size";
  _ ← get size "width";
  writable mouse "x" ;;
  mouse ← get state "mouse";
  _ ← get event "clientY";
  size ← get state "size";
  _ ← get size "height";
  writable mouse "y" ;;
  (* Get elements that intersect with our pointer *)
  raycaster ← get state "raycaster";
  mouse ← get state "mouse";
  camera ← get state "camera";
  invoke raycaster "setFromCamera" [mouse; camera] ;;
  raycaster ← get state "raycaster";
  scene ← get state "scene";
  children ← get scene "children";
  invoke raycaster "intersectObjects" [children; VBool true].

(** The closure [handleEvent] of [connect(canvas, state)].

    [intersects] is what [state.raycaster.intersectObjects] answers for this
    event, each intersection written as its [object], nearest first. *)
Definition handleEvent (state : value) (intersects : list value)
    (event : value) (type : string) : M (list value) :=
  cast_ray state event ;;
  (* Used to discern between generic events and custom hover events *)
  let isHoverEvent := String.eqb type "hoverEvent" in
  (* Trigger events for hovered elements *)
  forEach (fun object : value =>
    handlers ← get object "__handlers";
    marked ← (if isHoverEvent then
                uuid ← get object "uuid";
                read (fun w => prop (hovered w) (to_key uuid))
              else mret VUndefined);
    if isHoverEvent && negb (truthy marked) then
      (* Mark object as hovered and fire its hover events *)
      uuid ← get object "uuid";
      modify (fun w => with_hovered (set_prop (to_key uuid) object (hovered w)) w) ;;
      fire handlers "onHover" event ;;
      fire handlers "onPointerOver" event
    else if negb isHoverEvent then
      (* Otherwise, fire its generic event *)
      fire handlers type event
    else mret tt) intersects ;;
  (* Clean up stale hover events *)
  when isHoverEvent
    (stale ← read (fun w => map snd (hovered w));
     forEach (fun object : value =>
       handlers ← get object "__handlers";
       if Nat.eqb (length intersects) 0
          || negb (existsb (fun i => strict_eq i object) intersects) then
         uuid ← get object "uuid";
         modify (fun w => with_hovered (delete_prop (to_key uuid) (hovered w)) w) ;;
         fire handlers "onPointerOut" event
       else mret tt) stale) ;;
  mret intersects.

(** [Object.entries(v)] *)
Definition entries (v : value) : M props :=
  match v with
  | VUndefined | VNull => throw "Cannot convert undefined or null to object"
  | VRef l => read (fun w =>
      match heap w !! l with
      | Some c => c_own c
      | None => []
      end)
  | _ => mret []
  end.

(** [events.connect(canvas, state)] *)
Definition connect (canvas state : value) : M unit :=
  (* Init event state *)
  mouse ← THREE.new_vector THREE.Vector2;
  set state "mouse" mouse ;;
  raycaster ← alloc (obj THREE.Raycaster []);
  set state "raycaster" raycaster ;;
  (* Save listeners to canvas *)
  saved ← alloc (obj plain []);
  set canvas "__listeners" saved ;;
  (* Register events *)
  forEach (fun '(name, (type, passive)) =>
    listener ← alloc (fn (FListener state type));
    invoke canvas "addEventListener" [VStr name; listener; VBool passive] ;;
    saved ← get canvas "__listeners";
    set saved name listener) EVENT_TYPES.

(** [events.disconnect(canvas)] *)
Definition disconnect (canvas : value) : M unit :=
  (* Get listeners from canvas *)
  saved ← get canvas "__listeners";
  (* Disconnect listeners *)
  registered ← entries saved;
  forEach (fun '(name, listener) =>
    invoke canvas "removeEventListener" [VStr name; listener]) registered ;;
  (* Remove listeners from canvas *)
  delete_ canvas "__listeners".

(** The class of the module's own [events] object; an event manager of any
    other class is the caller's and its methods are recorded calls. *)
Definition events : klass :=
  {| k_name := "Object"; k_methods := ["connect"; "disconnect"];
     k_isColor := false; k_isObject3D := false |}.

(** [state.events.connect(canvas, state)] and [state.events.disconnect(canvas)]:
    the methods of the module's own manager are the two functions above. *)
Definition manager_call (manager : value) (name : string) (args : list value) : M unit :=
  f ← get manager name;
  match f with
  | VNative m =>
      if String.eqb m "connect" then connect (arg 0 args) (arg 1 args)
      else if String.eqb m "disconnect" then disconnect (arg 0 args)
      else call f manager args ;; mret tt
  | _ => call f manager args ;; mret tt
  end.

(** ** Render Loop and Root Lifecycle Manager *)

(** [roots.get(canvas)] *)
Fixpoint roots_get (canvas : value) (r : list (value * (value * value)))
    : option (value * value) :=
  match r with
  | [] => None
  | (k, store) :: r' => if same_value_zero k canvas then Some store else roots_get canvas r'
  end.

(** [roots.set(canvas, store)] *)
Fixpoint roots_set (canvas : value) (store : value * value)
    (r : list (value * (value * value))) : list (value * (value * value)) :=
  match r with
  | [] => [(canvas, store)]
  | (k, s) :: r' =>
      if same_value_zero k canvas then (k, store) :: r'
      else (k, s) :: roots_set canvas store r'
  end.

(** [roots.delete(canvas)] *)
Definition roots_delete (canvas : value) (r : list (value * (value * value)))
    : list (value * (value * value)) :=
  List.filter (fun e => negb (same_value_zero (fst e) canvas)) r.

(** The reconciler is react-reconciler's.  [createContainer] hands back an
    opaque root; [updateContainer] schedules the element and runs its
    callback once the update is committed, which the model does at once. *)
Definition createContainer (containerInfo : value) : M value :=
  root ← alloc (obj plain [("containerInfo", containerInfo)]);
  emit (EvReconciler "createContainer" [containerInfo]) ;;
  mret root.

Definition updateContainer (element root : value) (callback : M unit) : M unit :=
  emit (EvReconciler "updateContainer" [element; root]) ;;
  callback.

(** [xs.filter(callback => callback !== ref)] *)
Definition without (ref : value) (xs : list value) : list value :=
  List.filter (fun callback => negb (strict_eq callback ref)) xs.

(** [state.subscribe = ref => { ... }] *)
Definition subscribe (state ref : value) : M unit :=
  subscribed ← get state "subscribed";
  xs ← elements subscribed;
  if includes ref xs then
    kept ← alloc (arr (without ref xs));
    set state "subscribed" kept
  else
    update_elements subscribed (fun xs => xs ++ [ref]).

(** The body of [state.subscribed.forEach(ref => { ... })]:
    [const callback = ref?.current;
     if (typeof callback === 'function') callback(state)] *)
Definition invoke_ref (state ref : value) : M unit :=
  callback ← get_opt ref "current";
  run ← is_function callback;
  when run (call callback VUndefined [state] ;; mret tt).

(** The callback handed to [state.gl.setAnimationLoop]: one frame. *)
Definition frame (state : value) : M unit :=
  subscribed ← get state "subscribed";
  xs ← elements subscribed;
  forEach (invoke_ref state) xs ;;
  gl ← get state "gl";
  scene ← get state "scene";
  camera ← get state "camera";
  invoke gl "render" [scene; camera].

(** [render(element, canvas, { size, gl, camera, ...props } = {})].

    [gl] and [camera] are option records ([None] when absent), [size] is
    [undefined] or an object with [width] and [height].  The assignment of
    the quotient [size.width / size.height] to [state.camera.aspect] is
    floating-point arithmetic and is left out. *)
Definition render (element canvas size : value) (gl camera : option props)
    (props : props) : M value :=
  (* If size isn't explicitly defined, we can assume it from the canvas *)
  size ← (if negb (truthy size) then
            parentElement ← get canvas "parentElement";
            clientWidth ← get_opt parentElement "clientWidth";
            parentElement ← get canvas "parentElement";
            clientHeight ← get_opt parentElement "clientHeight";
            alloc (obj plain
              [("width", if truthy clientWidth then clientWidth else VNum 0);
               ("height", if truthy clientHeight then clientHeight else VNum 0)])
          else mret size);
  (* Get store and init/update three.js state *)
  store ← read (fun w => roots_get canvas (roots w));
  let root := match store with Some (root, _) => root | None => VUndefined end in
  state ← match store with
          | Some (_, state) => if truthy state then mret state else alloc (obj plain [])
          | None => alloc (obj plain [])
          end;
  forEach (fun '(key, v) => set state key v) (props ++ [("size", size)]) ;;
  (* Initiate root *)
  root ← (if negb (truthy root) then
    (* Create renderer *)
    renderer ← THREE.new_WebGLRenderer canvas;
    set state "gl" renderer ;;
    match gl with
    | Some options => state_gl ← get state "gl"; applyProps state_gl options []
    | None => mret tt
    end ;;
    (* Set artist-friendly color management defaults *)
    state_gl ← get state "gl";
    set state_gl "outputEncoding" THREE.sRGBEncoding ;;
    state_gl ← get state "gl";
    set state_gl "toneMapping" THREE.ACESFilmicToneMapping ;;
    (* Create camera *)
    created ← THREE.new_Object3D THREE.PerspectiveCamera "PerspectiveCamera";
    set state "camera" created ;;
    state_camera ← get state "camera";
    position ← get state_camera "position";
    set position "z" (VNum 5) ;;
    match camera with
    | Some options => state_camera ← get state "camera"; applyProps state_camera options []
    | None => mret tt
    end ;;
    (* Look at center by default *)
    when (negb (truthy (match camera with
                        | Some options => prop options "rotation"
                        | None => VUndefined
                        end)))
         (state_camera ← get state "camera";
          invoke state_camera "lookAt" [VNum 0; VNum 0; VNum 0]) ;;
    (* Create scene *)
    created ← THREE.new_Object3D THREE.Scene "Scene";
    set state "scene" created ;;
    (* Create root *)
    state_scene ← get state "scene";
    root ← createContainer state_scene;
    (* If an event manager is specified, connect it *)
    state_events ← get state "events";
    when (truthy state_events)
         (state_events ← get state "events";
          manager_call state_events "connect" [canvas; state]) ;;
    (* Keep track of elements subscribed to the render loop with useFrame *)
    subscribed ← alloc (arr []);
    set state "subscribed" subscribed ;;
    closure ← alloc (fn (FSubscribe state));
    set state "subscribe" closure ;;
    (* Start our render loop *)
    loop ← alloc (fn (FLoop state));
    state_gl ← get state "gl";
    invoke state_gl "setAnimationLoop" [loop] ;;
    mret root
  else mret root);
  (* Handle resize *)
  state_gl ← get state "gl";
  width ← get size "width";
  height ← get size "height";
  invoke state_gl "setSize" [width; height] ;;
  state_camera ← get state "camera";
  invoke state_camera "updateProjectionMatrix" [] ;;
  (* Update root *)
  modify (fun w => with_roots (roots_set canvas (root, state) (roots w)) w) ;;
  (* Update fiber and expose three.js state to children *)
  updateContainer element root (mret tt) ;;
  mret state.

(** [unmountComponentAtNode(canvas)] *)
Definition unmountComponentAtNode (canvas : value) : M unit :=
  store ← read (fun w => roots_get canvas (roots w));
  match store with
  | None => mret tt
  | Some (root, state) =>
      updateContainer VNull root
        ((* Disconnect events *)
         state_events ← get state "events";
         when (truthy state_events)
              (state_events ← get state "events";
               manager_call state_events "disconnect" [canvas]) ;;
         (* Clean up renderer *)
         state_renderer ← get state "renderer";
         invoke state_renderer "setAnimationLoop" [VNull] ;;
         state_renderer ← get state "renderer";
         invoke state_renderer "forceContextLoss" [] ;;
         state_renderer ← get state "renderer";
         invoke state_renderer "dispose" [] ;;
         (* Delete store *)
         modify (fun w => with_roots (roots_delete canvas (roots w)) w))
  end.

(** ** What a run emitted *)

(** The calls a computation added to the trace. *)
Definition emitted {A} (m : M A) (w : world) : list event :=
  drop (length (trace w)) (trace (snd (m w))).

(** [recv.dispose()] was called. *)
Definition disposes (recv : value) (e : event) : bool :=
  match e with
  | EvCall r m _ => strict_eq r recv && String.eqb m "dispose"
  | _ => false
  end.

(** The elements of the array kept in [v.key], [[]] when there is none. *)
Definition array_in (w : world) (v : value) (key : string) : list value :=
  match get v key w with
  | (Ok a, _) => match elements a w with
                 | (Ok xs, _) => xs
                 | _ => []
                 end
  | _ => []
  end.

(** [v.key] as a pure read, [undefined] when the read throws. *)
Definition field (w : world) (v : value) (key : string) : value :=
  match get v key w with
  | (Ok x, _) => x
  | _ => VUndefined
  end.

(** ** Scenes the statements below are run on *)

Module Scenario.

Definition Group : klass :=
  {| k_name := "Group"; k_methods := THREE.Object3D_methods;
     k_isColor := false; k_isObject3D := true |}.

(** A group, two meshes built with their geometry and material, and a
    geometry element about to be attached. *)
Definition group : value := VRef 0.
Definition meshA : value := VRef 2.
Definition meshB : value := VRef 4.
Definition boxGeometry : value := VRef 6.
Definition material : value := VRef 7.
Definition sphereGeometry : value := VRef 8.
Definition onClick : value := VRef 9.
Definition onPointerOut : value := VRef 10.
Definition bare : value := VRef 12.

Definition stage : world :=
  with_heap
    [ obj Group [("uuid", VStr "G"); ("type", VStr "Group"); ("parent", VNull);
                 ("children", VRef 1)];
      arr [];
      obj THREE.Mesh [("uuid", VStr "A"); ("type", VStr "Mesh"); ("parent", VNull);
                      ("children", VRef 3); ("geometry", boxGeometry);
                      ("material", material)];
      arr [];
      obj THREE.Mesh [("uuid", VStr "B"); ("type", VStr "Mesh"); ("parent", VNull);
                      ("children", VRef 5); ("geometry", boxGeometry);
                      ("material", material)];
      arr [];
      obj (THREE.BufferGeometry "BoxGeometry")
          [("uuid", VStr "g"); ("type", VStr "BoxGeometry"); ("attach", VStr "geometry")];
      obj (THREE.Material "MeshStandardMaterial")
          [("uuid", VStr "m"); ("type", VStr "MeshStandardMaterial");
           ("attach", VStr "material")];
      obj (THREE.BufferGeometry "SphereGeometry")
          [("uuid", VStr "s"); ("type", VStr "SphereGeometry");
           ("attach", VStr "geometry")];
      fn (FUser 1);
      fn (FUser 2);
      arr [];
      obj THREE.Mesh [("uuid", VStr "C"); ("type", VStr "Mesh"); ("parent", VNull);
                      ("children", VRef 11)] ]
    empty_world.

(** The page: two canvases in their containers and the module's event
    manager. *)
Definition Canvas : klass :=
  {| k_name := "HTMLCanvasElement";
     k_methods := ["addEventListener"; "removeEventListener"];
     k_isColor := false; k_isObject3D := false |}.

Definition canvas1 : value := VRef 13.
Definition canvas2 : value := VRef 15.
Definition manager : value := VRef 17.
Definition mousemove : value := VRef 18.
(** Two refs as [useFrame] makes them, [{ current: callback }]. *)
Definition frameRef1 : value := VRef 19.
Definition frameRef2 : value := VRef 20.

Definition page : world :=
  with_heap
    (heap stage ++
     [ obj Canvas [("parentElement", VRef 14)];
       obj plain [("clientWidth", VNum 100); ("clientHeight", VNum 100)];
       obj Canvas [("parentElement", VRef 16)];
       obj plain [("clientWidth", VNum 100); ("clientHeight", VNum 100)];
       obj events [];
       obj plain [("clientX", VNum 50); ("clientY", VNum 50)];
       obj plain [("current", onClick)];
       obj plain [("current", onPointerOut)] ])
    empty_world.

Definition run {A} (m : M A) (w : world) : world := snd (m w).

(** The object at an address known to be live. *)
Definition cell_at (w : world) (l : nat) : cell :=
  match heap w !! l with
  | Some c => c
  | None => obj plain []
  end.

Definition state_of (m : M value) (w : world) : value :=
  match fst (m w) with
  | Ok v => v
  | Throw _ => VUndefined
  end.

(** [render(<></>, canvas, { events })] *)
Definition mount (canvas : value) : M value :=
  render VNull canvas VUndefined None None [("events", manager)].

Definition mounted : world := run (mount canvas1) page.
Definition state1 : value := state_of (mount canvas1) page.

Definition mounted_twice : world := run (mount canvas2) mounted.
Definition state2 : value := state_of (mount canvas2) mounted.

(** Both refs subscribed to the first surface, in this order. *)
Definition animated : world :=
  run (subscribe state1 frameRef1 ;; subscribe state1 frameRef2) mounted.

(** Mesh A with [onClick] and [onPointerOut] applied. *)
Definition interactive (w : world) : world :=
  run (applyProps meshA [("onClick", onClick); ("onPointerOut", onPointerOut)] []) w.

(** Both surfaces mounted, mesh A interactive and in the scene of the first
    surface, nothing hovered. *)
Definition two_surfaces : world :=
  run (appendChild (field mounted_twice state1 "scene") meshA) (interactive mounted_twice).

(** The same after a [mousemove] over mesh A on the first surface. *)
Definition hovering : world :=
  run (handleEvent state1 [meshA] mousemove "hoverEvent") two_surfaces.

(** A mesh element without handlers, [<mesh visible />], in the scene of the
    first surface. *)
Definition plain_mesh : world :=
  run (applyProps bare [("visible", VBool true)] [] ;;
       appendChild (field mounted state1 "scene") bare) mounted.

(** The stage with mesh A a child of the group. *)
Definition adopted : world := run (appendChild group meshA) stage.

End Scenario.

(** ** The vocabulary of the statements *)

(** Every value of [p] is identical to itself under [===]: none is NaN. *)
Definition self_identical (p : props) : Prop :=
  forall key v, In (key, v) p -> v <> VNaN.

(** Every object of [w] is still there in [w'], with the same value under
    every key that satisfies [P]. *)
Definition preserved (P : string -> Prop) (w w' : world) : Prop :=
  forall (l : nat) (c : cell), heap w !! l = Some c ->
    exists c', heap w' !! l = Some c' /\
      forall key, P key -> lookup_prop key (c_own c') = lookup_prop key (c_own c).

(** Whatever it returns, [m] leaves the worlds it runs in [preserved]. *)
Definition respects {A} (P : string -> Prop) (m : M A) : Prop :=
  forall w r w', m w = (r, w') -> preserved P w w'.

(** [key] names a handler of [p]: a callable under an [on...] key. *)
Definition is_handler (h : list cell) (p : props) (key : string) : bool :=
  callable h (prop p key) && String.prefix "on" key.

(** A child either has no [dispose] or has three.js's. *)
Definition disposal (c : cell) : Prop :=
  read_cell c "dispose" = VUndefined \/ read_cell c "dispose" = VNative "dispose".

(** The [parent] of a child is [null] or a three.js object with its children. *)
Definition parented (h : list cell) (cc : cell) : Prop :=
  read_cell cc "parent" = VNull \/
  exists (q aq : nat) (qc caq : cell) (ys : list value),
    read_cell cc "parent" = VRef q /\ h !! q = Some qc /\
    read_cell qc "remove" = VNative "remove" /\
    read_cell qc "children" = VRef aq /\
    h !! aq = Some caq /\ c_shape caq = SArray ys.

(** A child that names no slot of the parent: [appendChild] hands it to
    [parent.add]. *)
Definition unattached (pc cc : cell) : Prop :=
  truthy (read_cell cc "attach") = false \/
  read_cell pc (to_key (read_cell cc "attach")) = VUndefined.

(** [ref.current] is the function [fu]. *)
Definition plays (w : world) (ref : value) (fu : func) : Prop :=
  exists cb c, field w ref "current" = VRef cb /\ heap w !! cb = Some c /\
               c_shape c = SFunction fu.

(** A Surface State as [render] and [connect] leave it: a pointer, a size,
    three.js's raycaster, a scene. *)
Definition surface (h : list cell) (s : nat) : Prop :=
  exists sc m z rc rcc sn,
    h !! s = Some sc /\
    read_cell sc "mouse" = VRef m /\
    read_cell sc "size" = VRef z /\
    read_cell sc "raycaster" = VRef rc /\ h !! rc = Some rcc /\
    read_cell rcc "setFromCamera" = VNative "setFromCamera" /\
    read_cell rcc "intersectObjects" = VNative "intersectObjects" /\
    read_cell sc "scene" = VRef sn.

(** The handler mapping at [hm] holds author callbacks only. *)
Definition handler_mapping (h : list cell) (hm : nat) : Prop :=
  exists hmc, h !! hm = Some hmc /\
    forall name, read_cell hmc name = VUndefined \/
                 exists fl fc fu, read_cell hmc name = VRef fl /\ h !! fl = Some fc /\
                                  c_shape fc = SFunction fu.

(** Object [o] has uuid [u] and the handler mapping [hm]. *)
Definition listens (h : list cell) (o : nat) (u : string) (hm : nat) : Prop :=
  exists oc, h !! o = Some oc /\
    read_cell oc "uuid" = VStr u /\ read_cell oc "__handlers" = VRef hm /\
    handler_mapping h hm.

(** The mapping at [hm] answers [name] with the function [fu]. *)
Definition handles (h : list cell) (hm : nat) (name : string) (fu : func) : Prop :=
  exists hmc fl fc, h !! hm = Some hmc /\ read_cell hmc name = VRef fl /\
                    h !! fl = Some fc /\ c_shape fc = SFunction fu.

(** What [if (handlers.name) handlers.name(event)] applies. *)
Definition fired (h : list cell) (hm : nat) (name : string) (e : value) : list event :=
  match h !! hm with
  | Some hmc =>
      match read_cell hmc name with
      | VRef fl =>
          match h !! fl with
          | Some {| c_shape := SFunction fu |} => [EvApply fu [e]]
          | _ => []
          end
      | _ => []
      end
  | None => []
  end.

(** ** The vocabulary of the further statements *)

(** The props [applyProps] applies to the instance: [newProps] pruned of the
    identical, the handler and the reserved keys. *)
Definition applicable (h : list cell) (newProps oldProps : props) : props :=
  pruneKeys newProps
    (identical_keys newProps oldProps ++ handler_keys h newProps ++ ["children"; "key"; "ref"]).

(** The own properties of [c] after the plain assignments [ps]. *)
Definition assigned (ps : props) (c : cell) : cell :=
  fold_left (fun c entry => write_cell (fst entry) (snd entry) c) ps c.

(** The object at [t] is an instance of the class [k] whose methods are
    the class's own: none is shadowed by a property of the instance. *)
Definition instance_of (h : list cell) (t : nat) (k : klass) : Prop :=
  exists tc, h !! t = Some tc /\ c_shape tc = SObject k /\
    forall m, In m (k_methods k) -> lookup_prop m (c_own tc) = None.

(** The methods of three.js and the DOM that act on state the module reads
    back; every other method is a recorded call and nothing more. *)
Definition acting : list string :=
  ["add"; "remove"; "setAnimationLoop"; "forceContextLoss";
   "addEventListener"; "removeEventListener"].

(** A material with its colour, and the position an author gives as an
    array, next to the first surface. *)
Module Palette.

Definition triple : value := VRef (length (heap Scenario.mounted)).
Definition color : value := VRef (1 + length (heap Scenario.mounted)).
Definition basic : value := VRef (2 + length (heap Scenario.mounted)).

Definition studio : world :=
  with_heap
    (heap Scenario.mounted ++
     [ arr [VNum 10; VNum 10; VNum 10];
       obj THREE.Color [("r", VNum 1); ("g", VNum 1); ("b", VNum 1)];
       obj (THREE.Material "MeshBasicMaterial")
           [("uuid", VStr "b"); ("type", VStr "MeshBasicMaterial");
            ("attach", VStr "material"); ("color", color)] ])
    Scenario.mounted.

End Palette.

(** What one subscriber contributes to a frame: its [ref.current] applied
    to the state when that is a function, nothing otherwise. *)
Definition played (w : world) (state ref : value) : list event :=
  match field w ref "current" with
  | VRef cb =>
      match heap w !! cb with
      | Some {| c_shape := SFunction fu |} => [EvApply fu [state]]
      | _ => []
      end
  | _ => []
  end.

(** What a generic event fires on one intersected object: the handler its
    [__handlers] keeps under the event's key, if any. *)
Definition dispatched (h : list cell) (name : string) (e object : value) : list event :=
  match object with
  | VRef o =>
      match h !! o with
      | Some oc =>
          match read_cell oc "__handlers" with
          | VRef hm => fired h hm name e
          | _ => []
          end
      | None => []
      end
  | _ => []
  end.

(** An intersected object that went through [applyProps] with handlers. *)
Definition interactive_object (h : list cell) (v : value) : Prop :=
  exists o u hm, v = VRef o /\ listens h o u hm.

(** The registrations [connect] makes for the event types [ts] on the
    canvas at [cv], its listeners allocated from the address [base] on. *)
Fixpoint registered (cv base : nat) (ts : list (string * (string * bool)))
    : list (value * string * value) :=
  match ts with
  | [] => []
  | t :: ts' => (VRef cv, fst t, VRef base) :: registered cv (S base) ts'
  end.

(** [canvas.__listeners] after these registrations. *)
Fixpoint kept (base : nat) (ts : list (string * (string * bool))) (c : cell) : cell :=
  match ts with
  | [] => c
  | t :: ts' => kept (S base) ts' (write_cell (fst t) (VRef base) c)
  end.

(** Every listener of the registry is an object of the heap. *)
Definition registry_live (w : world) : Prop :=
  forall e l, In e (listeners (hosts w)) -> snd e = VRef l -> l < length (heap w).

(** ** Elements

    [createElement(type, props, ...childNodes)], the recreation of React's.
    The element it returns is a record; [type] is handed through and is of
    any kind (a string, a component, the fragment symbol).  [props] is
    [None] for [null] or [undefined], the own properties of the object
    otherwise. *)

(** [Symbol.for(key)] *)
Inductive symbol :=
| SymbolFor (key : string).

Record element (T : Type) := {
  e_typeof : symbol;
  e_type : T;
  e_key : value;
  e_ref : value;
  e_props : props;
}.
Arguments e_typeof {T} _.
Arguments e_type {T} _.
Arguments e_key {T} _.
Arguments e_ref {T} _.
Arguments e_props {T} _.

(** [const { name = fallback } = o] *)
Definition destructured (o : props) (name : string) (fallback : value) : value :=
  if strict_eq (prop o name) VUndefined then fallback else prop o name.

(** [{ ...base, ...extra }] *)
Definition spread (base extra : props) : props :=
  fold_left (fun acc entry => set_prop (fst entry) (snd entry) acc) extra base.

Definition createElement {T} (type : T) (props : option props) (childNodes : list value)
    : M (element T) :=
  (* the rest parameter is an array of its own *)
  nodes ← alloc (arr childNodes);
  (* Extract reserved keys from props *)
  let given := match props with Some o => o | None => [] end in
  let key := destructured given "key" VNull in
  let ref := destructured given "ref" VNull in
  let rest := delete_prop "ref" (delete_prop "key" given) in
  (* Pass only the first child if only one is specified *)
  let childCollection := if Nat.eqb (length childNodes) 1 then nth 0 childNodes VUndefined
                         else nodes in
  let children := if negb (Nat.eqb (length childNodes) 0) then childCollection
                  else VUndefined in
  mret {| e_typeof := SymbolFor "react.element";
          e_type := type;
          e_key := key;
          e_ref := ref;
          e_props := spread rest [("children", children)] |}.

(** [const Fragment = Symbol.for('react.fragment')] *)
Definition Fragment : symbol := SymbolFor "react.fragment".

(** ** Instance factory *)

(** [c.toUpperCase()] on a character of a type name; the names of the THREE
    namespace are ASCII. *)
Definition toUpperCase (c : Ascii.ascii) : Ascii.ascii :=
  let n := Ascii.nat_of_ascii c in
  if Nat.leb 97 n && Nat.leb n 122 then Ascii.ascii_of_nat (n - 32) else c.

(** [str.charAt(0).toUpperCase() + str.substring(1)] *)
Definition pascalCase (str : string) : string :=
  match str with
  | EmptyString => EmptyString
  | String c rest => String (toUpperCase c) rest
  end.

(** [s.endsWith(suffix)] *)
Definition endsWith (s suffix : string) : bool :=
  Nat.leb (String.length suffix) (String.length s)
  && String.eqb (String.substring (String.length s - String.length suffix)
                                  (String.length suffix) s) suffix.

(** What the THREE namespace exports under a name: a class, written as its
    constructor on the list of arguments, or a constant. *)
Inductive export :=
| Class (construct : list value -> M value)
| Constant (v : value).

(** What [createInstance] comes to: an instance, or a thrown message (the
    factory throws strings, not errors). *)
Inductive outcome :=
| Created (instance : value)
| Thrown (message : string).

(** [!target] *)
Definition missing (target : option export) : bool :=
  match target with
  | None => true
  | Some (Class _) => false
  | Some (Constant v) => negb (truthy v)
  end.

(** [new target(...args)] *)
Definition construct (target : option export) (args : list value) : M value :=
  match target with
  | Some (Class new) => new args
  | _ => throw "target is not a constructor"
  end.

Definition quoted (s : string) : string :=
  String (Ascii.ascii_of_nat 34) s ++ String (Ascii.ascii_of_nat 34) EmptyString.

(** The props after "Auto-attach geometry and materials to meshes". *)
Definition auto_attached (name : string) (rest : props) : props :=
  if endsWith name "Geometry" then spread [("attach", VStr "geometry")] rest
  else if endsWith name "Material" then spread [("attach", VStr "material")] rest
  else rest.

(** [createInstance(type, { object, args, ...props })], over the namespace
    imported as [THREE]. *)
Definition createInstance (THREE : string -> option export) (type : string)
    (given : props) : M outcome :=
  let object := prop given "object" in
  let args := prop given "args" in
  let props := delete_prop "args" (delete_prop "object" given) in
  (* Convert lowercase primitive to PascalCase *)
  let name := pascalCase type in
  (* Get class from THREE namespace *)
  let target := THREE name in
  (* Validate THREE elements *)
  if negb (String.eqb type "primitive") && missing target then
    mret (Thrown (type ++ " is not a part of the THREE namespace."))
  (* Validate primitives *)
  else if String.eqb type "primitive" && negb (truthy object) then
    mret (Thrown (quoted "object" ++ " must be set when using primitives."))
  else
    (* Create instance *)
    instance ← (if truthy object then mret object
                else
                  isArray ← is_array args;
                  if (isArray : bool) then xs ← elements args; construct target xs
                  else construct target [args]);
    (* Set initial props *)
    applyProps instance (auto_attached name props) [] ;;
    mret (Created instance).

(** A namespace with three of three.js's classes and one of its constants. *)
Module Namespace.

Definition three (name : string) : option export :=
  if String.eqb name "Mesh" then
    Some (Class (fun _ => THREE.new_Object3D THREE.Mesh "Mesh"))
  else if String.eqb name "BoxGeometry" then
    Some (Class (fun _ =>
      alloc (obj (THREE.BufferGeometry "BoxGeometry") [("type", VStr "BoxGeometry")])))
  else if String.eqb name "MeshBasicMaterial" then
    Some (Class (fun _ =>
      color ← alloc (obj THREE.Color [("r", VNum 1); ("g", VNum 1); ("b", VNum 1)]);
      alloc (obj (THREE.Material "MeshBasicMaterial")
                 [("type", VStr "MeshBasicMaterial"); ("color", color)])))
  else if String.eqb name "FrontSide" then Some (Constant (VNum 0))
  else None.

End Namespace.

(** The slot a name is auto-attached to, if any. *)
Definition attach_default (name : string) : option string :=
  if endsWith name "Geometry" then Some "geometry"
  else if endsWith name "Material" then Some "material"
  else None.

(** The arguments [createInstance] constructs with: the elements of [args]
    when it is an array, [args] alone otherwise. *)
Definition arguments (h : list cell) (args : value) : list value :=
  match args with
  | VRef a =>
      match h !! a with
      | Some {| c_shape := SArray xs |} => xs
      | _ => [args]
      end
  | _ => [args]
  end.

(** Every renderer with a render loop is an object of the heap. *)
Definition loops_live (w : world) : Prop :=
  forall e l, In e (loops (hosts w)) -> fst e = VRef l -> l < length (heap w).

(** * Properties *)

(** ** Values and own properties *)

Lemma strict_eq_refl (v : value) : v <> VNaN -> strict_eq v v = true.
Proof.
  destruct v; simpl; intros H; try reflexivity; try congruence.
  - apply Bool.eqb_reflx.
  - apply Z.eqb_refl.
  - apply String.eqb_refl.
  - apply String.eqb_refl.
  - apply Nat.eqb_refl.
Qed.

Lemma strict_eq_true (a b : value) : strict_eq a b = true -> a = b.
Proof.
  destruct a, b; simpl; intros H; try discriminate; try reflexivity.
  - apply Bool.eqb_prop in H. congruence.
  - apply Z.eqb_eq in H. congruence.
  - apply String.eqb_eq in H. congruence.
  - apply String.eqb_eq in H. congruence.
  - apply Nat.eqb_eq in H. congruence.
Qed.

Lemma lookup_set_same (key : string) (x : value) (o : props) :
  lookup_prop key (set_prop key x o) = Some x.
Proof.
  induction o as [|[k v] o IH]; simpl.
  - now rewrite String.eqb_refl.
  - destruct (String.eqb k key) eqn:E; simpl; now rewrite E.
Qed.

Lemma lookup_set_other (key key' : string) (x : value) (o : props) :
  key <> key' -> lookup_prop key' (set_prop key x o) = lookup_prop key' o.
Proof.
  intros Hne. induction o as [|[k v] o IH]; simpl.
  - destruct (String.eqb key key') eqn:E; [apply String.eqb_eq in E; contradiction | reflexivity].
  - destruct (String.eqb k key) eqn:E; simpl.
    + apply String.eqb_eq in E. subst k.
      destruct (String.eqb key key') eqn:E'; [apply String.eqb_eq in E'; contradiction | reflexivity].
    + now rewrite IH.
Qed.

Lemma lookup_prop_keys (key : string) (o : props) :
  lookup_prop key o = None <-> ~ In key (keys o).
Proof.
  unfold keys. induction o as [|[k v] o IH]; simpl.
  - tauto.
  - destruct (String.eqb k key) eqn:E.
    + apply String.eqb_eq in E. split; [discriminate | intros H; exfalso; apply H; now left].
    + apply String.eqb_neq in E. rewrite IH. tauto.
Qed.

Lemma lookup_prop_In (key : string) (p : props) :
  In key (keys p) -> exists v, lookup_prop key p = Some v /\ In (key, v) p.
Proof.
  unfold keys. induction p as [|[k v] p IH]; simpl; intros H.
  - contradiction.
  - destruct (String.eqb k key) eqn:E.
    + apply String.eqb_eq in E. subst k. eauto.
    + destruct H as [H|H]; [subst k; rewrite String.eqb_refl in E; discriminate |].
      destruct (IH H) as (v' & Hv & Hin). eauto.
Qed.

Lemma prop_missing (p : props) (key : string) : ~ In key (keys p) -> prop p key = VUndefined.
Proof. intros H. apply lookup_prop_keys in H. unfold prop. now rewrite H. Qed.

Lemma set_prop_twice (key : string) (x y : value) (o : props) :
  set_prop key y (set_prop key x o) = set_prop key y o.
Proof.
  induction o as [|[k v] o IH]; simpl.
  - now rewrite String.eqb_refl.
  - destruct (String.eqb k key) eqn:E; simpl; rewrite E; [reflexivity | now rewrite IH].
Qed.

Lemma filter_all {A} (f : A -> bool) (l : list A) :
  (forall x, In x l -> f x = true) -> List.filter f l = l.
Proof.
  induction l as [|x l IH]; simpl; intros H; [reflexivity |].
  rewrite (H x) by now left. f_equal. apply IH. intros y Hy. apply H. now right.
Qed.

Lemma filter_none {A} (f : A -> bool) (l : list A) :
  (forall x, In x l -> f x = false) -> List.filter f l = [].
Proof.
  induction l as [|x l IH]; simpl; intros H; [reflexivity |].
  rewrite (H x) by now left. apply IH. intros y Hy. apply H. now right.
Qed.

(** ** The monad and its primitives on live objects *)

Lemma bind_ok {A B} (m : M A) (f : A -> M B) (w w' : world) (a : A) :
  m w = (Ok a, w') -> (m ≫= f) w = f a w'.
Proof. intros H. unfold mbind, M_bind. now rewrite H. Qed.

Lemma bind_throw {A B} (m : M A) (f : A -> M B) (w w' : world) (e : error) :
  m w = (Throw e, w') -> (m ≫= f) w = (Throw e, w').
Proof. intros H. unfold mbind, M_bind. now rewrite H. Qed.

Lemma bind_inv {A B} (m : M A) (f : A -> M B) (w w' : world) (b : B) :
  (m ≫= f) w = (Ok b, w') ->
  exists a w1, m w = (Ok a, w1) /\ f a w1 = (Ok b, w').
Proof.
  unfold mbind, M_bind. destruct (m w) as [[a|e] w1]; intros H.
  - eauto.
  - discriminate.
Qed.

Lemma with_trace_nil (w : world) : with_trace (trace w ++ []) w = w.
Proof. unfold with_trace. rewrite app_nil_r. now destruct w. Qed.

Lemma run_get (w : world) (l : nat) (c : cell) (key : string) :
  heap w !! l = Some c -> get (VRef l) key w = (Ok (read_cell c key), w).
Proof. intros H. unfold get, read. now rewrite H. Qed.

Lemma get_ref (w : world) (l : nat) (key : string) :
  get (VRef l) key w = (Ok (field w (VRef l) key), w).
Proof. reflexivity. Qed.

Lemma get_heap (v : value) (key : string) (w w' : world) :
  heap w' = heap w -> fst (get v key w') = fst (get v key w).
Proof. intros E. destruct v; simpl; try reflexivity. unfold read. simpl. now rewrite E. Qed.

Lemma field_heap (w w' : world) (v : value) (key : string) :
  heap w' = heap w -> field w' v key = field w v key.
Proof.
  intros E. unfold field. pose proof (get_heap v key w w' E) as H.
  destruct (get v key w') as [r1 ?], (get v key w) as [r2 ?]. simpl in H. now subst.
Qed.

Lemma get_opt_field (w : world) (v : value) (key : string) :
  get_opt v key w = (Ok (field w v key), w).
Proof. destruct v; reflexivity. Qed.

Lemma is_function_callable (w : world) (v : value) :
  is_function v w = (Ok (callable (heap w) v), w).
Proof.
  destruct v; reflexivity.
Qed.

Lemma run_elements (w : world) (l : nat) (c : cell) (xs : list value) :
  heap w !! l = Some c -> c_shape c = SArray xs -> elements (VRef l) w = (Ok xs, w).
Proof. intros H S. unfold elements. rewrite H. destruct c as [[] o]; simpl in S; congruence. Qed.

Lemma run_update_elements (w : world) (l : nat) (c : cell) (xs : list value)
    (f : list value -> list value) :
  heap w !! l = Some c -> c_shape c = SArray xs ->
  update_elements (VRef l) f w
  = (Ok tt, with_heap (alter (store_elements (f xs)) l (heap w)) w).
Proof.
  intros H S. unfold update_elements.
  erewrite bind_ok by (eapply run_elements; eauto). reflexivity.
Qed.

Lemma array_in_live (w : world) (s a : nat) (sc ca : cell) (key : string) (xs : list value) :
  heap w !! s = Some sc -> read_cell sc key = VRef a ->
  heap w !! a = Some ca -> c_shape ca = SArray xs ->
  array_in w (VRef s) key = xs.
Proof.
  intros Hs Hk Ha Sa. unfold array_in.
  rewrite (run_get w s sc key Hs), Hk. now rewrite (run_elements w a ca xs Ha Sa).
Qed.

Lemma run_is_Object3D (w : world) (l : nat) (c : cell) (k : klass) :
  heap w !! l = Some c -> c_shape c = SObject k ->
  is_Object3D (VRef l) w = (Ok (k_isObject3D k), w).
Proof. intros H S. unfold is_Object3D, read. rewrite H. destruct c as [[] o]; simpl in S; congruence. Qed.

Lemma run_dispatch_logged (w : world) (l : nat) (c : cell) (type : string) :
  heap w !! l = Some c -> read_cell c "dispatchEvent" = VNative "dispatchEvent" ->
  dispatch_logged (VRef l) type w
  = (Ok tt, with_trace (trace w ++ [EvCall (VRef l) "dispatchEvent" [VStr type]]) w).
Proof.
  intros H D. unfold dispatch_logged.
  erewrite bind_ok by (eapply run_get; eauto). now rewrite D.
Qed.

Lemma native_logged (m : string) (this : value) (args : list value) (w : world) :
  m = "render" \/ m = "dispose" \/ m = "setFromCamera" \/ m = "intersectObjects" ->
  native m this args w = (Ok VUndefined, with_trace (trace w ++ [EvCall this m args]) w).
Proof. intros [-> | [-> | [-> | ->]]]; reflexivity. Qed.

Lemma read_write_other (key key' : string) (x : value) (c : cell) :
  key <> key' -> read_cell (write_cell key x c) key' = read_cell c key'.
Proof.
  intros H. unfold read_cell, write_cell. simpl. rewrite lookup_set_other by assumption.
  reflexivity.
Qed.

Lemma read_write_same (key : string) (x : value) (c : cell) :
  read_cell (write_cell key x c) key = x.
Proof. unfold read_cell, write_cell. simpl. now rewrite lookup_set_same. Qed.

Lemma write_cell_twice (key : string) (x y : value) (c : cell) :
  write_cell key y (write_cell key x c) = write_cell key y c.
Proof. unfold write_cell. simpl. now rewrite set_prop_twice. Qed.

Lemma store_elements_restore (xs ys : list value) (c : cell) :
  c_shape c = SArray xs -> store_elements xs (store_elements ys c) = c.
Proof. destruct c as [[] o]; simpl; intros H; inversion H; reflexivity. Qed.

Lemma shape_store_elements (xs ys : list value) (c : cell) :
  c_shape c = SArray xs -> c_shape (store_elements ys c) = SArray ys.
Proof. destruct c as [[] o]; simpl; intros H; inversion H; reflexivity. Qed.

(** Writing one property leaves the shape and every other property alone. *)
Lemma alter_write_lookup (h : list cell) (l l' : loc) (key : string) (x : value) (c : cell) :
  h !! l' = Some c ->
  exists c', alter (write_cell key x) l h !! l' = Some c' /\
             c_shape c' = c_shape c /\
             forall key', key <> key' -> lookup_prop key' (c_own c') = lookup_prop key' (c_own c).
Proof.
  intros H. destruct (decide (l = l')) as [->|Hne].
  - rewrite list_lookup_alter_eq, H. simpl. eexists. split; [reflexivity |].
    split; [reflexivity |]. intros key' Hk. simpl. now apply lookup_set_other.
  - rewrite list_lookup_alter_ne by assumption. eauto.
Qed.

(** Look an address up in a heap some cells of which were altered. *)
Ltac lookup :=
  simpl;
  repeat first [ rewrite list_lookup_alter_ne by congruence
               | rewrite list_lookup_alter_eq ];
  match goal with
  | H : ?h !! ?l = Some _ |- context [?h !! ?l] => rewrite H; simpl; reflexivity
  end.

(** Split a conjunction into its parts, and nothing else. *)
Ltac splits := repeat match goal with |- _ /\ _ => split end.

(** ** Frames: what a computation leaves alone *)

Create HintDb frame.

Section Frame.

Variable P : string -> Prop.

Lemma preserved_refl (w : world) : preserved P w w.
Proof. intros l c H. eauto. Qed.

Lemma preserved_trans (w1 w2 w3 : world) :
  preserved P w1 w2 -> preserved P w2 w3 -> preserved P w1 w3.
Proof.
  intros H12 H23 l c H.
  destruct (H12 l c H) as (c2 & H2 & E2).
  destruct (H23 l c2 H2) as (c3 & H3 & E3).
  exists c3. split; [assumption |]. intros key Hk. rewrite E3, E2; auto.
Qed.

Lemma preserved_same_heap (w w' : world) : heap w' = heap w -> preserved P w w'.
Proof. intros E l c H. rewrite E. eauto. Qed.

Lemma preserved_alloc (w : world) (c : cell) :
  preserved P w (with_heap (heap w ++ [c]) w).
Proof. intros l c0 H. exists c0. split; [now apply lookup_app_l_Some | auto]. Qed.

Lemma preserved_alter (w : world) (f : cell -> cell) (l : nat) :
  (forall c key, P key -> lookup_prop key (c_own (f c)) = lookup_prop key (c_own c)) ->
  preserved P w (with_heap (alter f l (heap w)) w).
Proof.
  intros Hf l' c H. simpl. destruct (decide (l = l')) as [->|Hne].
  - rewrite list_lookup_alter_eq, H. simpl. eauto.
  - rewrite list_lookup_alter_ne by assumption. eauto.
Qed.

Lemma respects_ret {A} (a : A) : respects P (mret a).
Proof. intros w r w' H. inversion H. apply preserved_refl. Qed.

Lemma respects_bind {A B} (m : M A) (f : A -> M B) :
  respects P m -> (forall a, respects P (f a)) -> respects P (m ≫= f).
Proof.
  intros Hm Hf w r w'. unfold mbind, M_bind.
  destruct (m w) as [[a|e] w1] eqn:E; intros H.
  - eapply preserved_trans; [eapply Hm | eapply Hf]; eauto.
  - inversion H; subst. eapply Hm; eauto.
Qed.

Lemma respects_throw {A} (msg : string) : respects P (@throw A msg).
Proof. intros w r w' H. inversion H. apply preserved_refl. Qed.

Lemma respects_emit (e : event) : respects P (emit e).
Proof. intros w r w' H. inversion H. now apply preserved_same_heap. Qed.

Lemma respects_read {A} (f : world -> A) : respects P (read f).
Proof. intros w r w' H. inversion H. apply preserved_refl. Qed.

Lemma respects_modify (f : world -> world) :
  (forall w, preserved P w (f w)) -> respects P (modify f).
Proof. intros Hf w r w' H. inversion H. apply Hf. Qed.

Lemma respects_when (b : bool) (m : M unit) : respects P m -> respects P (when b m).
Proof. intros H. destruct b; [assumption | apply respects_ret]. Qed.

Lemma respects_forEach {A} (f : A -> M unit) (xs : list A) :
  (forall x, respects P (f x)) -> respects P (forEach f xs).
Proof.
  intros Hf. induction xs as [|x xs IH]; simpl.
  - apply respects_ret.
  - apply respects_bind; auto.
Qed.

Lemma respects_alloc (c : cell) : respects P (alloc c).
Proof. intros w r w' H. inversion H. apply preserved_alloc. Qed.

Lemma respects_get (v : value) (key : string) : respects P (get v key).
Proof.
  destruct v; simpl;
    first [apply respects_throw | apply respects_ret | apply respects_read].
Qed.

Lemma respects_get_opt (v : value) (key : string) : respects P (get_opt v key).
Proof. destruct v; unfold get_opt; first [apply respects_ret | apply respects_get]. Qed.

Lemma respects_set (v : value) (key : string) (x : value) :
  ~ P key -> respects P (set v key x).
Proof.
  intros Hk. destruct v; simpl;
    try first [apply respects_throw | apply respects_ret].
  apply respects_modify. intros w. apply preserved_alter.
  intros c key' Hk'. simpl. apply lookup_set_other. congruence.
Qed.

Lemma respects_elements (v : value) : respects P (elements v).
Proof.
  destruct v; simpl; try apply respects_throw.
  intros w r w' H. destruct (heap w !! l) as [[[] ?]|]; inversion H; apply preserved_refl.
Qed.

Lemma respects_update_elements (v : value) (f : list value -> list value) :
  respects P (update_elements v f).
Proof.
  unfold update_elements. apply respects_bind; [apply respects_elements |].
  intros xs. destruct v; try apply respects_ret.
  apply respects_modify. intros w. apply preserved_alter.
  intros c key _. unfold store_elements. now destruct (c_shape c).
Qed.

Lemma respects_apply_function (f : value) (args : list value) :
  respects P (apply_function f args).
Proof.
  destruct f; simpl; try apply respects_throw.
  intros w r w' H. destruct (heap w !! l) as [[[] ?]|]; inversion H;
    first [apply preserved_refl | now apply preserved_same_heap].
Qed.

Lemma respects_is_Color (v : value) : respects P (is_Color v).
Proof. destruct v; simpl; first [apply respects_ret | apply respects_read]. Qed.

Lemma respects_is_array (v : value) : respects P (is_array v).
Proof. destruct v; simpl; first [apply respects_ret | apply respects_read]. Qed.

Lemma respects_is_Object3D (v : value) : respects P (is_Object3D v).
Proof. destruct v; simpl; first [apply respects_ret | apply respects_read]. Qed.

Lemma respects_constructor_name (v : value) : respects P (constructor_name v).
Proof.
  destruct v; simpl;
    first [apply respects_throw | apply respects_ret | apply respects_read].
Qed.

Hint Resolve respects_ret respects_throw respects_emit respects_read respects_alloc
  respects_get respects_get_opt respects_elements respects_update_elements
  respects_apply_function respects_is_Color respects_is_array respects_is_Object3D
  respects_constructor_name preserved_same_heap : frame.

(** Decompose a computation along its binds and branches. *)
Ltac frame :=
  repeat first
    [ solve [auto with frame]
    | match goal with
      | |- respects _ (_ ≫= _) => apply respects_bind; [| intros ?]
      | |- respects _ (when _ _) => apply respects_when
      | |- respects _ (forEach _ _) => apply respects_forEach; intros ?
      | |- respects _ (if ?b then _ else _) => destruct b
      | |- respects _ (match ?x with _ => _ end) => destruct x
      end ].

Lemma respects_hosts (f : world -> host) :
  respects P (modify (fun w => with_hosts (f w) w)).
Proof. apply respects_modify. intros w. now apply preserved_same_heap. Qed.

Hypothesis parent_free : ~ P "parent".

Lemma respects_dispatch_logged (object : value) (type : string) :
  respects P (dispatch_logged object type).
Proof. unfold dispatch_logged. frame. Qed.

Lemma respects_Object3D_remove (this object : value) :
  respects P (Object3D_remove this object).
Proof.
  unfold Object3D_remove. frame;
    first [now apply respects_set | apply respects_dispatch_logged].
Qed.

Lemma respects_native_leaf (m : string) (this : value) (args : list value) :
  respects P (native_leaf m this args).
Proof.
  unfold native_leaf, setAnimationLoop, forceContextLoss, addEventListener,
    removeEventListener.
  frame; first [apply respects_Object3D_remove | apply respects_hosts].
Qed.

Lemma respects_call_leaf (f this : value) (args : list value) :
  respects P (call_leaf f this args).
Proof.
  destruct f; unfold call_leaf;
    first [apply respects_native_leaf | apply respects_apply_function].
Qed.

Lemma respects_Object3D_add (this object : value) :
  respects P (Object3D_add this object).
Proof.
  unfold Object3D_add. frame;
    first [apply respects_call_leaf | now apply respects_set
          | apply respects_dispatch_logged].
Qed.

Lemma respects_native (m : string) (this : value) (args : list value) :
  respects P (native m this args).
Proof.
  unfold native. frame;
    first [apply respects_Object3D_add | apply respects_native_leaf].
Qed.

Lemma respects_call (f this : value) (args : list value) :
  respects P (call f this args).
Proof.
  destruct f; unfold call;
    first [apply respects_native | apply respects_apply_function].
Qed.

Lemma respects_invoke (recv : value) (name : string) (args : list value) :
  respects P (invoke recv name args).
Proof. unfold invoke. frame. apply respects_call. Qed.

Lemma respects_apply_entry (instance : value) (entry : string * value) :
  ~ P (fst entry) -> respects P (apply_entry instance entry).
Proof.
  destruct entry as [key v]. simpl. intros Hk.
  frame; first [apply respects_invoke | now apply respects_set].
Qed.

End Frame.

(** ** Property Applier: identical props *)

Lemma identical_keys_same (p : props) :
  self_identical p -> identical_keys p p = keys p.
Proof.
  intros Hp. unfold identical_keys. apply filter_all. intros key Hkey.
  destruct (lookup_prop_In key p Hkey) as (v & Hv & Hin).
  unfold prop. rewrite Hv. apply strict_eq_refl. eapply Hp; eauto.
Qed.

Lemma pruneKeys_listed (p : props) (ks : list string) :
  (forall key, In key (keys p) -> In key ks) -> pruneKeys p ks = [].
Proof.
  intros H. unfold pruneKeys. apply filter_none. intros [k v] Hin. simpl.
  apply Bool.negb_false_iff. apply existsb_exists. exists k. split.
  - apply H. unfold keys. apply in_map_iff. exists (k, v). auto.
  - apply String.eqb_refl.
Qed.

(** C9, as the code has it: [applyProps(instance, p, p)] calls nothing and
    assigns no field when no value of [p] is NaN.  For props [p] free of NaN
    (the one value not identical to itself), the call returns normally, no
    method call leaves the module (no [copy], [set], [setScalar] or colour
    conversion, all of which the trace would show), and every object keeps
    its shape and every property other than the out-of-band [__handlers]. *)
Theorem applyProps_same_props_noop (l : loc) (p : props) (w : world) :
  self_identical p ->
  exists w',
    applyProps (VRef l) p p w = (Ok tt, w') /\
    trace w' = trace w /\
    hosts w' = hosts w /\
    forall l' c, heap w !! l' = Some c ->
      exists c', heap w' !! l' = Some c' /\
                 c_shape c' = c_shape c /\
                 forall key, key <> "__handlers" ->
                   lookup_prop key (c_own c') = lookup_prop key (c_own c).
Proof.
  intros Hp. unfold applyProps.
  rewrite (identical_keys_same p Hp).
  unfold mbind at 1, M_bind, read.
  rewrite pruneKeys_listed by (intros key Hk; apply in_or_app; now left).
  simpl (when _ (forEach _ [])).
  unfold mbind, M_bind, mret, M_ret.
  destruct (handler_keys (heap w) p) as [|k ks] eqn:Hk.
  - exists w. simpl. repeat split; eauto.
  - eexists. split; [reflexivity |]. simpl.
    repeat split. intros l' c Hl'.
    assert (Hl : (heap w ++ [obj plain (collect (k :: ks) p)]) !! l' = Some c)
      by (now apply lookup_app_l_Some).
    destruct (alter_write_lookup _ l l' "__handlers" (VRef (length (heap w))) c Hl)
      as (c' & Hc' & Hs & Ho).
    exists c'. repeat split; try assumption.
    intros key Hne. apply Ho. congruence.
Qed.

(** The theorem at the props of the article's Box component. *)
Lemma applyProps_same_props_noop_witness :
  exists w',
    applyProps Scenario.meshA
      [("scale", VNum 1); ("onClick", Scenario.onClick)]
      [("scale", VNum 1); ("onClick", Scenario.onClick)] Scenario.stage = (Ok tt, w')
    /\ trace w' = trace Scenario.stage.
Proof.
  destruct (applyProps_same_props_noop 2
              [("scale", VNum 1); ("onClick", Scenario.onClick)] Scenario.stage)
    as (w' & H & Ht & _).
  - intros key v [H|[H|[]]]; inversion H; discriminate.
  - exists w'. split; assumption.
Defined.

(** C9 as stated fails for a prop whose value is NaN: [NaN === NaN] is
    false, so the key is not skipped as identical although the two props are
    the same, and the call returns normally.  On the camera of the mounted
    surface [scale={NaN}] calls [scale.setScalar(NaN)]; on mesh A
    [renderOrder={NaN}] assigns the field. *)
Lemma applyProps_same_props_counterexample :
  ~ (forall (l : loc) (p : props) (w w' : world),
       applyProps (VRef l) p p w = (Ok tt, w') -> trace w' = trace w)
  /\
  ~ (forall (l : loc) (p : props) (w w' : world),
       applyProps (VRef l) p p w = (Ok tt, w') ->
       forall key, key <> "__handlers" -> field w' (VRef l) key = field w (VRef l) key).
Proof.
  split; intros H.
  - pose (after := Scenario.run (applyProps (VRef 28) [("scale", VNaN)] [("scale", VNaN)])
                                Scenario.mounted).
    assert (E : applyProps (VRef 28) [("scale", VNaN)] [("scale", VNaN)] Scenario.mounted
                = (Ok tt, after)) by (vm_compute; reflexivity).
    apply H in E. apply (f_equal (@List.length _)) in E. vm_compute in E. discriminate.
  - pose (after := Scenario.run (applyProps Scenario.meshA [("renderOrder", VNaN)]
                                            [("renderOrder", VNaN)]) Scenario.stage).
    assert (E : applyProps (VRef 2) [("renderOrder", VNaN)] [("renderOrder", VNaN)]
                  Scenario.stage = (Ok tt, after)) by (vm_compute; reflexivity).
    apply (fun H' => H 2 _ _ _ H' "renderOrder") in E; [| discriminate].
    vm_compute in E. discriminate.
Qed.

(** ** Property Applier: the handler mapping *)

Lemma handler_keys_spec (h : list cell) (p : props) (key : string) :
  In key (handler_keys h p) <-> is_handler h p key = true.
Proof.
  unfold handler_keys, is_handler. rewrite filter_In. split; [tauto |].
  intros H. split; [| assumption].
  destruct (in_dec string_dec key (keys p)) as [Hin|Hout]; [assumption |].
  rewrite (prop_missing p key Hout) in H. discriminate.
Qed.



Lemma pruneKeys_keys (p : props) (ks : list string) (key : string) :
  In key (keys (pruneKeys p ks)) -> In key (keys p).
Proof.
  unfold keys, pruneKeys. rewrite !in_map_iff. intros ([k v] & E & H).
  apply filter_In in H. exists (k, v). tauto.
Qed.

(** The mutation loop of [applyProps] keeps every object alive, and keeps
    every property that [newProps] does not name. *)
Lemma respects_mutation (P : string -> Prop) (instance : value) (ps : props) (b : bool) :
  ~ P "parent" -> (forall key, In key (keys ps) -> ~ P key) ->
  respects P (when b (forEach (apply_entry instance) ps)).
Proof.
  intros Hparent Hkeys. apply respects_when.
  induction ps as [|[k v] ps IH]; cbn [forEach].
  - apply respects_ret.
  - apply respects_bind.
    + apply (respects_apply_entry P Hparent instance (k, v)). apply Hkeys. now left.
    + intros _. apply IH. intros key Hk. apply Hkeys. now right.
Qed.




(** ** Scene Mutator: absent children *)

(** C10: with a [null] or [undefined] child, [appendChild], [removeChild] and
    [insertBefore] return at once: no error, and the world (the parent's
    children and slots with it) is what it was. *)
Theorem mutators_ignore_absent_child
    (parentInstance beforeChild : value) (w : world) :
  appendChild parentInstance VNull w = (Ok tt, w) /\
  appendChild parentInstance VUndefined w = (Ok tt, w) /\
  removeChild parentInstance VNull w = (Ok tt, w) /\
  removeChild parentInstance VUndefined w = (Ok tt, w) /\
  insertBefore parentInstance VNull beforeChild w = (Ok tt, w) /\
  insertBefore parentInstance VUndefined beforeChild w = (Ok tt, w).
Proof. repeat split. Qed.

(** ** Scene Mutator: append then remove *)

Lemma indexOf_fresh (v : value) (xs : list value) :
  v <> VNaN -> ~ In v xs -> indexOf v (xs ++ [v]) = Z.of_nat (length xs).
Proof.
  intros Hv. induction xs as [|y ys IH]; intros Hin.
  - simpl. now rewrite strict_eq_refl.
  - cbn [app indexOf length].
    destruct (strict_eq y v) eqn:E.
    + apply strict_eq_true in E. subst y. exfalso. apply Hin. now left.
    + rewrite IH by (intros H; apply Hin; now right).
      destruct (Z.ltb_spec (Z.of_nat (length ys)) 0); lia.
Qed.

Lemma position_fresh (v : value) (xs : list value) :
  v <> VNaN -> ~ In v xs -> position v (xs ++ [v]) = Some (length xs).
Proof.
  intros Hv Hin. unfold position. rewrite indexOf_fresh by assumption.
  destruct (Z.ltb_spec (Z.of_nat (length xs)) 0); [lia |]. now rewrite Nat2Z.id.
Qed.

Lemma splice1_last {A} (xs : list A) (v : A) : splice1 (length xs) (xs ++ [v]) = xs.
Proof.
  unfold splice1. rewrite take_app_length.
  rewrite drop_ge by (rewrite length_app; simpl; lia). apply app_nil_r.
Qed.

(** [Object3D.remove] of a child found among the children. *)
Lemma Object3D_remove_found (w : world) (p c a i : nat) (pc cc ca : cell) (ys : list value) :
  heap w !! p = Some pc -> heap w !! c = Some cc -> heap w !! a = Some ca ->
  a <> c ->
  c_shape ca = SArray ys ->
  read_cell pc "children" = VRef a ->
  position (VRef c) ys = Some i ->
  read_cell cc "dispatchEvent" = VNative "dispatchEvent" ->
  exists w1, Object3D_remove (VRef p) (VRef c) w = (Ok tt, w1) /\
    heap w1 = alter (store_elements (splice1 i ys)) a
                (alter (write_cell "parent" VNull) c (heap w)) /\
    hovered w1 = hovered w /\ roots w1 = roots w /\ hosts w1 = hosts w.
Proof.
  intros Hp Hc Ha Hac Sa Hch Hpos Hdisp. unfold Object3D_remove.
  erewrite bind_ok by (eapply run_get; eauto). rewrite Hch.
  erewrite bind_ok by (eapply run_elements; eauto). rewrite Hpos.
  erewrite bind_ok by reflexivity.
  erewrite bind_ok by (eapply run_update_elements; [lookup | eassumption]).
  erewrite run_dispatch_logged; [| lookup |].
  - eexists. split; [reflexivity |]. simpl. auto.
  - rewrite read_write_other by discriminate. assumption.
Qed.

(** The [for ... in] loop of [dispose_element]: no property name has a
    [dispose], so nothing is disposed and every own property is deleted. *)
Lemma dispose_properties (c : nat) (ks : list string) (w : world) :
  exists w1,
    forEach (fun property : string =>
      dispose ← get (VStr property) "dispose";
      when (truthy dispose) (invoke (VStr property) "dispose" []) ;;
      delete_ (VRef c) property) ks w = (Ok tt, w1) /\
    (forall l, l <> c -> heap w1 !! l = heap w !! l) /\
    trace w1 = trace w /\
    hovered w1 = hovered w /\ roots w1 = roots w /\ hosts w1 = hosts w.
Proof.
  revert w. induction ks as [|k ks IH]; intros w.
  - exists w. repeat split.
  - cbn [forEach].
    erewrite bind_ok by reflexivity.
    destruct (IH (with_heap (alter (erase_cell k) c (heap w)) w))
      as (w1 & Hrun & Hheap & Htrace & Hrest).
    exists w1. split; [exact Hrun |]. simpl in *.
    destruct Hrest as (Hh & Hr & Hs). repeat split; try assumption.
    intros l Hl. rewrite Hheap by assumption.
    now rewrite list_lookup_alter_ne by congruence.
Qed.

Lemma dispose_element_frame (w : world) (c : nat) (cc : cell) :
  heap w !! c = Some cc -> disposal cc ->
  exists w1, dispose_element (VRef c) w = (Ok tt, w1) /\
    (forall l, l <> c -> heap w1 !! l = heap w !! l) /\
    hovered w1 = hovered w /\ roots w1 = roots w /\ hosts w1 = hosts w.
Proof.
  intros Hc Hd. unfold dispose_element.
  erewrite bind_ok by (eapply run_get; eauto).
  destruct (negb (strict_eq (read_cell cc "type") (VStr "Scene"))).
  - erewrite bind_ok by (eapply run_get; eauto).
    destruct Hd as [Hd|Hd]; rewrite Hd.
    + erewrite bind_ok by reflexivity.
      unfold enumerate. erewrite bind_ok by reflexivity.
      match goal with
      | |- context [forEach _ ?ks ?w0] =>
          destruct (dispose_properties c ks w0) as (w1 & Hrun & Hheap & _ & Hrest)
      end.
      exists w1. auto.
    + erewrite bind_ok.
      2:{ cbn [truthy when]. unfold invoke.
          erewrite bind_ok by (eapply run_get; eauto). rewrite Hd. reflexivity. }
      unfold enumerate. erewrite bind_ok by reflexivity.
      match goal with
      | |- context [forEach _ ?ks ?w0] =>
          destruct (dispose_properties c ks w0) as (w1 & Hrun & Hheap & _ & Hrest)
      end.
      exists w1. split; [exact Hrun |]. split; [exact Hheap | exact Hrest].
  - exists w. repeat split.
Qed.

Lemma disposal_write (key : string) (x : value) (c : cell) :
  key <> "dispose" -> disposal c -> disposal (write_cell key x c).
Proof. intros Hk Hd. unfold disposal. now rewrite read_write_other. Qed.

Lemma indexOf_missing (v : value) (xs : list value) :
  ~ In v xs -> indexOf v xs = (-1)%Z.
Proof.
  induction xs as [|y ys IH]; intros Hin; [reflexivity |].
  cbn [indexOf]. destruct (strict_eq y v) eqn:E.
  - apply strict_eq_true in E. subst y. exfalso. apply Hin. now left.
  - rewrite IH by (intros H; apply Hin; now right). reflexivity.
Qed.

Lemma position_missing (v : value) (xs : list value) :
  ~ In v xs -> position v xs = None.
Proof. intros Hin. unfold position. now rewrite indexOf_missing. Qed.

Lemma attaches_unattached (w : world) (p c : nat) (pc cc cc' : cell) :
  heap w !! p = Some pc -> heap w !! c = Some cc' ->
  read_cell cc' "attach" = read_cell cc "attach" ->
  unattached pc cc ->
  attaches (VRef p) (VRef c) w = (Ok false, w).
Proof.
  intros Hp Hc Hat Hun. unfold attaches.
  erewrite bind_ok by (eapply run_get; eauto). rewrite Hat.
  destruct (truthy (read_cell cc "attach")) eqn:T; [| reflexivity].
  destruct Hun as [Hun|Hun]; [congruence |].
  erewrite bind_ok by (eapply run_get; eauto). now rewrite Hun.
Qed.

(** [Object3D.remove] of an object that is not among the children. *)
Lemma Object3D_remove_missing (w : world) (q c aq : nat) (qc caq : cell) (ys : list value) :
  heap w !! q = Some qc -> heap w !! aq = Some caq -> c_shape caq = SArray ys ->
  read_cell qc "children" = VRef aq ->
  position (VRef c) ys = None ->
  Object3D_remove (VRef q) (VRef c) w = (Ok tt, w).
Proof.
  intros Hq Ha Sa Hch Hpos. unfold Object3D_remove.
  erewrite bind_ok by (eapply run_get; eauto). rewrite Hch.
  erewrite bind_ok by (eapply run_elements; eauto). now rewrite Hpos.
Qed.

(** [parent.remove(object)], as [Object3D.add] calls it on the parent the
    object has: only the object's [parent] and the old parent's children
    can change. *)
Lemma leave_parent (w : world) (q c aq : nat) (qc cc caq : cell) (kc : klass)
    (ys : list value) :
  heap w !! q = Some qc -> heap w !! c = Some cc ->
  heap w !! aq = Some caq -> c_shape caq = SArray ys ->
  c_shape cc = SObject kc ->
  read_cell qc "remove" = VNative "remove" ->
  read_cell qc "children" = VRef aq ->
  read_cell cc "dispatchEvent" = VNative "dispatchEvent" ->
  exists w1 cc1,
    (remove ← get (VRef q) "remove"; call_leaf remove (VRef q) [VRef c] ;; mret tt) w
    = (Ok tt, w1) /\
    heap w1 !! c = Some cc1 /\ c_shape cc1 = c_shape cc /\
    (forall key, key <> "parent" -> read_cell cc1 key = read_cell cc key) /\
    (forall l, l <> c -> l <> aq -> heap w1 !! l = heap w !! l) /\
    (~ In (VRef c) ys -> heap w1 !! aq = Some caq).
Proof.
  intros Hq Hc Ha Sa Sc Hrem Hch Hdisp.
  assert (Hac : aq <> c).
  { intros E. subst aq. rewrite Hc in Ha. inversion Ha. subst caq. congruence. }
  erewrite bind_ok by (eapply run_get; eauto). rewrite Hrem.
  unfold call_leaf, native_leaf. cbn [String.eqb Ascii.eqb Bool.eqb arg nth].
  destruct (position (VRef c) ys) as [i|] eqn:Hpos.
  - destruct (Object3D_remove_found
                (with_trace (trace w ++ [EvCall (VRef q) "remove" [VRef c]]) w)
                q c aq i qc cc caq ys) as (w1 & Hrun & Hheap & _); try assumption.
    simpl in Hheap.
    exists w1, (write_cell "parent" VNull cc). split; [| split; [| split; [| split; [| split]]]].
    + erewrite bind_ok.
      2:{ erewrite bind_ok by reflexivity. erewrite bind_ok by exact Hrun. reflexivity. }
      reflexivity.
    + rewrite Hheap. lookup.
    + reflexivity.
    + intros key Hk. now apply read_write_other.
    + intros l Hlc Hla. rewrite Hheap. now rewrite !list_lookup_alter_ne by congruence.
    + intros Hin. apply position_missing in Hin. congruence.
  - exists (with_trace (trace w ++ [EvCall (VRef q) "remove" [VRef c]]) w), cc.
    split; [| split; [| split; [| split; [| split]]]]; try reflexivity; try assumption.
    + erewrite bind_ok.
      2:{ erewrite bind_ok by reflexivity.
          erewrite bind_ok by (eapply Object3D_remove_missing; eauto). reflexivity. }
      reflexivity.
    + intros _. assumption.
Qed.

(** [Object3D.add] of a three.js object that is not yet among the children,
    whatever parent it has. *)
Lemma Object3D_add_parented (w : world) (p c a : nat) (pc cc ca : cell)
    (kp kc : klass) (xs : list value) :
  p <> c ->
  heap w !! p = Some pc -> heap w !! c = Some cc -> heap w !! a = Some ca ->
  c_shape pc = SObject kp -> c_shape cc = SObject kc -> c_shape ca = SArray xs ->
  k_isObject3D kc = true ->
  read_cell pc "children" = VRef a ->
  read_cell cc "dispatchEvent" = VNative "dispatchEvent" ->
  parented (heap w) cc ->
  ~ In (VRef c) xs ->
  exists w1 cc1,
    Object3D_add (VRef p) (VRef c) w = (Ok tt, w1) /\
    heap w1 !! p = Some pc /\
    heap w1 !! a = Some (store_elements (xs ++ [VRef c]) ca) /\
    heap w1 !! c = Some cc1 /\
    forall key, key <> "parent" -> read_cell cc1 key = read_cell cc key.
Proof.
  intros Hpc Hp Hc Ha Sp Sc Sa K Hch Hdisp Hpar Hfresh.
  assert (Hac : a <> c).
  { intros E. subst a. rewrite Hc in Ha. inversion Ha. subst ca. congruence. }
  assert (Hap : a <> p).
  { intros E. subst a. rewrite Hp in Ha. inversion Ha. subst ca. congruence. }
  assert (E : strict_eq (VRef c) (VRef p) = false).
  { simpl. apply Nat.eqb_neq. congruence. }
  (* the tail of [add], from [object.parent = this] on *)
  assert (Htail : forall (w0 : world) (cc0 : cell),
            heap w0 !! p = Some pc -> heap w0 !! c = Some cc0 -> heap w0 !! a = Some ca ->
            (forall key, key <> "parent" -> read_cell cc0 key = read_cell cc key) ->
            exists w1 cc1,
              (set (VRef c) "parent" (VRef p) ;;
               children ← get (VRef p) "children";
               update_elements children (fun xs => xs ++ [VRef c]) ;;
               dispatch_logged (VRef c) "added") w0 = (Ok tt, w1) /\
              heap w1 !! p = Some pc /\
              heap w1 !! a = Some (store_elements (xs ++ [VRef c]) ca) /\
              heap w1 !! c = Some cc1 /\
              forall key, key <> "parent" -> read_cell cc1 key = read_cell cc key).
  { intros w0 cc0 Hp0 Hc0 Ha0 Hsame.
    exists (with_trace (trace w0 ++ [EvCall (VRef c) "dispatchEvent" [VStr "added"]])
              (with_heap (alter (store_elements (xs ++ [VRef c])) a
                            (alter (write_cell "parent" (VRef p)) c (heap w0))) w0)),
           (write_cell "parent" (VRef p) cc0).
    split; [| split; [| split; [| split]]].
    - erewrite bind_ok by reflexivity.
      erewrite bind_ok by (eapply run_get; lookup).
      rewrite Hch.
      erewrite bind_ok by (eapply run_update_elements; [lookup | eassumption]).
      erewrite run_dispatch_logged; [reflexivity | lookup |].
      rewrite read_write_other by discriminate. rewrite Hsame by discriminate. assumption.
    - lookup.
    - lookup.
    - lookup.
    - intros key Hk. rewrite read_write_other by congruence. now apply Hsame. }
  unfold Object3D_add. rewrite E.
  erewrite bind_ok by (eapply run_is_Object3D; eauto). rewrite K. simpl (truthy _ && true).
  cbv iota.
  erewrite bind_ok by (eapply run_get; eauto).
  destruct Hpar as [Hnull|(q & aq & qc & caq & ys & Hq & Hqc & Hrem & Hqch & Haq & Saq)].
  - rewrite Hnull. simpl (negb _). cbv iota.
    erewrite bind_ok by reflexivity.
    apply (Htail w cc); auto.
  - rewrite Hq. simpl (negb _). cbv iota.
    destruct (leave_parent w q c aq qc cc caq kc ys) as (w0 & cc0 & Hrun & Hc0 & _ & Hsame & Hframe & Hkept);
      try assumption.
    assert (Hpaq : p <> aq).
    { intros Eq. subst aq. rewrite Hp in Haq. inversion Haq. subst caq. congruence. }
    erewrite bind_ok by exact Hrun.
    apply (Htail w0 cc0); auto.
    + rewrite Hframe by congruence. assumption.
    + destruct (decide (a = aq)) as [->|Hne].
      * rewrite Haq in Ha. inversion Ha. subst caq.
        assert (ys = xs) by congruence. subst ys. now apply Hkept.
      * rewrite Hframe by congruence. assumption.
Qed.

(** [Object3D.add] of anything that is not a three.js object: an error on
    the console, nothing else. *)
Lemma Object3D_add_foreign (w : world) (p c : nat) (cc : cell) (kc : klass) :
  p <> c -> heap w !! c = Some cc -> c_shape cc = SObject kc ->
  k_isObject3D kc = false ->
  Object3D_add (VRef p) (VRef c) w
  = (Ok tt, with_trace (trace w ++ [EvConsoleError
       "THREE.Object3D.add: object not an instance of THREE.Object3D."]) w).
Proof.
  intros Hpc Hc Sc K. unfold Object3D_add.
  assert (E : strict_eq (VRef c) (VRef p) = false).
  { simpl. apply Nat.eqb_neq. congruence. }
  rewrite E.
  erewrite bind_ok by (eapply run_is_Object3D; eauto). rewrite K. reflexivity.
Qed.

(** The spatial half of the round trip. *)
Lemma append_remove_spatial (w : world) (p c a : nat) (pc cc ca : cell)
    (kp kc : klass) (xs : list value) :
  p <> c ->
  heap w !! p = Some pc -> heap w !! c = Some cc -> heap w !! a = Some ca ->
  c_shape pc = SObject kp -> c_shape cc = SObject kc -> c_shape ca = SArray xs ->
  read_cell pc "add" = VNative "add" ->
  read_cell pc "remove" = VNative "remove" ->
  read_cell pc "children" = VRef a ->
  unattached pc cc ->
  (k_isObject3D kc = true ->
   read_cell cc "dispatchEvent" = VNative "dispatchEvent" /\ parented (heap w) cc) ->
  disposal cc ->
  ~ In (VRef c) xs ->
  exists w',
    (appendChild (VRef p) (VRef c) ;; removeChild (VRef p) (VRef c)) w = (Ok tt, w') /\
    heap w' !! p = Some pc /\ heap w' !! a = Some ca.
Proof.
  intros Hpc Hp Hc Ha Sp Sc Sa Hadd Hrem Hch Hun Hthree Hdis Hfresh.
  assert (Hac : a <> c).
  { intros E. subst a. rewrite Hc in Ha. inversion Ha. subst ca. congruence. }
  assert (Hap : a <> p).
  { intros E. subst a. rewrite Hp in Ha. inversion Ha. subst ca. congruence. }
  destruct (k_isObject3D kc) eqn:K.
  - (* a three.js object: added, then found and removed *)
    destruct (Hthree eq_refl) as [Hdisp Hpar].
    destruct (Object3D_add_parented
                (with_trace (trace w ++ [EvCall (VRef p) "add" [VRef c]]) w)
                p c a pc cc ca kp kc xs)
      as (w1 & cc1 & Hadd1 & Hp1 & Ha1 & Hc1 & Hsame); try assumption.
    assert (Happend : appendChild (VRef p) (VRef c) w = (Ok tt, w1)).
    { unfold appendChild. cbn [truthy negb].
      erewrite bind_ok by (eapply attaches_unattached; eauto).
      cbv iota. unfold invoke.
      erewrite bind_ok by (eapply run_get; eauto). rewrite Hadd.
      unfold call, native. cbn [String.eqb Ascii.eqb Bool.eqb].
      erewrite bind_ok.
      2:{ erewrite bind_ok by reflexivity. erewrite bind_ok by exact Hadd1. reflexivity. }
      reflexivity. }
    destruct (Object3D_remove_found
                (with_trace (trace w1 ++ [EvCall (VRef p) "remove" [VRef c]]) w1)
                p c a (length xs) pc cc1
                (store_elements (xs ++ [VRef c]) ca) (xs ++ [VRef c]))
      as (w2 & Hrem2 & Hheap2 & _); try assumption.
    { eapply shape_store_elements; eauto. }
    { apply position_fresh; [discriminate | assumption]. }
    { now rewrite Hsame by discriminate. }
    simpl in Hheap2.
    assert (Hc2 : heap w2 !! c = Some (write_cell "parent" VNull cc1))
      by (rewrite Hheap2; lookup).
    destruct (dispose_element_frame w2 c _ Hc2) as (w3 & Hdis3 & Hheap3 & _).
    { apply disposal_write; [discriminate |]. unfold disposal.
      now rewrite Hsame by discriminate. }
    exists w3. split; [| split].
    + erewrite bind_ok by exact Happend.
      unfold removeChild. cbn [truthy negb].
      erewrite bind_ok
        by (apply (attaches_unattached w1 p c pc cc cc1 Hp1 Hc1
                     (Hsame "attach" ltac:(discriminate)) Hun)).
      cbv iota.
      erewrite bind_ok.
      2:{ unfold invoke. erewrite bind_ok by (eapply run_get; eauto). rewrite Hrem.
          unfold call, native, native_leaf. cbn [String.eqb Ascii.eqb Bool.eqb].
          erewrite bind_ok.
          2:{ erewrite bind_ok by reflexivity.
              erewrite bind_ok by (cbn [arg nth]; exact Hrem2). reflexivity. }
          reflexivity. }
      exact Hdis3.
    + rewrite Hheap3 by congruence. rewrite Hheap2.
      rewrite list_lookup_alter_ne by congruence.
      now rewrite list_lookup_alter_ne by congruence.
    + rewrite Hheap3 by congruence. rewrite Hheap2.
      rewrite list_lookup_alter_eq, list_lookup_alter_ne, Ha1 by congruence. simpl.
      rewrite splice1_last. f_equal. now apply store_elements_restore.
  - (* anything else: refused by [add], not found by [remove] *)
    set (w1 := with_trace
                 ((trace w ++ [EvCall (VRef p) "add" [VRef c]]) ++
                  [EvConsoleError
                     "THREE.Object3D.add: object not an instance of THREE.Object3D."]) w).
    assert (Happend : appendChild (VRef p) (VRef c) w = (Ok tt, w1)).
    { unfold appendChild. cbn [truthy negb].
      erewrite bind_ok by (eapply attaches_unattached; eauto).
      cbv iota. unfold invoke.
      erewrite bind_ok by (eapply run_get; eauto). rewrite Hadd.
      unfold call, native. cbn [String.eqb Ascii.eqb Bool.eqb].
      erewrite bind_ok.
      2:{ erewrite bind_ok by reflexivity.
          erewrite bind_ok by (cbn [arg nth]; eapply Object3D_add_foreign; eauto).
          reflexivity. }
      reflexivity. }
    set (w2 := with_trace (trace w1 ++ [EvCall (VRef p) "remove" [VRef c]]) w1).
    assert (Hc2 : heap w2 !! c = Some cc) by exact Hc.
    destruct (dispose_element_frame w2 c cc Hc2 Hdis) as (w3 & Hdis3 & Hheap3 & _).
    exists w3. split; [| split].
    + erewrite bind_ok by exact Happend.
      unfold removeChild. cbn [truthy negb].
      erewrite bind_ok by (eapply attaches_unattached; eauto).
      cbv iota.
      erewrite bind_ok.
      2:{ unfold invoke. erewrite bind_ok by (eapply run_get; eauto). rewrite Hrem.
          unfold call, native, native_leaf. cbn [String.eqb Ascii.eqb Bool.eqb].
          erewrite bind_ok.
          2:{ erewrite bind_ok by reflexivity.
              erewrite bind_ok.
              2:{ cbn [arg nth].
                  apply (Object3D_remove_missing w2 p c a pc ca xs Hp Ha Sa Hch).
                  now apply position_missing. }
              reflexivity. }
          reflexivity. }
      exact Hdis3.
    + rewrite Hheap3 by congruence. exact Hp.
    + rewrite Hheap3 by congruence. exact Ha.
Qed.

(** The attached half: the slot ends up [null]. *)
Lemma append_remove_attached (w : world) (p c : nat) (pc cc : cell) (s : string) :
  p <> c ->
  heap w !! p = Some pc -> heap w !! c = Some cc ->
  truthy (read_cell cc "attach") = true ->
  to_key (read_cell cc "attach") = s ->
  read_cell pc s <> VUndefined ->
  disposal cc ->
  exists w',
    (appendChild (VRef p) (VRef c) ;; removeChild (VRef p) (VRef c)) w = (Ok tt, w') /\
    heap w' !! p = Some (write_cell s VNull pc) /\
    forall l, l <> p -> l <> c -> heap w' !! l = heap w !! l.
Proof.
  intros Hpc Hp Hc Ts Hs Hslot Hdis.
  assert (Ds : strict_eq (read_cell pc s) VUndefined = false).
  { destruct (strict_eq (read_cell pc s) VUndefined) eqn:E; [| reflexivity].
    apply strict_eq_true in E. contradiction. }
  set (w1 := with_heap (alter (write_cell s (VRef c)) p (heap w)) w).
  assert (Happend : appendChild (VRef p) (VRef c) w = (Ok tt, w1)).
  { unfold appendChild. cbn [truthy negb]. unfold attaches.
    erewrite bind_ok.
    2:{ erewrite bind_ok by (eapply run_get; eauto). rewrite Ts.
        erewrite bind_ok by (eapply run_get; eauto). rewrite Hs, Ds. reflexivity. }
    cbn [negb]. cbv iota.
    erewrite bind_ok by (eapply run_get; eauto). rewrite Hs. reflexivity. }
  assert (Hp1 : heap w1 !! p = Some (write_cell s (VRef c) pc)) by (subst w1; lookup).
  assert (Hc1 : heap w1 !! c = Some cc) by (subst w1; lookup).
  set (w2 := with_heap (alter (write_cell s VNull) p (heap w1)) w1).
  assert (Hc2 : heap w2 !! c = Some cc) by (subst w2 w1; lookup).
  destruct (dispose_element_frame w2 c cc Hc2 Hdis) as (w3 & Hdis3 & Hheap3 & _).
  exists w3. split; [| split].
  - erewrite bind_ok by exact Happend.
    unfold removeChild. cbn [truthy negb]. unfold attaches.
    erewrite bind_ok.
    2:{ erewrite bind_ok by (eapply run_get; eauto). rewrite Ts.
        erewrite bind_ok by (eapply run_get; eauto). rewrite Hs.
        rewrite read_write_same. reflexivity. }
    cbn [strict_eq negb]. cbv iota.
    erewrite bind_ok.
    2:{ erewrite bind_ok by (eapply run_get; eauto). rewrite Hs. reflexivity. }
    exact Hdis3.
  - rewrite Hheap3 by congruence. subst w2. cbn [heap with_heap].
    rewrite list_lookup_alter_eq, Hp1. simpl. now rewrite write_cell_twice.
  - intros l Hlp Hlc. rewrite Hheap3 by assumption. subst w2 w1. cbn [heap with_heap].
    now rewrite !list_lookup_alter_ne by congruence.
Qed.

(** C6, as the code has it.  Appending then removing a child that is
    disposable the three.js way leaves the parent as follows.  A spatial
    child (one whose [attach] is unset or names no defined slot of the
    parent) that was not among the children: the parent object, and with it
    every attachment slot, and the children array are exactly what they
    were.  This holds for a child that is no three.js object ([add] refuses
    it, [remove] does not find it), and for a three.js object whether it has
    no parent yet or has another one, which [add] takes it from.  A child
    attached to a defined slot [s]: the parent is what it was except that
    slot [s] now holds [null], and every other object but the child, the
    children array included, is untouched. *)
Theorem append_then_remove (w : world) (p c : nat) (pc cc : cell) :
  p <> c ->
  heap w !! p = Some pc -> heap w !! c = Some cc ->
  disposal cc ->
  (forall (a : nat) (ca : cell) (kp kc : klass) (xs : list value),
     heap w !! a = Some ca ->
     c_shape pc = SObject kp -> c_shape cc = SObject kc -> c_shape ca = SArray xs ->
     read_cell pc "add" = VNative "add" ->
     read_cell pc "remove" = VNative "remove" ->
     read_cell pc "children" = VRef a ->
     unattached pc cc ->
     (k_isObject3D kc = true ->
      read_cell cc "dispatchEvent" = VNative "dispatchEvent" /\ parented (heap w) cc) ->
     ~ In (VRef c) xs ->
     exists w',
       (appendChild (VRef p) (VRef c) ;; removeChild (VRef p) (VRef c)) w = (Ok tt, w') /\
       heap w' !! p = Some pc /\ heap w' !! a = Some ca)
  /\
  (forall s : string,
     truthy (read_cell cc "attach") = true ->
     to_key (read_cell cc "attach") = s ->
     read_cell pc s <> VUndefined ->
     exists w',
       (appendChild (VRef p) (VRef c) ;; removeChild (VRef p) (VRef c)) w = (Ok tt, w') /\
       heap w' !! p = Some (write_cell s VNull pc) /\
       forall l, l <> p -> l <> c -> heap w' !! l = heap w !! l).
Proof.
  intros Hpc Hp Hc Hdis. split.
  - intros a ca kp kc xs Ha Sp Sc Sa Hadd Hrem Hch Hun Hthree Hfresh.
    eapply append_remove_spatial; eauto.
  - intros s Ts Hs Hslot. eapply append_remove_attached; eauto.
Qed.

(** The theorem on the stage: mesh A appended to the group and removed
    again; mesh A, already a child of the group, appended to mesh B and
    removed again; a geometry, which the group has no slot for, appended to
    the group and removed again; a new geometry attached to mesh A and
    removed again. *)
Lemma append_then_remove_witness :
  (exists w',
     (appendChild (VRef 0) (VRef 2) ;; removeChild (VRef 0) (VRef 2)) Scenario.stage
     = (Ok tt, w') /\
     heap w' !! 0 = heap Scenario.stage !! 0 /\ heap w' !! 1 = heap Scenario.stage !! 1)
  /\
  (exists w',
     (appendChild (VRef 4) (VRef 2) ;; removeChild (VRef 4) (VRef 2)) Scenario.adopted
     = (Ok tt, w') /\
     heap w' !! 4 = heap Scenario.adopted !! 4 /\ heap w' !! 5 = heap Scenario.adopted !! 5)
  /\
  (exists w',
     (appendChild (VRef 0) (VRef 8) ;; removeChild (VRef 0) (VRef 8)) Scenario.stage
     = (Ok tt, w') /\
     heap w' !! 0 = heap Scenario.stage !! 0 /\ heap w' !! 1 = heap Scenario.stage !! 1)
  /\
  (exists w',
     (appendChild (VRef 2) (VRef 8) ;; removeChild (VRef 2) (VRef 8)) Scenario.stage
     = (Ok tt, w') /\
     field w' (VRef 2) "geometry" = VNull).
Proof.
  split; [| split; [| split]].
  - destruct (append_then_remove Scenario.stage 0 2
                (Scenario.cell_at Scenario.stage 0) (Scenario.cell_at Scenario.stage 2))
      as [Hspatial _].
    + lia.
    + reflexivity.
    + reflexivity.
    + left. reflexivity.
    + apply (Hspatial 1 (arr []) Scenario.Group THREE.Mesh []); try reflexivity.
      * left. reflexivity.
      * intros _. split; [reflexivity |]. left. reflexivity.
      * intros [].
  - destruct (append_then_remove Scenario.adopted 4 2
                (Scenario.cell_at Scenario.adopted 4) (Scenario.cell_at Scenario.adopted 2))
      as [Hspatial _].
    + lia.
    + reflexivity.
    + reflexivity.
    + left. reflexivity.
    + apply (Hspatial 5 (arr []) THREE.Mesh THREE.Mesh []); try reflexivity.
      * left. reflexivity.
      * intros _. split; [reflexivity |]. right.
        exists 0, 1, (Scenario.cell_at Scenario.adopted 0), (Scenario.cell_at Scenario.adopted 1),
               [VRef 2].
        repeat split.
      * intros [].
  - destruct (append_then_remove Scenario.stage 0 8
                (Scenario.cell_at Scenario.stage 0) (Scenario.cell_at Scenario.stage 8))
      as [Hspatial _].
    + lia.
    + reflexivity.
    + reflexivity.
    + right. reflexivity.
    + apply (Hspatial 1 (arr []) Scenario.Group (THREE.BufferGeometry "SphereGeometry") []); try reflexivity.
      * right. reflexivity.
      * intros H. discriminate H.
      * intros [].
  - destruct (append_then_remove Scenario.stage 2 8
                (Scenario.cell_at Scenario.stage 2) (Scenario.cell_at Scenario.stage 8))
      as [_ Hattached].
    + lia.
    + reflexivity.
    + reflexivity.
    + right. reflexivity.
    + destruct (Hattached "geometry") as (w' & Hrun & Hparent & _).
      * reflexivity.
      * reflexivity.
      * vm_compute. discriminate.
      * exists w'. split; [assumption |].
        unfold field. rewrite (run_get w' 2 _ "geometry" Hparent). reflexivity.
Defined.

(** Why a spatial child must not be among the children already: mesh A, a
    child of the group, appended to the group and removed again is gone
    from the list it was in. *)
Lemma append_listed_child :
  array_in Scenario.adopted Scenario.group "children" = [Scenario.meshA] /\
  array_in (Scenario.run (appendChild Scenario.group Scenario.meshA ;;
                          removeChild Scenario.group Scenario.meshA) Scenario.adopted)
           Scenario.group "children" = [].
Proof. vm_compute. split; reflexivity. Qed.

(** C6 as stated fails on the attach path: mesh A is built with a geometry,
    a geometry element attached to it and removed again leaves the slot
    [null]. *)
Lemma append_then_remove_counterexample :
  ~ (forall (w : world) (parentInstance child : value) (w' : world),
       (appendChild parentInstance child ;; removeChild parentInstance child) w
       = (Ok tt, w') ->
       array_in w' parentInstance "children" = array_in w parentInstance "children" /\
       forall slot, field w' parentInstance slot = field w parentInstance slot).
Proof.
  intros H.
  pose (after := Scenario.run (appendChild Scenario.meshA Scenario.sphereGeometry ;;
                               removeChild Scenario.meshA Scenario.sphereGeometry)
                              Scenario.stage).
  assert (E : (appendChild Scenario.meshA Scenario.sphereGeometry ;;
               removeChild Scenario.meshA Scenario.sphereGeometry) Scenario.stage
              = (Ok tt, after)) by (vm_compute; reflexivity).
  apply H in E. destruct E as [_ E]. specialize (E "geometry").
  vm_compute in E. discriminate.
Qed.

(** ** Scene Mutator: disposal *)

(** C3 on a mesh that owns a geometry and a material, both disposable:
    [removeChild] returns normally, calls [dispose] on neither, and leaves
    the mesh without properties.  The loop tests [property.dispose] on the
    property's name. *)
Theorem removeChild_disposes_no_property :
  let w := Scenario.run (appendChild Scenario.group Scenario.meshA) Scenario.stage in
  field w Scenario.meshA "geometry" = Scenario.boxGeometry /\
  field w Scenario.meshA "material" = Scenario.material /\
  truthy (field w Scenario.boxGeometry "dispose") = true /\
  truthy (field w Scenario.material "dispose") = true /\
  fst (removeChild Scenario.group Scenario.meshA w) = Ok tt /\
  List.filter (fun e => disposes Scenario.boxGeometry e || disposes Scenario.material e)
              (emitted (removeChild Scenario.group Scenario.meshA) w) = [] /\
  field (Scenario.run (removeChild Scenario.group Scenario.meshA) w)
        Scenario.meshA "geometry" = VUndefined.
Proof. vm_compute. splits; reflexivity. Qed.

(** Whatever the child owns, the only [dispose] that [dispose_element] can
    call is the child's own: no sub-resource is ever released. *)
Lemma dispose_element_calls (w : world) (c : nat) (cc : cell) :
  heap w !! c = Some cc -> disposal cc ->
  forall e, In e (emitted (dispose_element (VRef c)) w) ->
    e = EvCall (VRef c) "dispose" [].
Proof.
  intros Hc Hd e. unfold emitted, dispose_element.
  erewrite bind_ok by (eapply run_get; eauto).
  destruct (negb (strict_eq (read_cell cc "type") (VStr "Scene"))).
  - erewrite bind_ok by (eapply run_get; eauto).
    destruct Hd as [Hd|Hd]; rewrite Hd.
    + erewrite bind_ok by reflexivity.
      unfold enumerate. erewrite bind_ok by reflexivity.
      match goal with
      | |- context [forEach _ ?ks ?w0] =>
          destruct (dispose_properties c ks w0) as (w1 & Hrun & _ & Htrace & _)
      end.
      rewrite Hrun. cbn [snd]. rewrite Htrace. rewrite drop_all. intros [].
    + erewrite bind_ok.
      2:{ cbn [truthy when]. unfold invoke.
          erewrite bind_ok by (eapply run_get; eauto). rewrite Hd. reflexivity. }
      unfold enumerate. erewrite bind_ok by reflexivity.
      match goal with
      | |- context [forEach _ ?ks ?w0] =>
          destruct (dispose_properties c ks w0) as (w1 & Hrun & _ & Htrace & _)
      end.
      rewrite Hrun. cbn [snd]. rewrite Htrace. cbn [trace with_trace].
      rewrite drop_app_length. intros [<-|[]]. reflexivity.
  - cbn [snd mret M_ret]. rewrite drop_all. intros [].
Qed.

(** ** Scene Mutator: insertBefore *)

Lemma indexOf_bound (x : value) (xs : list value) :
  (indexOf x xs < Z.of_nat (length xs))%Z.
Proof.
  induction xs as [|y ys IH]; cbn [indexOf length]; [lia |].
  destruct (strict_eq y x); [lia |].
  destruct (Z.ltb_spec (indexOf x ys) 0); lia.
Qed.

Lemma position_bound (x : value) (xs : list value) (i : nat) :
  position x xs = Some i -> indexOf x xs = Z.of_nat i /\ i < length xs.
Proof.
  unfold position. pose proof (indexOf_bound x xs) as Hb.
  destruct (Z.ltb_spec (indexOf x xs) 0); [discriminate |].
  intros E. inversion E. split; lia.
Qed.

Lemma slice_take {A} (xs : list A) (i : nat) :
  i <= length xs -> slice xs 0 (Z.of_nat i) = take i xs.
Proof.
  intros Hi. unfold slice, relative. cbn [Z.ltb Z.compare].
  destruct (Z.ltb_spec (Z.of_nat i) 0); [lia |].
  rewrite Z.min_l, Z.min_l by lia. rewrite Z.sub_0_r, Nat2Z.id. reflexivity.
Qed.

Lemma slice_from_drop {A} (xs : list A) (i : nat) :
  i <= length xs -> slice_from xs (Z.of_nat i) = drop i xs.
Proof.
  intros Hi. unfold slice_from, slice, relative.
  destruct (Z.ltb_spec (Z.of_nat i) 0); [lia |].
  destruct (Z.ltb_spec (Z.of_nat (length xs)) 0); [lia |].
  rewrite Z.min_l, Z.min_l by lia. rewrite Nat2Z.id.
  apply take_ge. rewrite length_drop. lia.
Qed.

(** The part of C8 that holds: [insertBefore] puts the child right before a
    [beforeChild] found among the children, keeps every child that was
    there, the child itself included when it already was one, and
    dispatches ['added'] on the child. *)
Lemma insertBefore_places (w : world) (p c a i : nat) (pc cc ca : cell)
    (xs : list value) (beforeChild : value) :
  p <> c -> a <> c ->
  heap w !! p = Some pc -> heap w !! c = Some cc -> heap w !! a = Some ca ->
  c_shape ca = SArray xs ->
  read_cell pc "children" = VRef a ->
  position beforeChild xs = Some i ->
  read_cell cc "dispatchEvent" = VNative "dispatchEvent" ->
  exists w',
    insertBefore (VRef p) (VRef c) beforeChild w = (Ok tt, w') /\
    array_in w' (VRef p) "children" = take i xs ++ VRef c :: drop i xs /\
    trace w' = trace w ++ [EvCall (VRef c) "dispatchEvent" [VStr "added"]].
Proof.
  intros Hpc Hac Hp Hc Ha Sa Hch Hpos Hdisp.
  destruct (position_bound _ _ _ Hpos) as [Hidx Hlt].
  assert (Hplt : p < length (heap w)) by (eapply lookup_lt_Some; eauto).
  assert (Hclt : c < length (heap w)) by (eapply lookup_lt_Some; eauto).
  eexists. split; [| split].
  - unfold insertBefore. cbn [truthy negb].
    erewrite bind_ok by reflexivity.
    erewrite bind_ok by (eapply run_get; lookup). rewrite Hch.
    erewrite bind_ok by (eapply run_elements; [lookup | eassumption]).
    rewrite Hidx, slice_take, slice_from_drop by lia.
    erewrite bind_ok by reflexivity.
    erewrite bind_ok by reflexivity.
    eapply run_dispatch_logged.
    + cbn [heap with_heap]. rewrite list_lookup_alter_ne by congruence.
      rewrite lookup_app_l by (rewrite length_alter; lia).
      rewrite list_lookup_alter_eq, Hc. reflexivity.
    + rewrite read_write_other by discriminate. assumption.
  - eapply array_in_live.
    + cbn [heap with_heap with_trace]. rewrite list_lookup_alter_eq.
      rewrite lookup_app_l by (rewrite length_alter; lia).
      rewrite list_lookup_alter_ne, Hp by congruence. reflexivity.
    + apply read_write_same.
    + cbn [heap with_heap with_trace]. rewrite list_lookup_alter_ne
        by (rewrite length_alter; lia).
      rewrite lookup_app_r by (rewrite length_alter; lia).
      rewrite length_alter, Nat.sub_diag. reflexivity.
    + reflexivity.
  - reflexivity.
Qed.

(** C8, the scenario: mesh A then mesh B appended to the group, then
    [insertBefore(group, meshB, meshA)].  Mesh B is spliced in before mesh A
    and is not taken out of its old place: the group has three children. *)
Theorem insertBefore_keeps_old_position :
  let program := appendChild Scenario.group Scenario.meshA ;;
                 appendChild Scenario.group Scenario.meshB ;;
                 insertBefore Scenario.group Scenario.meshB Scenario.meshA in
  fst (program Scenario.stage) = Ok tt /\
  array_in (Scenario.run program Scenario.stage) Scenario.group "children"
  = [Scenario.meshB; Scenario.meshA; Scenario.meshB].
Proof. vm_compute. split; reflexivity. Qed.

(** ** Render Loop: subscriptions *)

Lemma same_value_zero_ref (r : nat) (y : value) :
  same_value_zero (VRef r) y = true <-> y = VRef r.
Proof.
  destruct y; simpl; split; intros H; try discriminate; try congruence.
  - apply Nat.eqb_eq in H. congruence.
  - inversion H. apply Nat.eqb_refl.
Qed.

Lemma includes_ref (r : nat) (xs : list value) :
  includes (VRef r) xs = true <-> In (VRef r) xs.
Proof.
  unfold includes. rewrite existsb_exists. split.
  - intros (y & Hy & E). apply same_value_zero_ref in E. now subst.
  - intros H. exists (VRef r). split; [assumption |]. now apply same_value_zero_ref.
Qed.

Lemma without_absent (r : nat) (xs : list value) :
  ~ In (VRef r) xs -> without (VRef r) xs = xs.
Proof.
  intros H. apply filter_all. intros y Hy. apply Bool.negb_true_iff.
  destruct (strict_eq y (VRef r)) eqn:E; [| reflexivity].
  apply strict_eq_true in E. subst. contradiction.
Qed.


Lemma not_in_without (r : nat) (xs : list value) : ~ In (VRef r) (without (VRef r) xs).
Proof.
  unfold without. rewrite filter_In. intros [_ H]. simpl in H.
  rewrite Nat.eqb_refl in H. discriminate.
Qed.

Lemma without_permutation (r : nat) (xs : list value) :
  List.NoDup xs -> In (VRef r) xs -> Permutation (without (VRef r) xs ++ [VRef r]) xs.
Proof.
  induction xs as [|y ys IH]; intros Hnd Hin; [contradiction |].
  inversion Hnd as [|? ? Hy Hys]; subst. simpl.
  destruct (strict_eq y (VRef r)) eqn:E; simpl.
  - apply strict_eq_true in E. subst y.
    fold (without (VRef r) ys). rewrite without_absent by assumption.
    rewrite Permutation_app_comm. reflexivity.
  - destruct Hin as [->|Hin].
    + simpl in E. rewrite Nat.eqb_refl in E. discriminate.
    + constructor. now apply IH.
Qed.



(** The subscriber list never holds a ref twice: [subscribe] keeps it so. *)
Lemma subscribe_keeps_NoDup (w w' : world) (s a r : nat) (sc ca : cell)
    (ks : klass) (xs : list value) :
  heap w !! s = Some sc -> c_shape sc = SObject ks ->
  read_cell sc "subscribed" = VRef a ->
  heap w !! a = Some ca -> c_shape ca = SArray xs ->
  List.NoDup xs ->
  subscribe (VRef s) (VRef r) w = (Ok tt, w') ->
  List.NoDup (array_in w' (VRef s) "subscribed").
Proof.
  intros Hs Ss Hsub Ha Sa Hnd Hrun.
  assert (Hsa : s <> a).
  { intros E. subst a. rewrite Hs in Ha. inversion Ha. subst ca. congruence. }
  assert (Hslt : s < length (heap w)) by (eapply lookup_lt_Some; eauto).
  unfold subscribe in Hrun.
  erewrite bind_ok in Hrun by (eapply run_get; eauto). rewrite Hsub in Hrun.
  erewrite bind_ok in Hrun by (eapply run_elements; eauto).
  destruct (includes (VRef r) xs) eqn:Hinc.
  - erewrite bind_ok in Hrun by reflexivity. inversion Hrun; subst w'; clear Hrun.
    erewrite array_in_live with (a := length (heap w)) (xs := without (VRef r) xs).
    + unfold without. now apply List.NoDup_filter.
    + cbn [heap with_heap]. rewrite list_lookup_alter_eq, lookup_app_l, Hs by lia.
      reflexivity.
    + apply read_write_same.
    + cbn [heap with_heap]. rewrite list_lookup_alter_ne by lia.
      rewrite lookup_app_r by lia. rewrite Nat.sub_diag. reflexivity.
    + reflexivity.
  - rewrite (run_update_elements w a ca xs _ Ha Sa) in Hrun.
    inversion Hrun; subst w'; clear Hrun.
    erewrite array_in_live with (a := a) (xs := xs ++ [VRef r]).
    + apply List.NoDup_app; [assumption | |].
      * repeat constructor. intros [].
      * intros x Hx [<-|[]]. apply includes_ref in Hx. congruence.
    + cbn [heap with_heap]. rewrite list_lookup_alter_ne, Hs by congruence. reflexivity.
    + assumption.
    + cbn [heap with_heap]. rewrite list_lookup_alter_eq, Ha. reflexivity.
    + eapply shape_store_elements; eauto.
Qed.

Section Loop.

Variable state : value.



End Loop.




(** The list is a list all the same, and a frame runs the callbacks in its
    order: with two refs subscribed, toggling the first one twice puts it
    behind the second. *)
Lemma subscribe_twice_moves_ref :
  array_in Scenario.animated Scenario.state1 "subscribed"
  = [Scenario.frameRef1; Scenario.frameRef2] /\
  array_in (Scenario.run (subscribe Scenario.state1 Scenario.frameRef1 ;;
                          subscribe Scenario.state1 Scenario.frameRef1)
                         Scenario.animated) Scenario.state1 "subscribed"
  = [Scenario.frameRef2; Scenario.frameRef1].
Proof. vm_compute. split; reflexivity. Qed.

(** ** Event Manager: the hovered set *)

Lemma cast_ray_run (w : world) (s e : nat) :
  surface (heap w) s ->
  exists evs, cast_ray (VRef s) (VRef e) w = (Ok tt, with_trace (trace w ++ evs) w).
Proof.
  intros (sc & m & z & rc & rcc & sn & Hs & Hm & Hz & Hrc & Hrcc & Hset & Hint & Hsn).
  unfold cast_ray.
  erewrite bind_ok by (eapply run_get; eauto). rewrite Hm.
  erewrite bind_ok by apply get_ref.
  erewrite bind_ok by (eapply run_get; eauto). rewrite Hz.
  erewrite bind_ok by apply get_ref.
  erewrite bind_ok by reflexivity.
  erewrite bind_ok by (eapply run_get; eauto). rewrite Hm.
  erewrite bind_ok by apply get_ref.
  erewrite bind_ok by (eapply run_get; eauto). rewrite Hz.
  erewrite bind_ok by apply get_ref.
  erewrite bind_ok by reflexivity.
  erewrite bind_ok by (eapply run_get; eauto). rewrite Hrc.
  erewrite bind_ok by (eapply run_get; eauto). rewrite Hm.
  erewrite bind_ok by (eapply run_get; eauto).
  erewrite bind_ok.
  2:{ unfold invoke. erewrite bind_ok by (eapply run_get; eauto). rewrite Hset.
      unfold call. erewrite bind_ok by (apply native_logged; auto). reflexivity. }
  erewrite bind_ok by (eapply run_get; eauto). rewrite Hrc.
  erewrite bind_ok by (eapply run_get; eauto). rewrite Hsn.
  erewrite bind_ok by apply get_ref.
  unfold invoke. erewrite bind_ok by (eapply run_get; eauto). rewrite Hint.
  unfold call. erewrite bind_ok by (apply native_logged; auto).
  eexists. cbn. unfold with_trace. cbn. rewrite <- app_assoc. reflexivity.
Qed.

Lemma fire_run (w : world) (hm : nat) (name : string) (event : value) :
  handler_mapping (heap w) hm ->
  fire (VRef hm) name event w
  = (Ok tt, with_trace (trace w ++ fired (heap w) hm name event) w).
Proof.
  intros (hmc & Hhm & Htame). unfold fire, fired. rewrite Hhm.
  erewrite bind_ok by (eapply run_get; eauto).
  destruct (Htame name) as [E|(fl & fc & fu & E & Hfl & Sfc)]; rewrite E.
  - cbn. now rewrite with_trace_nil.
  - cbn [truthy when]. unfold call, apply_function.
    unfold mbind, M_bind. rewrite Hfl.
    destruct fc as [[] o]; simpl in Sfc; try discriminate. reflexivity.
Qed.

Lemma fired_handles (h : list cell) (hm : nat) (name : string) (event : value) (fu : func) :
  handles h hm name fu -> In (EvApply fu [event]) (fired h hm name event).
Proof.
  intros (hmc & fl & fc & H1 & H2 & H3 & H4). unfold fired. rewrite H1, H2, H3.
  destruct fc as [[] o]; simpl in H4; try discriminate. inversion H4. now left.
Qed.

(** A hover event whose ray newly meets [o] marks it in the shared set. *)
Lemma hover_enter (w : world) (s e o hm : nat) (u : string) :
  surface (heap w) s -> listens (heap w) o u hm -> hovered w = [] ->
  exists w1,
    handleEvent (VRef s) [VRef o] (VRef e) "hoverEvent" w = (Ok [VRef o], w1) /\
    heap w1 = heap w /\ hovered w1 = [(u, VRef o)].
Proof.
  intros Hs (oc & Ho & Hu & Hh & Hm) Hhov.
  destruct (cast_ray_run w s e Hs) as (evs & Hcast).
  unfold handleEvent. erewrite bind_ok by exact Hcast.
  cbn [String.eqb Ascii.eqb Bool.eqb forEach andb].
  erewrite bind_ok.
  2:{ erewrite bind_ok.
      2:{ erewrite bind_ok by (eapply run_get; exact Ho). rewrite Hh.
          erewrite bind_ok.
          2:{ erewrite bind_ok by (eapply run_get; exact Ho). rewrite Hu.
              unfold read. cbn [to_key hovered with_trace]. rewrite Hhov. reflexivity. }
          cbn [prop lookup_prop truthy negb].
          erewrite bind_ok by (eapply run_get; exact Ho). rewrite Hu.
          erewrite bind_ok by reflexivity.
          erewrite bind_ok by (apply fire_run; exact Hm).
          apply fire_run. exact Hm. }
      reflexivity. }
  cbn [when].
  erewrite bind_ok.
  2:{ erewrite bind_ok by reflexivity.
      cbn [hovered with_hovered with_trace to_key]. rewrite Hhov.
      cbn [set_prop map snd forEach].
      erewrite bind_ok.
      2:{ erewrite bind_ok by (eapply run_get; exact Ho).
          cbn [length Nat.eqb existsb strict_eq orb negb]. rewrite Nat.eqb_refl.
          reflexivity. }
      reflexivity. }
  eexists. split; [reflexivity |]. split; reflexivity.
Qed.

(** A hover event whose ray meets nothing unmarks [o], whichever surface the
    event came from, and fires its [onPointerOut]. *)
Lemma hover_leave (w : world) (s e o hm : nat) (u : string) :
  surface (heap w) s -> listens (heap w) o u hm -> hovered w = [(u, VRef o)] ->
  exists w2,
    handleEvent (VRef s) [] (VRef e) "hoverEvent" w = (Ok [], w2) /\
    heap w2 = heap w /\ hovered w2 = [] /\
    forall fu, handles (heap w) hm "onPointerOut" fu ->
      In (EvApply fu [VRef e]) (emitted (handleEvent (VRef s) [] (VRef e) "hoverEvent") w).
Proof.
  intros Hs (oc & Ho & Hu & Hh & Hm) Hhov.
  destruct (cast_ray_run w s e Hs) as (evs & Hcast).
  assert (Hrun : handleEvent (VRef s) [] (VRef e) "hoverEvent" w
                 = (Ok [],
                    with_trace ((trace w ++ evs) ++ fired (heap w) hm "onPointerOut" (VRef e))
                      (with_hovered [] (with_trace (trace w ++ evs) w)))).
  { unfold handleEvent. erewrite bind_ok by exact Hcast.
    cbn [String.eqb Ascii.eqb Bool.eqb forEach andb].
    erewrite bind_ok by reflexivity.
    cbn [when].
    erewrite bind_ok.
    2:{ erewrite bind_ok by reflexivity.
        cbn [hovered with_trace]. rewrite Hhov. cbn [map snd forEach].
        erewrite bind_ok.
        2:{ erewrite bind_ok by (eapply run_get; exact Ho). rewrite Hh.
            cbn [length Nat.eqb orb].
            erewrite bind_ok by (eapply run_get; exact Ho). rewrite Hu.
            erewrite bind_ok by reflexivity.
            cbn [to_key hovered with_trace with_hovered]. rewrite Hhov.
            cbn [delete_prop]. rewrite String.eqb_refl.
            apply fire_run. exact Hm. }
        reflexivity. }
    reflexivity. }
  eexists. split; [exact Hrun |]. split; [reflexivity |]. split; [reflexivity |].
  intros fu Hfu. unfold emitted. rewrite Hrun. cbn [snd trace with_trace].
  rewrite <- app_assoc, drop_app_length. apply in_or_app. right.
  now apply fired_handles.
Qed.

(** C4, as the code has it: the hovered set is one mapping for all surfaces.
    An instance that a hover event marks on one surface is in the set that
    the handler of any other surface reads: the next hover event there whose
    ray meets nothing removes it and fires its [onPointerOut]. *)
Theorem hovered_is_shared (w : world) (s1 s2 e1 e2 o hm : nat) (u : string) :
  surface (heap w) s1 -> surface (heap w) s2 ->
  listens (heap w) o u hm -> hovered w = [] ->
  exists w1 w2,
    handleEvent (VRef s1) [VRef o] (VRef e1) "hoverEvent" w = (Ok [VRef o], w1) /\
    hovered w1 = [(u, VRef o)] /\
    handleEvent (VRef s2) [] (VRef e2) "hoverEvent" w1 = (Ok [], w2) /\
    hovered w2 = [] /\
    forall fu, handles (heap w) hm "onPointerOut" fu ->
      In (EvApply fu [VRef e2])
         (emitted (handleEvent (VRef s2) [] (VRef e2) "hoverEvent") w1).
Proof.
  intros Hs1 Hs2 Hl Hhov.
  destruct (hover_enter w s1 e1 o hm u Hs1 Hl Hhov) as (w1 & Hrun1 & Hheap1 & Hhov1).
  rewrite <- Hheap1 in Hs2, Hl.
  destruct (hover_leave w1 s2 e2 o hm u Hs2 Hl Hhov1) as (w2 & Hrun2 & _ & Hhov2 & Hout).
  exists w1, w2. repeat split; try assumption.
  intros fu Hfu. apply Hout. now rewrite Hheap1.
Qed.

(** The theorem on the page with both surfaces mounted: mesh A is hovered
    through the first surface and left through the second. *)
Lemma hovered_is_shared_witness :
  exists w1 w2,
    handleEvent (VRef 22) [VRef 2] (VRef 18) "hoverEvent" Scenario.two_surfaces
    = (Ok [VRef 2], w1) /\
    hovered w1 = [("A", VRef 2)] /\
    handleEvent (VRef 47) [] (VRef 18) "hoverEvent" w1 = (Ok [], w2) /\
    hovered w2 = [] /\
    In (EvApply (FUser 2) [VRef 18])
       (emitted (handleEvent (VRef 47) [] (VRef 18) "hoverEvent") w1).
Proof.
  destruct (hovered_is_shared Scenario.two_surfaces 22 47 18 18 2 71 "A")
    as (w1 & w2 & H1 & Hh1 & H2 & Hh2 & Hout).
  - exists (Scenario.cell_at Scenario.two_surfaces 22), 35, 21, 36,
      (Scenario.cell_at Scenario.two_surfaces 36), 33.
    splits; vm_compute; reflexivity.
  - exists (Scenario.cell_at Scenario.two_surfaces 47), 60, 46, 61,
      (Scenario.cell_at Scenario.two_surfaces 61), 58.
    splits; vm_compute; reflexivity.
  - exists (Scenario.cell_at Scenario.two_surfaces 2).
    split; [vm_compute; reflexivity |].
    split; [vm_compute; reflexivity |].
    split; [vm_compute; reflexivity |].
    exists (obj plain [("onClick", VRef 9); ("onPointerOut", VRef 10)]).
    split; [vm_compute; reflexivity |].
    intros name. unfold read_cell. cbn [lookup_prop c_own obj].
    destruct (String.eqb "onClick" name).
    + right. exists 9, (fn (FUser 1)), (FUser 1). splits; reflexivity.
    + destruct (String.eqb "onPointerOut" name).
      * right. exists 10, (fn (FUser 2)), (FUser 2). splits; reflexivity.
      * left. reflexivity.
  - vm_compute; reflexivity.
  - exists w1, w2. splits; try assumption.
    apply Hout.
    exists (obj plain [("onClick", VRef 9); ("onPointerOut", VRef 10)]), 10, (fn (FUser 2)).
    splits; vm_compute; reflexivity.
Defined.

(** C4 as stated fails: a hover event on the second surface fires the
    [onPointerOut] of mesh A exactly when an event on the first surface had
    marked mesh A as hovered. *)
Lemma hovered_is_shared_counterexample :
  ~ (forall (w : world) (state1 state2 object event : value) (w1 : world),
       state1 <> state2 ->
       handleEvent state1 [object] event "hoverEvent" w = (Ok [object], w1) ->
       emitted (handleEvent state2 [] event "hoverEvent") w1
       = emitted (handleEvent state2 [] event "hoverEvent") w).
Proof.
  intros H.
  assert (E : handleEvent Scenario.state1 [Scenario.meshA] Scenario.mousemove "hoverEvent"
                Scenario.two_surfaces = (Ok [Scenario.meshA], Scenario.hovering))
    by (vm_compute; reflexivity).
  apply (H _ _ Scenario.state2) in E.
  - vm_compute in E. discriminate.
  - vm_compute. discriminate.
Qed.

(** ** Event Manager: instances without a handler mapping *)

(** C2 on a mesh without handler props: [applyProps] gives it no
    [__handlers], and both the click path and the hover path of
    [handleEvent] read a handler off [undefined]. *)
Theorem handleEvent_throws_without_mapping :
  field Scenario.plain_mesh Scenario.bare "__handlers" = VUndefined /\
  fst (handleEvent Scenario.state1 [Scenario.bare] Scenario.mousemove "onClick"
         Scenario.plain_mesh)
  = Throw (TypeError "Cannot read properties of undefined (reading 'onClick')") /\
  fst (handleEvent Scenario.state1 [Scenario.bare] Scenario.mousemove "hoverEvent"
         Scenario.plain_mesh)
  = Throw (TypeError "Cannot read properties of undefined (reading 'onHover')").
Proof. vm_compute. splits; reflexivity. Qed.

(** On any surface, a click-like event over an object without a handler
    mapping throws, whatever else the ray meets after it. *)
Lemma handleEvent_throws (w : world) (s e o : nat) (oc : cell)
    (rest : list value) (type : string) :
  surface (heap w) s ->
  heap w !! o = Some oc -> read_cell oc "__handlers" = VUndefined ->
  String.eqb type "hoverEvent" = false ->
  exists msg w',
    handleEvent (VRef s) (VRef o :: rest) (VRef e) type w = (Throw (TypeError msg), w').
Proof.
  intros Hs Ho Hh Hty.
  destruct (cast_ray_run w s e Hs) as (evs & Hcast).
  unfold handleEvent. erewrite bind_ok by exact Hcast. rewrite Hty.
  cbn [forEach andb negb].
  erewrite bind_throw; [eexists; eexists; reflexivity |].
  erewrite bind_throw; [reflexivity |].
  erewrite bind_ok by (eapply run_get; exact Ho). rewrite Hh.
  erewrite bind_ok by reflexivity.
  unfold fire. erewrite bind_throw; reflexivity.
Qed.

(** ** Root Lifecycle Manager: unmount *)

(** C1 after [render(<></>, canvas, { events })]: the state keeps its
    renderer under [gl], [unmountComponentAtNode] reads [state.renderer].
    The listeners are disconnected, then the call throws: the animation loop
    stays registered, the graphics context stays held, the canvas stays in
    [roots]. *)
Theorem unmount_reads_missing_renderer :
  let w := Scenario.mounted in
  let w' := Scenario.run (unmountComponentAtNode Scenario.canvas1) w in
  field w Scenario.state1 "renderer" = VUndefined /\
  loops (hosts w) = [(field w Scenario.state1 "gl", VRef 45)] /\
  fst (unmountComponentAtNode Scenario.canvas1 w)
  = Throw (TypeError "Cannot read properties of undefined (reading 'setAnimationLoop')") /\
  listeners (hosts w') = [] /\
  loops (hosts w') = loops (hosts w) /\
  contexts (hosts w') = [field w Scenario.state1 "gl"] /\
  roots_get Scenario.canvas1 (roots w') = roots_get Scenario.canvas1 (roots w) /\
  roots_get Scenario.canvas1 (roots w') <> None.
Proof. vm_compute. splits; try reflexivity. discriminate. Qed.

(** The throw of C1 does not depend on the page: on any surface whose state
    has no [renderer] property (and, to keep the statement short, no event
    manager) [unmountComponentAtNode] throws before it has released
    anything, and the world is as before but for the recorded call of the
    reconciler. *)
Lemma unmount_throws (w : world) (canvas root : value) (s : nat) (sc : cell) :
  roots_get canvas (roots w) = Some (root, VRef s) ->
  heap w !! s = Some sc ->
  truthy (read_cell sc "events") = false ->
  read_cell sc "renderer" = VUndefined ->
  exists msg,
    unmountComponentAtNode canvas w
    = (Throw (TypeError msg),
       with_trace (trace w ++ [EvReconciler "updateContainer" [VNull; root]]) w).
Proof.
  intros Hroot Hs Hev Hren. unfold unmountComponentAtNode.
  erewrite bind_ok by reflexivity. rewrite Hroot.
  unfold updateContainer. erewrite bind_ok by reflexivity.
  erewrite bind_ok by (eapply run_get; exact Hs). rewrite Hev.
  erewrite bind_ok by reflexivity.
  erewrite bind_ok by (eapply run_get; exact Hs). rewrite Hren.
  eexists. reflexivity.
Qed.

(** * Further properties *)

(** ** Property Applier: what is applied and what is not *)

Lemma pruneKeys_not_listed (p : props) (ks : list string) (key : string) :
  In key (keys (pruneKeys p ks)) -> ~ In key ks.
Proof.
  unfold keys, pruneKeys. rewrite in_map_iff. intros ([k v] & E & H) Hin.
  simpl in E. subst k. apply filter_In in H. destruct H as [_ H]. simpl in H.
  apply Bool.negb_true_iff in H.
  assert (X : existsb (String.eqb key) ks = true).
  { apply existsb_exists. exists key. split; [assumption | apply String.eqb_refl]. }
  congruence.
Qed.

Lemma applicable_keys (h : list cell) (newProps oldProps : props) (key : string) :
  In key (keys (applicable h newProps oldProps)) ->
  In key (keys newProps) /\
  strict_eq (prop newProps key) (prop oldProps key) = false /\
  is_handler h newProps key = false /\
  ~ In key ["children"; "key"; "ref"].
Proof.
  intros H. pose proof (pruneKeys_keys _ _ _ H) as Hin.
  apply pruneKeys_not_listed in H. split; [assumption |].
  split; [| split].
  - destruct (strict_eq (prop newProps key) (prop oldProps key)) eqn:E; [| reflexivity].
    exfalso. apply H. apply in_or_app. left. unfold identical_keys.
    apply filter_In. auto.
  - destruct (is_handler h newProps key) eqn:E; [| reflexivity].
    exfalso. apply H. apply in_or_app. right. apply in_or_app. left.
    now apply handler_keys_spec.
  - intros Hr. apply H. apply in_or_app. right. apply in_or_app. now right.
Qed.

(** The frame of [applyProps]: a key it does not apply is written on no
    object. *)
Lemma applyProps_keeps (k : string) (instance : value)
    (newProps oldProps : props) (w w' : world) (r : result unit) :
  k <> "parent" -> k <> "__handlers" ->
  (forall key, In key (keys (applicable (heap w) newProps oldProps)) -> k <> key) ->
  applyProps instance newProps oldProps w = (r, w') ->
  preserved (eq k) w w'.
Proof.
  intros Hparent Hhandlers Hfree Hrun.
  assert (R : respects (eq k)
                (when (negb (Nat.eqb (length (keys (applicable (heap w) newProps oldProps))) 0))
                      (forEach (apply_entry instance) (applicable (heap w) newProps oldProps)) ;;
                 when (negb (Nat.eqb (length (handler_keys (heap w) newProps)) 0))
                      (collected ← alloc (obj plain (collect (handler_keys (heap w) newProps)
                                                              newProps));
                       set instance "__handlers" collected))).
  { apply respects_bind.
    - apply respects_mutation; [congruence | assumption].
    - intros _. apply respects_when. apply respects_bind; [apply respects_alloc |].
      intros collected. apply respects_set. congruence. }
  exact (R w r w' Hrun).
Qed.

(** [applyProps] leaves a property of the instance alone, whatever it
    returns, when the key is reserved, names a handler, has the value it had
    in [oldProps], or is not a key of [newProps]: the instance still holds
    under the key what it held.  (What a setter of three.js does to the
    object kept under an applied key is not part of the statement.) *)
Theorem applyProps_leaves_key (k : string) (l : nat) (c : cell)
    (newProps oldProps : props) (w w' : world) (r : result unit) :
  k <> "parent" -> k <> "__handlers" ->
  In k ["children"; "key"; "ref"] \/
  is_handler (heap w) newProps k = true \/
  strict_eq (prop newProps k) (prop oldProps k) = true \/
  ~ In k (keys newProps) ->
  heap w !! l = Some c ->
  applyProps (VRef l) newProps oldProps w = (r, w') ->
  exists c', heap w' !! l = Some c' /\
             lookup_prop k (c_own c') = lookup_prop k (c_own c).
Proof.
  intros Hparent Hhandlers Hk Hl Hrun.
  assert (Hfree : forall key,
            In key (keys (applicable (heap w) newProps oldProps)) -> k <> key).
  { intros key Hin <-. destruct (applicable_keys _ _ _ _ Hin) as (H1 & H2 & H3 & H4).
    destruct Hk as [Hk|[Hk|[Hk|Hk]]]; [contradiction | congruence | congruence | contradiction]. }
  destruct (applyProps_keeps k (VRef l) newProps oldProps w w' r
              Hparent Hhandlers Hfree Hrun l c Hl) as (c' & Hc' & E).
  exists c'. split; [assumption |]. now apply E.
Qed.

(** The theorem on mesh A: props that carry [children] and a handler leave
    the children of the mesh alone. *)
Lemma applyProps_leaves_key_witness :
  exists c',
    heap (Scenario.run (applyProps Scenario.meshA
                          [("children", VNull); ("onClick", Scenario.onClick);
                           ("visible", VBool true)] []) Scenario.stage) !! 2 = Some c' /\
    lookup_prop "children" (c_own c') = Some (VRef 3).
Proof.
  destruct (applyProps_leaves_key "children" 2 (Scenario.cell_at Scenario.stage 2)
              [("children", VNull); ("onClick", Scenario.onClick); ("visible", VBool true)] []
              Scenario.stage
              (Scenario.run (applyProps Scenario.meshA
                 [("children", VNull); ("onClick", Scenario.onClick);
                  ("visible", VBool true)] []) Scenario.stage)
              (Ok tt))
    as (c' & Hc' & E).
  - discriminate.
  - discriminate.
  - left. simpl. auto.
  - vm_compute; reflexivity.
  - vm_compute; reflexivity.
  - exists c'. split; [assumption |]. rewrite E. vm_compute; reflexivity.
Defined.

Lemma NoDup_keys_pruneKeys (p : props) (ks : list string) :
  List.NoDup (keys p) -> List.NoDup (keys (pruneKeys p ks)).
Proof.
  unfold keys, pruneKeys. induction p as [|[k v] p IH]; simpl; intros H.
  - constructor.
  - inversion H as [|? ? Hk Hp]; subst.
    destruct (negb (existsb (String.eqb k) ks)); simpl; [| now apply IH].
    constructor; [| now apply IH].
    intros Hin. apply Hk. apply in_map_iff in Hin. destruct Hin as ([k' v'] & E & Hin).
    apply filter_In in Hin. apply in_map_iff. exists (k', v'). tauto.
Qed.

Lemma read_assigned_out (ps : props) (c : cell) (key : string) :
  ~ In key (keys ps) -> read_cell (assigned ps c) key = read_cell c key.
Proof.
  revert c. unfold assigned, keys. induction ps as [|[k v] ps IH]; intros c H; simpl.
  - reflexivity.
  - simpl in H. rewrite IH by tauto. apply read_write_other. tauto.
Qed.

Lemma read_assigned_in (ps : props) (c : cell) (key : string) (v : value) :
  List.NoDup (keys ps) -> In (key, v) ps -> read_cell (assigned ps c) key = v.
Proof.
  revert c. induction ps as [|[k x] ps IH]; intros c Hnd Hin; [contradiction |].
  unfold keys in Hnd. simpl in Hnd. inversion Hnd as [|? ? Hk Hps]; subst.
  destruct Hin as [E|Hin].
  - inversion E; subst. change (assigned ((key, v) :: ps) c)
      with (assigned ps (write_cell key v c)).
    rewrite read_assigned_out by assumption. apply read_write_same.
  - change (assigned ((k, x) :: ps) c) with (assigned ps (write_cell k x c)).
    now apply IH.
Qed.

(** The mutation loop over props whose targets are not objects: one plain
    assignment each, and nothing else. *)
Lemma plain_entries (l : nat) (ps : props) (w : world) (c : cell) :
  heap w !! l = Some c ->
  List.NoDup (keys ps) ->
  (forall key, In key (keys ps) -> forall t, read_cell c key <> VRef t) ->
  forEach (apply_entry (VRef l)) ps w
  = (Ok tt, with_heap (alter (assigned ps) l (heap w)) w).
Proof.
  revert w c. induction ps as [|[k v] ps IH]; intros w c Hl Hnd Hplain.
  - cbn [forEach]. unfold mret, M_ret. f_equal.
    rewrite list_alter_id by reflexivity. now destruct w.
  - unfold keys in Hnd. simpl in Hnd. inversion Hnd as [|? ? Hk Hps]; subst.
    cbn [forEach].
    assert (Hentry : apply_entry (VRef l) (k, v) w
                     = (Ok tt, with_heap (alter (write_cell k v) l (heap w)) w)).
    { cbn [apply_entry].
      erewrite bind_ok by (eapply run_get; eauto).
      assert (Hk0 : forall t, read_cell c k <> VRef t) by (apply Hplain; now left).
      destruct (read_cell c k) eqn:E; try (exfalso; eapply Hk0; reflexivity);
        reflexivity. }
    erewrite bind_ok by exact Hentry.
    erewrite (IH _ (write_cell k v c)).
    + f_equal. unfold with_heap. cbn [heap roots hovered trace hosts]. f_equal.
      rewrite list_alter_alter_eq. apply list_alter_ext; [| reflexivity].
      intros c0 _. reflexivity.
    + cbn [heap with_heap]. rewrite list_lookup_alter_eq, Hl. reflexivity.
    + assumption.
    + intros key Hkey t. rewrite read_write_other.
      * apply Hplain. now right.
      * intros <-. contradiction.
Qed.

(** [applyProps] on an instance whose properties under the applicable keys
    are not objects. *)
Lemma applyProps_plain (l : nat) (c : cell) (newProps oldProps : props) (w : world) :
  heap w !! l = Some c ->
  List.NoDup (keys newProps) ->
  ~ In "__handlers" (keys newProps) ->
  (forall key, In key (keys (applicable (heap w) newProps oldProps)) ->
     forall t, read_cell c key <> VRef t) ->
  exists w',
    applyProps (VRef l) newProps oldProps w = (Ok tt, w') /\
    trace w' = trace w /\
    (forall key v, In (key, v) (applicable (heap w) newProps oldProps) ->
       field w' (VRef l) key = v) /\
    (forall l' c', l' <> l -> heap w !! l' = Some c' -> heap w' !! l' = Some c').
Proof.
  intros Hl Hnd Hfree Hplain.
  pose proof (NoDup_keys_pruneKeys newProps
                (identical_keys newProps oldProps ++ handler_keys (heap w) newProps
                 ++ ["children"; "key"; "ref"]) Hnd) as Hnd'.
  fold (applicable (heap w) newProps oldProps) in Hnd'.
  pose proof (plain_entries l _ w c Hl Hnd' Hplain) as Hloop.
  set (ps := applicable (heap w) newProps oldProps) in *.
  set (w1 := with_heap (alter (assigned ps) l (heap w)) w).
  assert (Hwhen : when (negb (Nat.eqb (length (keys ps)) 0))
                       (forEach (apply_entry (VRef l)) ps) w = (Ok tt, w1)).
  { destruct ps as [|e ps']; [| exact Hloop]. exact Hloop. }
  assert (Hl1 : heap w1 !! l = Some (assigned ps c)).
  { subst w1. cbn [heap with_heap]. rewrite list_lookup_alter_eq, Hl. reflexivity. }
  assert (Hlt : l < length (heap w1)) by (eapply lookup_lt_Some; eauto).
  assert (Hkey : forall key v, In (key, v) ps -> key <> "__handlers").
  { intros key v Hin ->. apply Hfree. apply (pruneKeys_keys newProps
      (identical_keys newProps oldProps ++ handler_keys (heap w) newProps
       ++ ["children"; "key"; "ref"])).
    unfold keys. apply in_map_iff. exists ("__handlers", v). auto. }
  destruct (handler_keys (heap w) newProps) as [|h hs] eqn:Hh.
  - exists w1. split; [| split; [| split]].
    + unfold applyProps. erewrite bind_ok by reflexivity.
      erewrite bind_ok by exact Hwhen. rewrite Hh. reflexivity.
    + reflexivity.
    + intros key v Hin. unfold field. rewrite (run_get w1 l _ key Hl1).
      now apply read_assigned_in.
    + intros l' c' Hne Hl'. subst w1. cbn [heap with_heap].
      rewrite list_lookup_alter_ne by congruence. exact Hl'.
  - eexists. split; [| split; [| split]].
    + unfold applyProps. erewrite bind_ok by reflexivity.
      erewrite bind_ok by exact Hwhen. rewrite Hh. cbn [length Nat.eqb negb when].
      erewrite bind_ok by reflexivity. reflexivity.
    + reflexivity.
    + intros key v Hin. unfold field. erewrite run_get.
      2:{ cbn [heap with_heap]. rewrite list_lookup_alter_eq, lookup_app_l, Hl1 by assumption.
          reflexivity. }
      rewrite read_write_other by (intros E; symmetry in E; revert E; eapply Hkey; eauto).
      now apply read_assigned_in.
    + intros l' c' Hne Hl'. cbn [heap with_heap].
      rewrite list_lookup_alter_ne by congruence.
      apply lookup_app_l_Some. subst w1. cbn [heap with_heap].
      rewrite list_lookup_alter_ne by congruence. exact Hl'.
Qed.

(** Props whose targets on the instance are not objects (absent fields,
    numbers, strings, booleans) are assigned as they are: [applyProps]
    returns, calls nothing, and the instance then reads each applicable key
    at the value [newProps] gives it. *)
Theorem applyProps_assigns_fields (l : nat) (c : cell) (newProps oldProps : props)
    (w : world) :
  heap w !! l = Some c ->
  List.NoDup (keys newProps) ->
  ~ In "__handlers" (keys newProps) ->
  (forall key, In key (keys (applicable (heap w) newProps oldProps)) ->
     forall t, read_cell c key <> VRef t) ->
  exists w',
    applyProps (VRef l) newProps oldProps w = (Ok tt, w') /\
    trace w' = trace w /\
    forall key v, In (key, v) (applicable (heap w) newProps oldProps) ->
      field w' (VRef l) key = v.
Proof.
  intros Hl Hnd Hfree Hplain.
  destruct (applyProps_plain l c newProps oldProps w Hl Hnd Hfree Hplain)
    as (w' & Hrun & Htrace & Hfields & _).
  exists w'. auto.
Qed.

(** The theorem on the bare mesh: [<mesh visible name="box" />]. *)
Lemma applyProps_assigns_fields_witness :
  exists w',
    applyProps Scenario.bare [("visible", VBool true); ("name", VStr "box")] []
               Scenario.stage = (Ok tt, w') /\
    field w' Scenario.bare "visible" = VBool true /\
    field w' Scenario.bare "name" = VStr "box".
Proof.
  destruct (applyProps_assigns_fields 12 (Scenario.cell_at Scenario.stage 12)
              [("visible", VBool true); ("name", VStr "box")] [] Scenario.stage)
    as (w' & Hrun & _ & Hf).
  - vm_compute; reflexivity.
  - cbv [keys map fst]. constructor; [intros [E|[]]; discriminate |].
    constructor; [intros [] | constructor].
  - intros [E|[E|[]]]; discriminate.
  - intros key Hin t. vm_compute in Hin.
    destruct Hin as [<-|[<-|[]]]; vm_compute; discriminate.
  - exists w'. split; [exact Hrun |].
    split; apply Hf; vm_compute; auto.
Defined.

(** ** Property Applier: values that cannot be applied *)

(** [null] or [undefined] given for a property that three.js keeps in an
    object with a [set] method ([position], [scale], [color], ...) makes
    [applyProps] throw on [value.constructor], before anything is changed. *)
Theorem applyProps_throws_on_nullish (l t : nat) (c tc : cell) (key : string) (v : value)
    (rest newProps oldProps : props) (w : world) :
  heap w !! l = Some c ->
  applicable (heap w) newProps oldProps = (key, v) :: rest ->
  v = VNull \/ v = VUndefined ->
  read_cell c key = VRef t -> heap w !! t = Some tc ->
  truthy (read_cell tc "set") = true ->
  exists msg, applyProps (VRef l) newProps oldProps w = (Throw (TypeError msg), w).
Proof.
  intros Hl Hps Hv Hk Ht Hset.
  unfold applyProps. erewrite bind_ok by reflexivity.
  fold (applicable (heap w) newProps oldProps). rewrite Hps.
  cbn [keys map length Nat.eqb negb when forEach apply_entry].
  eexists. erewrite bind_throw; [reflexivity |].
  erewrite bind_throw; [reflexivity |].
  erewrite bind_ok by (eapply run_get; eauto). rewrite Hk.
  destruct (is_Color (VRef t) w) as [rc wc] eqn:Ec.
  assert (Hc : exists b, (rc, wc) = (Ok b, w)).
  { unfold is_Color, read in Ec. inversion Ec. eauto. }
  destruct Hc as (b & Hc). inversion Hc; subst rc wc.
  erewrite bind_ok by exact Ec.
  unfold get_opt. erewrite bind_ok by (eapply run_get; eauto).
  rewrite Hset.
  assert (Hn : exists name, constructor_name (VRef t) w = (Ok name, w)).
  { unfold constructor_name, read. eauto. }
  destruct Hn as (name & Hn). erewrite bind_ok by exact Hn.
  erewrite bind_throw; [reflexivity |].
  destruct Hv as [-> | ->]; reflexivity.
Qed.

(** The theorem on mesh A in a scene: [<mesh position={null} />]. *)
Lemma applyProps_throws_on_nullish_witness :
  exists msg,
    applyProps (field Scenario.mounted Scenario.state1 "camera") [("position", VNull)] []
               Scenario.mounted
    = (Throw (TypeError msg), Scenario.mounted).
Proof.
  assert (E : field Scenario.mounted Scenario.state1 "camera" = VRef 28)
    by (vm_compute; reflexivity).
  rewrite E.
  apply (applyProps_throws_on_nullish 28 25
           (Scenario.cell_at Scenario.mounted 28) (Scenario.cell_at Scenario.mounted 25)
           "position" VNull []).
  - vm_compute; reflexivity.
  - vm_compute; reflexivity.
  - now left.
  - vm_compute; reflexivity.
  - vm_compute; reflexivity.
  - vm_compute; reflexivity.
Defined.

(** ** Property Applier: the busy flag of [commitUpdate] *)

(** [commitUpdate] lowers [instance.busy] only when [applyProps] returns:
    when it throws, the instance stays busy. *)
Theorem commitUpdate_busy (l : nat) (c : cell) (oldProps newProps : props)
    (w w' : world) (r : result unit) :
  heap w !! l = Some c ->
  ~ In "busy" (keys newProps) ->
  commitUpdate (VRef l) oldProps newProps w = (r, w') ->
  field w' (VRef l) "busy" = match r with
                             | Ok _ => VBool false
                             | Throw _ => VBool true
                             end.
Proof.
  intros Hl Hfree. unfold commitUpdate.
  erewrite bind_ok by reflexivity.
  set (w1 := with_heap (alter (write_cell "busy" (VBool true)) l (heap w)) w).
  assert (Hl1 : heap w1 !! l = Some (write_cell "busy" (VBool true) c)).
  { subst w1. cbn [heap with_heap]. rewrite list_lookup_alter_eq, Hl. reflexivity. }
  destruct (applyProps (VRef l) newProps oldProps w1) as [r1 w2] eqn:Happly.
  assert (Hkeys : forall key,
            In key (keys (applicable (heap w1) newProps oldProps)) -> "busy" <> key).
  { intros key Hin <-. apply Hfree. eapply pruneKeys_keys. exact Hin. }
  destruct (applyProps_keeps "busy" (VRef l) newProps oldProps w1 w2 r1
              ltac:(discriminate) ltac:(discriminate) Hkeys Happly l _ Hl1)
    as (c2 & Hl2 & E).
  specialize (E "busy" eq_refl).
  destruct r1 as [[]|e].
  - erewrite bind_ok by exact Happly. intros H. inversion H; subst r w'.
    unfold field. erewrite run_get
      by (cbn [heap with_heap]; rewrite list_lookup_alter_eq, Hl2; reflexivity).
    apply read_write_same.
  - erewrite bind_throw by exact Happly. intros H. inversion H; subst r w'.
    unfold field. rewrite (run_get w2 l c2 "busy" Hl2).
    unfold read_cell. rewrite E. cbn [write_cell c_own]. now rewrite lookup_set_same.
Qed.

(** The theorem on an update that throws: [<mesh position={null} />]
    leaves the camera of the first surface busy. *)
Lemma commitUpdate_busy_witness :
  field (Scenario.run (commitUpdate (VRef 28) [] [("position", VNull)]) Scenario.mounted)
        (VRef 28) "busy" = VBool true.
Proof.
  apply (commitUpdate_busy 28 (Scenario.cell_at Scenario.mounted 28) []
           [("position", VNull)] Scenario.mounted
           (Scenario.run (commitUpdate (VRef 28) [] [("position", VNull)]) Scenario.mounted)
           (Throw (TypeError
              "Cannot read properties of null (reading 'constructor')"))).
  - vm_compute; reflexivity.
  - intros [E|[]]; discriminate.
  - vm_compute; reflexivity.
Defined.

(** ** Property Applier: properties with a [set] method *)

Lemma native_recorded (m : string) (this : value) (args : list value) (w : world) :
  ~ In m acting ->
  native m this args w = (Ok VUndefined, with_trace (trace w ++ [EvCall this m args]) w).
Proof.
  intros H. unfold acting in H. simpl in H.
  assert (E1 : String.eqb m "add" = false) by (apply String.eqb_neq; intuition).
  assert (E2 : String.eqb m "remove" = false) by (apply String.eqb_neq; intuition).
  assert (E3 : String.eqb m "setAnimationLoop" = false) by (apply String.eqb_neq; intuition).
  assert (E4 : String.eqb m "forceContextLoss" = false) by (apply String.eqb_neq; intuition).
  assert (E5 : String.eqb m "addEventListener" = false) by (apply String.eqb_neq; intuition).
  assert (E6 : String.eqb m "removeEventListener" = false)
    by (apply String.eqb_neq; intuition).
  unfold native. rewrite E1. unfold native_leaf. rewrite E2, E3, E4, E5, E6. reflexivity.
Qed.

Lemma instance_of_method (h : list cell) (t : nat) (k : klass) (tc : cell) (m : string) :
  instance_of h t k -> h !! t = Some tc -> In m (k_methods k) ->
  read_cell tc m = VNative m.
Proof.
  intros (tc' & Ht & S & Hown) Ht' Hm. rewrite Ht in Ht'. inversion Ht'; subst tc'.
  unfold read_cell, proto. rewrite (Hown m Hm), S.
  rewrite bool_decide_eq_true_2; [reflexivity |]. now apply list_elem_of_In.
Qed.

Lemma invoke_recorded (w : world) (t : nat) (k : klass) (m : string) (args : list value) :
  instance_of (heap w) t k -> In m (k_methods k) -> ~ In m acting ->
  invoke (VRef t) m args w
  = (Ok tt, with_trace (trace w ++ [EvCall (VRef t) m args]) w).
Proof.
  intros Hk Hm Hplain. pose proof Hk as (tc & Ht & _).
  unfold invoke. erewrite bind_ok by (eapply run_get; eauto).
  rewrite (instance_of_method _ _ _ _ _ Hk Ht Hm). cbn [call].
  erewrite bind_ok by (now apply native_recorded). reflexivity.
Qed.

Lemma instance_of_trace (w : world) (t : nat) (k : klass) (tr : list event) :
  instance_of (heap w) t k -> instance_of (heap (with_trace tr w)) t k.
Proof. exact (fun H => H). Qed.

(** The head of [apply_entry] on a property kept in an instance of [k] with
    a [set] method, up to the comparison of the constructor names. *)
Lemma apply_entry_setter (w : world) (l t : nat) (c : cell) (k : klass) (key : string)
    (v : value) (name : string) :
  heap w !! l = Some c -> read_cell c key = VRef t ->
  instance_of (heap w) t k -> In "set" (k_methods k) ->
  constructor_name v w = (Ok name, w) ->
  apply_entry (VRef l) (key, v) w
  = ((if String.eqb (k_name k) name then invoke (VRef t) "copy" [v]
      else
        isArray ← is_array v;
        if (isArray : bool) then xs ← elements v; invoke (VRef t) "set" xs
        else
          setScalar ← get_opt (VRef t) "setScalar";
          if negb (k_isColor k) && truthy setScalar
          then invoke (VRef t) "setScalar" [v]
          else invoke (VRef t) "set" [v]) ;;
     when (k_isColor k) (invoke (VRef t) "convertSRGBToLinear" [])) w.
Proof.
  intros Hl Hk Hinst Hset Hname. pose proof Hinst as (tc & Ht & S & Hown).
  cbn [apply_entry]. erewrite bind_ok by (eapply run_get; eauto). rewrite Hk.
  assert (Ec : is_Color (VRef t) w = (Ok (k_isColor k), w)).
  { unfold is_Color, read. rewrite Ht. destruct tc as [[] o]; simpl in S; congruence. }
  erewrite bind_ok by exact Ec.
  unfold get_opt at 1. erewrite bind_ok by (eapply run_get; eauto).
  rewrite (instance_of_method _ _ _ _ _ Hinst Ht Hset). cbn [truthy].
  assert (En : constructor_name (VRef t) w = (Ok (k_name k), w)).
  { unfold constructor_name, read. rewrite Ht. destruct tc as [[] o]; simpl in S; congruence. }
  erewrite bind_ok by exact En.
  erewrite bind_ok by exact Hname. reflexivity.
Qed.

Lemma field_with_trace (w : world) (tr : list event) (v : value) (key : string) :
  field (with_trace tr w) v key = field w v key.
Proof. now apply field_heap. Qed.

Lemma field_live (w : world) (l : nat) (c : cell) (key : string) :
  heap w !! l = Some c -> field w (VRef l) key = read_cell c key.
Proof. intros H. unfold field. now rewrite (run_get w l c key H). Qed.

(** A number given for a property kept in a vector ([scale={1}]) is
    applied with one call of [setScalar] on the vector and nothing else;
    the property itself is not reassigned and still holds the vector.  (The
    call is recorded with its receiver and argument: what it writes on the
    vector is three.js's.) *)
Theorem applyProps_scalar_shorthand (w : world) (l t : nat) (c : cell) (k : klass)
    (key : string) (n : Z) :
  heap w !! l = Some c -> read_cell c key = VRef t -> l <> t ->
  instance_of (heap w) t k ->
  In "set" (k_methods k) -> In "setScalar" (k_methods k) ->
  k_isColor k = false -> k_name k <> "Number" ->
  exists w',
    apply_entry (VRef l) (key, VNum n) w = (Ok tt, w') /\
    trace w' = trace w ++ [EvCall (VRef t) "setScalar" [VNum n]] /\
    field w' (VRef l) key = VRef t.
Proof.
  intros Hl Hk _ Hinst Hset Hscalar Hcolor Hname.
  pose proof Hinst as (tc & Ht & _).
  rewrite (apply_entry_setter w l t c k key (VNum n) "Number")
    by first [assumption | reflexivity].
  apply String.eqb_neq in Hname. rewrite Hname, Hcolor.
  erewrite bind_ok.
  2:{ erewrite bind_ok by reflexivity. cbn beta iota.
      unfold get_opt. erewrite bind_ok by (eapply run_get; eauto).
      rewrite (instance_of_method _ _ _ _ _ Hinst Ht Hscalar). cbn [negb andb truthy].
      apply (invoke_recorded w t k "setScalar"); [assumption | assumption |].
      unfold acting. simpl. intuition discriminate. }
  eexists. split; [reflexivity |]. split; [reflexivity |].
  rewrite field_with_trace, (field_live w l c key Hl). exact Hk.
Qed.

(** The theorem on the camera of the first surface: [scale={2}]. *)
Lemma applyProps_scalar_shorthand_witness :
  exists w',
    apply_entry (VRef 28) ("scale", VNum 2) Scenario.mounted = (Ok tt, w') /\
    trace w' = trace Scenario.mounted ++ [EvCall (VRef 27) "setScalar" [VNum 2]] /\
    field w' (VRef 28) "scale" = VRef 27.
Proof.
  apply (applyProps_scalar_shorthand Scenario.mounted 28 27
           (Scenario.cell_at Scenario.mounted 28) THREE.Vector3).
  - vm_compute; reflexivity.
  - vm_compute; reflexivity.
  - discriminate.
  - exists (Scenario.cell_at Scenario.mounted 27).
    split; [vm_compute; reflexivity |]. split; [vm_compute; reflexivity |].
    intros m [<-|[<-|[<-|[]]]]; vm_compute; reflexivity.
  - simpl; auto.
  - simpl; auto.
  - reflexivity.
  - discriminate.
Defined.

(** A colour given as a string or a number is applied with [set], never
    with [setScalar], and converted from sRGB afterwards: two calls on the
    colour, in this order; the property still holds the colour object. *)
Theorem applyProps_color (w : world) (l t : nat) (c : cell) (k : klass)
    (key : string) (v : value) :
  heap w !! l = Some c -> read_cell c key = VRef t -> l <> t ->
  instance_of (heap w) t k ->
  In "set" (k_methods k) -> In "convertSRGBToLinear" (k_methods k) ->
  k_isColor k = true -> k_name k <> "Number" -> k_name k <> "String" ->
  (exists s, v = VStr s) \/ (exists n, v = VNum n) ->
  exists w',
    apply_entry (VRef l) (key, v) w = (Ok tt, w') /\
    trace w' = trace w ++ [EvCall (VRef t) "set" [v];
                           EvCall (VRef t) "convertSRGBToLinear" []] /\
    field w' (VRef l) key = VRef t.
Proof.
  intros Hl Hk _ Hinst Hset Hconv Hcolor Hnum Hstr Hv.
  pose proof Hinst as (tc & Ht & _).
  assert (Hname : exists name, constructor_name v w = (Ok name, w) /\
                               String.eqb (k_name k) name = false /\
                               is_array v w = (Ok false, w)).
  { destruct Hv as [(s & ->)|(n & ->)].
    - exists "String". repeat split. now apply String.eqb_neq.
    - exists "Number". repeat split. now apply String.eqb_neq. }
  destruct Hname as (name & Hname & Hne & Harr).
  rewrite (apply_entry_setter w l t c k key v name) by assumption.
  rewrite Hne, Hcolor.
  erewrite bind_ok.
  2:{ erewrite bind_ok by exact Harr. cbn beta iota.
      erewrite bind_ok by apply get_opt_field. cbn [negb andb].
      apply (invoke_recorded w t k "set"); [assumption | assumption |].
      unfold acting. simpl. intuition discriminate. }
  cbn [when].
  erewrite (invoke_recorded _ t k "convertSRGBToLinear");
    [| exact Hinst | assumption | unfold acting; simpl; intuition discriminate].
  eexists. split; [reflexivity |]. split.
  - cbn [trace with_trace]. now rewrite <- app_assoc.
  - rewrite !field_with_trace, (field_live w l c key Hl). exact Hk.
Qed.

(** The theorem on a material: [<meshBasicMaterial color="hotpink" />]. *)
Lemma applyProps_color_witness :
  exists w',
    apply_entry Palette.basic ("color", VStr "hotpink") Palette.studio = (Ok tt, w') /\
    trace w' = trace Palette.studio ++
               [EvCall Palette.color "set" [VStr "hotpink"];
                EvCall Palette.color "convertSRGBToLinear" []] /\
    field w' Palette.basic "color" = Palette.color.
Proof.
  apply (applyProps_color Palette.studio 48 47 (Scenario.cell_at Palette.studio 48)
           THREE.Color "color" (VStr "hotpink")).
  - vm_compute; reflexivity.
  - vm_compute; reflexivity.
  - discriminate.
  - exists (Scenario.cell_at Palette.studio 47).
    split; [vm_compute; reflexivity |]. split; [vm_compute; reflexivity |].
    intros m [<-|[<-|[<-|[<-|[]]]]]; vm_compute; reflexivity.
  - simpl; auto.
  - simpl; auto.
  - reflexivity.
  - discriminate.
  - discriminate.
  - left. eauto.
Defined.

(** An array given for a property kept in a vector
    ([position={[10, 10, 10]}]) is spread into one call of [set] on the
    vector; the property still holds the vector. *)
Theorem applyProps_array_spread (w : world) (l t a : nat) (c ca : cell) (k : klass)
    (key : string) (xs : list value) :
  heap w !! l = Some c -> read_cell c key = VRef t -> l <> t ->
  instance_of (heap w) t k -> In "set" (k_methods k) ->
  k_isColor k = false -> k_name k <> "Array" ->
  heap w !! a = Some ca -> c_shape ca = SArray xs ->
  exists w',
    apply_entry (VRef l) (key, VRef a) w = (Ok tt, w') /\
    trace w' = trace w ++ [EvCall (VRef t) "set" xs] /\
    field w' (VRef l) key = VRef t.
Proof.
  intros Hl Hk _ Hinst Hset Hcolor Hname Ha Sa.
  assert (Hn : constructor_name (VRef a) w = (Ok "Array", w)).
  { unfold constructor_name, read. rewrite Ha. destruct ca as [[] o]; simpl in Sa; congruence. }
  assert (Harr : is_array (VRef a) w = (Ok true, w)).
  { unfold is_array, read. rewrite Ha. destruct ca as [[] o]; simpl in Sa; congruence. }
  rewrite (apply_entry_setter w l t c k key (VRef a) "Array") by assumption.
  apply String.eqb_neq in Hname. rewrite Hname, Hcolor.
  erewrite bind_ok.
  2:{ erewrite bind_ok by exact Harr. cbn beta iota.
      erewrite bind_ok by (eapply run_elements; eauto).
      apply (invoke_recorded w t k "set"); [assumption | assumption |].
      unfold acting. simpl. intuition discriminate. }
  eexists. split; [reflexivity |]. split; [reflexivity |].
  rewrite field_with_trace, (field_live w l c key Hl). exact Hk.
Qed.

(** The theorem on the camera of the first surface:
    [position={[10, 10, 10]}]. *)
Lemma applyProps_array_spread_witness :
  exists w',
    apply_entry (VRef 28) ("position", Palette.triple) Palette.studio = (Ok tt, w') /\
    trace w' = trace Palette.studio ++
               [EvCall (VRef 25) "set" [VNum 10; VNum 10; VNum 10]] /\
    field w' (VRef 28) "position" = VRef 25.
Proof.
  apply (applyProps_array_spread Palette.studio 28 25 46
           (Scenario.cell_at Palette.studio 28) (Scenario.cell_at Palette.studio 46)
           THREE.Vector3).
  - vm_compute; reflexivity.
  - vm_compute; reflexivity.
  - discriminate.
  - exists (Scenario.cell_at Palette.studio 25).
    split; [vm_compute; reflexivity |]. split; [vm_compute; reflexivity |].
    intros m [<-|[<-|[<-|[]]]]; vm_compute; reflexivity.
  - simpl; auto.
  - reflexivity.
  - discriminate.
  - vm_compute; reflexivity.
  - vm_compute; reflexivity.
Defined.

(** ** Scene Mutator: insertBefore without the sibling *)

Lemma indexOf_lower (x : value) (xs : list value) : (-1 <= indexOf x xs)%Z.
Proof.
  induction xs as [|y ys IH]; cbn [indexOf]; [lia |].
  destruct (strict_eq y x); [lia |].
  destruct (Z.ltb_spec (indexOf x ys) 0); lia.
Qed.

Lemma position_absent (x : value) (xs : list value) :
  position x xs = None -> indexOf x xs = (-1)%Z.
Proof.
  unfold position. pose proof (indexOf_lower x xs).
  destruct (Z.ltb_spec (indexOf x xs) 0); [lia | discriminate].
Qed.

Lemma slice_but_last {A} (xs : list A) : slice xs 0 (-1) = take (length xs - 1) xs.
Proof.
  unfold slice, relative. cbn [Z.ltb Z.compare].
  rewrite Z.min_l by lia. rewrite Z.sub_0_r. cbn [Z.to_nat drop].
  f_equal. lia.
Qed.

Lemma slice_from_last {A} (xs : list A) : slice_from xs (-1) = drop (length xs - 1) xs.
Proof.
  unfold slice_from, slice, relative. cbn [Z.ltb Z.compare].
  destruct (Z.ltb_spec (Z.of_nat (length xs)) 0); [lia |].
  rewrite Z.min_l by lia.
  replace (Z.to_nat (Z.max (Z.of_nat (length xs) + -1) 0)) with (length xs - 1) by lia.
  apply take_ge. rewrite length_drop. lia.
Qed.

(** What [insertBefore] leaves in [parentInstance.children], whatever
    [beforeChild] is. *)
Lemma insertBefore_splices (w : world) (p c a : nat) (pc cc ca : cell)
    (xs : list value) (beforeChild : value) :
  p <> c -> a <> c ->
  heap w !! p = Some pc -> heap w !! c = Some cc -> heap w !! a = Some ca ->
  c_shape ca = SArray xs ->
  read_cell pc "children" = VRef a ->
  read_cell cc "dispatchEvent" = VNative "dispatchEvent" ->
  exists w',
    insertBefore (VRef p) (VRef c) beforeChild w = (Ok tt, w') /\
    array_in w' (VRef p) "children"
    = slice xs 0 (indexOf beforeChild xs) ++ [VRef c]
      ++ slice_from xs (indexOf beforeChild xs) /\
    field w' (VRef c) "parent" = VRef p /\
    trace w' = trace w ++ [EvCall (VRef c) "dispatchEvent" [VStr "added"]].
Proof.
  intros Hpc Hac Hp Hc Ha Sa Hch Hdisp.
  assert (Hplt : p < length (heap w)) by (eapply lookup_lt_Some; eauto).
  assert (Hclt : c < length (heap w)) by (eapply lookup_lt_Some; eauto).
  eexists. split; [| split; [| split]].
  - unfold insertBefore. cbn [truthy negb].
    erewrite bind_ok by reflexivity.
    erewrite bind_ok by (eapply run_get; lookup). rewrite Hch.
    erewrite bind_ok by (eapply run_elements; [lookup | eassumption]).
    erewrite bind_ok by reflexivity.
    erewrite bind_ok by reflexivity.
    eapply run_dispatch_logged.
    + cbn [heap with_heap]. rewrite list_lookup_alter_ne by congruence.
      rewrite lookup_app_l by (rewrite length_alter; lia).
      rewrite list_lookup_alter_eq, Hc. reflexivity.
    + rewrite read_write_other by discriminate. assumption.
  - eapply array_in_live.
    + cbn [heap with_heap with_trace]. rewrite list_lookup_alter_eq.
      rewrite lookup_app_l by (rewrite length_alter; lia).
      rewrite list_lookup_alter_ne, Hp by congruence. reflexivity.
    + apply read_write_same.
    + cbn [heap with_heap with_trace]. rewrite list_lookup_alter_ne
        by (rewrite length_alter; lia).
      rewrite lookup_app_r by (rewrite length_alter; lia).
      rewrite length_alter, Nat.sub_diag. reflexivity.
    + reflexivity.
  - unfold field. erewrite run_get.
    2:{ cbn [heap with_heap with_trace]. rewrite list_lookup_alter_ne by congruence.
        rewrite lookup_app_l by (rewrite length_alter; lia).
        rewrite list_lookup_alter_eq, Hc. reflexivity. }
    apply read_write_same.
  - reflexivity.
Qed.

(** When [beforeChild] is not among the children, [indexOf] answers -1 and
    the two slices put the child before the last child, not at the end; on
    an empty list the child is the only child. *)
Theorem insertBefore_absent_sibling (w : world) (p c a : nat) (pc cc ca : cell)
    (xs : list value) (beforeChild : value) :
  p <> c -> a <> c ->
  heap w !! p = Some pc -> heap w !! c = Some cc -> heap w !! a = Some ca ->
  c_shape ca = SArray xs ->
  read_cell pc "children" = VRef a ->
  read_cell cc "dispatchEvent" = VNative "dispatchEvent" ->
  position beforeChild xs = None ->
  exists w',
    insertBefore (VRef p) (VRef c) beforeChild w = (Ok tt, w') /\
    array_in w' (VRef p) "children"
    = take (length xs - 1) xs ++ VRef c :: drop (length xs - 1) xs.
Proof.
  intros Hpc Hac Hp Hc Ha Sa Hch Hdisp Habs.
  destruct (insertBefore_splices w p c a pc cc ca xs beforeChild)
    as (w' & Hrun & Harr & _); try assumption.
  exists w'. split; [exact Hrun |].
  rewrite Harr, (position_absent _ _ Habs), slice_but_last, slice_from_last. reflexivity.
Qed.

(** The theorem on the group holding mesh A: the bare mesh inserted before
    mesh B, which is no child of the group, lands before mesh A. *)
Lemma insertBefore_absent_sibling_witness :
  exists w',
    insertBefore Scenario.group Scenario.bare Scenario.meshB
      (Scenario.run (appendChild Scenario.group Scenario.meshA) Scenario.stage)
    = (Ok tt, w') /\
    array_in w' Scenario.group "children" = [Scenario.bare; Scenario.meshA].
Proof.
  pose (w := Scenario.run (appendChild Scenario.group Scenario.meshA) Scenario.stage).
  destruct (insertBefore_absent_sibling w 0 12 1
              (Scenario.cell_at w 0) (Scenario.cell_at w 12) (Scenario.cell_at w 1)
              [Scenario.meshA] Scenario.meshB)
    as (w' & Hrun & Harr).
  - discriminate.
  - discriminate.
  - vm_compute; reflexivity.
  - vm_compute; reflexivity.
  - vm_compute; reflexivity.
  - vm_compute; reflexivity.
  - vm_compute; reflexivity.
  - vm_compute; reflexivity.
  - vm_compute; reflexivity.
  - exists w'. split; [exact Hrun | exact Harr].
Defined.

(** With [beforeChild] among the children at position [i], the child is
    put right before it, every child that was there is kept, the child's
    [parent] is the parent instance and ['added'] is dispatched on it. *)
Theorem insertBefore_before_sibling (w : world) (p c a i : nat) (pc cc ca : cell)
    (xs : list value) (beforeChild : value) :
  p <> c -> a <> c ->
  heap w !! p = Some pc -> heap w !! c = Some cc -> heap w !! a = Some ca ->
  c_shape ca = SArray xs ->
  read_cell pc "children" = VRef a ->
  read_cell cc "dispatchEvent" = VNative "dispatchEvent" ->
  position beforeChild xs = Some i ->
  exists w',
    insertBefore (VRef p) (VRef c) beforeChild w = (Ok tt, w') /\
    array_in w' (VRef p) "children" = take i xs ++ VRef c :: drop i xs /\
    field w' (VRef c) "parent" = VRef p /\
    trace w' = trace w ++ [EvCall (VRef c) "dispatchEvent" [VStr "added"]].
Proof.
  intros Hpc Hac Hp Hc Ha Sa Hch Hdisp Hpos.
  destruct (position_bound _ _ _ Hpos) as [Hidx Hlt].
  destruct (insertBefore_splices w p c a pc cc ca xs beforeChild)
    as (w' & Hrun & Harr & Hpar & Htr); try assumption.
  exists w'. split; [exact Hrun |]. split; [| split; assumption].
  rewrite Harr, Hidx, slice_take, slice_from_drop by lia. reflexivity.
Qed.

(** The theorem on the group holding mesh A: the bare mesh inserted before
    mesh A. *)
Lemma insertBefore_before_sibling_witness :
  exists w',
    insertBefore Scenario.group Scenario.bare Scenario.meshA
      (Scenario.run (appendChild Scenario.group Scenario.meshA) Scenario.stage)
    = (Ok tt, w') /\
    array_in w' Scenario.group "children" = [Scenario.bare; Scenario.meshA] /\
    field w' Scenario.bare "parent" = Scenario.group.
Proof.
  pose (w := Scenario.run (appendChild Scenario.group Scenario.meshA) Scenario.stage).
  destruct (insertBefore_before_sibling w 0 12 1 0
              (Scenario.cell_at w 0) (Scenario.cell_at w 12) (Scenario.cell_at w 1)
              [Scenario.meshA] Scenario.meshA)
    as (w' & Hrun & Harr & Hpar & _).
  - discriminate.
  - discriminate.
  - vm_compute; reflexivity.
  - vm_compute; reflexivity.
  - vm_compute; reflexivity.
  - vm_compute; reflexivity.
  - vm_compute; reflexivity.
  - vm_compute; reflexivity.
  - vm_compute; reflexivity.
  - exists w'. split; [exact Hrun |]. split; [exact Harr | exact Hpar].
Defined.

(** ** Scene Mutator: what removeChild leaves of the child *)

Lemma keys_delete_prop (key key' : string) (o : props) :
  In key' (keys (delete_prop key o)) -> In key' (keys o) /\ key' <> key.
Proof.
  unfold keys. induction o as [|[k v] o IH]; cbn [delete_prop map]; [intros [] |].
  destruct (String.eqb_spec k key) as [->|Hne].
  - intros H. destruct (IH H). split; [now right | assumption].
  - cbn [map fst In]. intros [<-|H].
    + split; [now left | assumption].
    + destruct (IH H). split; [now right | assumption].
Qed.

Lemma erase_all (ks : list string) (c : cell) :
  (forall key, In key (keys (c_own c)) -> In key ks) ->
  c_own (fold_left (fun c key => erase_cell key c) ks c) = [].
Proof.
  revert c. induction ks as [|k ks IH]; intros c Hsub; cbn [fold_left].
  - destruct (c_own c) as [|[k v] o]; [reflexivity |].
    exfalso. apply (Hsub k). now left.
  - apply IH. intros key Hin. cbn [erase_cell c_own] in Hin.
    apply keys_delete_prop in Hin. destruct Hin as [Hin Hne].
    destruct (Hsub key Hin) as [E|H]; [congruence | assumption].
Qed.

(** The [for ... in] loop of [removeChild] deletes the listed properties of
    the child, one after the other. *)
Lemma dispose_properties_cell (c : nat) (ks : list string) (w : world) (cc : cell) :
  heap w !! c = Some cc ->
  exists w1,
    forEach (fun property : string =>
      dispose ← get (VStr property) "dispose";
      when (truthy dispose) (invoke (VStr property) "dispose" []) ;;
      delete_ (VRef c) property) ks w = (Ok tt, w1) /\
    heap w1 !! c = Some (fold_left (fun c key => erase_cell key c) ks cc).
Proof.
  revert w cc. induction ks as [|k ks IH]; intros w cc Hc.
  - exists w. split; [reflexivity | exact Hc].
  - cbn [forEach]. erewrite bind_ok by reflexivity.
    destruct (IH (with_heap (alter (erase_cell k) c (heap w)) w) (erase_cell k cc))
      as (w1 & Hrun & Hcell).
    + cbn [heap with_heap]. rewrite list_lookup_alter_eq, Hc. reflexivity.
    + exists w1. split; [exact Hrun | exact Hcell].
Qed.

Lemma respects_live {A} (m : M A) (w w' : world) (r : result A) (l : nat) (c : cell)
    (key : string) :
  respects (eq key) m -> m w = (r, w') -> heap w !! l = Some c ->
  exists c', heap w' !! l = Some c' /\ lookup_prop key (c_own c') = lookup_prop key (c_own c).
Proof.
  intros Hm Hrun Hl. destruct (Hm w r w' Hrun l c Hl) as (c' & Hc' & E).
  exists c'. split; [assumption |]. now apply E.
Qed.

(** A type that is not ['Scene'] stays so while the property [type] does. *)
Lemma not_Scene (c c' : cell) :
  lookup_prop "type" (c_own c') = lookup_prop "type" (c_own c) ->
  read_cell c "type" <> VStr "Scene" ->
  strict_eq (read_cell c' "type") (VStr "Scene") = false.
Proof.
  intros E H. unfold read_cell in *. rewrite E.
  destruct (lookup_prop "type" (c_own c)) as [v|].
  - destruct (strict_eq v (VStr "Scene")) eqn:Eq; [| reflexivity].
    apply strict_eq_true in Eq. contradiction.
  - unfold proto. destruct (c_shape c') as [k|ys|fu]; try reflexivity.
    destruct (bool_decide ("type" ∈ k_methods k)); reflexivity.
Qed.

Lemma attaches_pure (parentInstance child : value) (w w' : world) (r : result bool) :
  attaches parentInstance child w = (r, w') -> w' = w.
Proof.
  unfold attaches, mbind, M_bind.
  destruct (get child "attach" w) as [[attach|e] w1] eqn:E1.
  - assert (w1 = w) as -> by (destruct child; inversion E1; reflexivity).
    destruct (truthy attach).
    + destruct (get parentInstance (to_key attach) w) as [[slot|e] w2] eqn:E2.
      * assert (w2 = w) as -> by (destruct parentInstance; inversion E2; reflexivity).
        intros H. inversion H. reflexivity.
      * assert (w2 = w) as -> by (destruct parentInstance; inversion E2; reflexivity).
        intros H. inversion H. reflexivity.
    + intros H. inversion H. reflexivity.
  - assert (w1 = w) as -> by (destruct child; inversion E1; reflexivity).
    intros H. inversion H. reflexivity.
Qed.

(** The first half of [removeChild], taking the child off its parent,
    writes [parent] and the slot named by [child.attach], nothing else. *)
Lemma detach_respects (P : string -> Prop) (parentInstance : value) (c : nat) (cc : cell)
    (attached : bool) (w w1 : world) (r : result unit) :
  ~ P "parent" -> ~ P (to_key (read_cell cc "attach")) ->
  heap w !! c = Some cc ->
  (if attached then
     attach ← get (VRef c) "attach";
     set parentInstance (to_key attach) VNull
   else invoke parentInstance "remove" [VRef c]) w = (r, w1) ->
  preserved P w w1.
Proof.
  intros Hparent Hslot Hc. destruct attached.
  - erewrite bind_ok by (eapply run_get; eauto).
    intros H. eapply respects_set; eauto.
  - intros H. eapply respects_invoke; eauto.
Qed.

(** When [removeChild] returns, a child whose [type] is not ['Scene'] has
    no enumerable property of its own left: [uuid], [type], [children] and
    [__handlers] are deleted with every other property the [for ... in]
    loop visits.  ([c_own] is the enumerable own properties.) *)
Theorem removeChild_empties_child (w w' : world) (parentInstance : value) (c : nat)
    (cc : cell) :
  heap w !! c = Some cc ->
  read_cell cc "type" <> VStr "Scene" ->
  to_key (read_cell cc "attach") <> "type" ->
  removeChild parentInstance (VRef c) w = (Ok tt, w') ->
  exists cc', heap w' !! c = Some cc' /\ c_own cc' = [].
Proof.
  intros Hc Htype Hslot. unfold removeChild. cbn [truthy negb].
  intros Hrun. apply bind_inv in Hrun. destruct Hrun as (attached & wa & Ha & Hrun).
  apply attaches_pure in Ha. subst wa.
  apply bind_inv in Hrun. destruct Hrun as ([] & w1 & Hdetach & Hdispose).
  pose proof (detach_respects (eq "type") parentInstance c cc attached w w1 (Ok tt)
                ltac:(discriminate) ltac:(congruence) Hc Hdetach c cc Hc)
    as (c1 & Hc1 & E1).
  specialize (E1 "type" eq_refl).
  unfold dispose_element in Hdispose.
  erewrite bind_ok in Hdispose by (eapply run_get; eauto).
  rewrite (not_Scene cc c1 E1 Htype) in Hdispose. cbn [negb] in Hdispose.
  erewrite bind_ok in Hdispose by (eapply run_get; eauto).
  apply bind_inv in Hdispose. destruct Hdispose as ([] & w2 & Hcall & Hloop).
  assert (R : respects (eq "type")
                (when (truthy (read_cell c1 "dispose")) (invoke (VRef c) "dispose" []))).
  { apply respects_when. apply respects_invoke. discriminate. }
  destruct (respects_live _ _ _ _ _ _ _ R Hcall Hc1) as (c2 & Hc2 & _).
  unfold enumerate in Hloop. erewrite bind_ok in Hloop by reflexivity.
  cbn beta in Hloop. rewrite Hc2 in Hloop.
  destruct (dispose_properties_cell c (keys (c_own c2)) w2 c2 Hc2) as (w3 & Hrun3 & Hc3).
  rewrite Hrun3 in Hloop. inversion Hloop; subst w3.
  eexists. split; [exact Hc3 |]. apply erase_all. auto.
Qed.

(** The theorem on mesh A taken off the group. *)
Lemma removeChild_empties_child_witness :
  exists cc',
    heap (Scenario.run (removeChild Scenario.group Scenario.meshA)
            (Scenario.run (appendChild Scenario.group Scenario.meshA) Scenario.stage))
      !! 2 = Some cc' /\ c_own cc' = [].
Proof.
  pose (w := Scenario.run (appendChild Scenario.group Scenario.meshA) Scenario.stage).
  apply (removeChild_empties_child w
           (Scenario.run (removeChild Scenario.group Scenario.meshA) w)
           Scenario.group 2 (Scenario.cell_at w 2)).
  - vm_compute; reflexivity.
  - vm_compute; discriminate.
  - vm_compute; discriminate.
  - vm_compute; reflexivity.
Defined.

(** A child whose [type] is ['Scene'] is taken off its parent and not
    disposed of: whatever [removeChild] returns, the child keeps every
    property but [parent] and the slot its [attach] names. *)
Theorem removeChild_spares_scene (w w' : world) (parentInstance : value) (c : nat)
    (cc : cell) (r : result unit) :
  heap w !! c = Some cc ->
  lookup_prop "type" (c_own cc) = Some (VStr "Scene") ->
  to_key (read_cell cc "attach") <> "type" ->
  removeChild parentInstance (VRef c) w = (r, w') ->
  exists cc', heap w' !! c = Some cc' /\
    forall key, key <> "parent" -> key <> to_key (read_cell cc "attach") ->
      lookup_prop key (c_own cc') = lookup_prop key (c_own cc).
Proof.
  intros Hc Htype Hslot. unfold removeChild. cbn [truthy negb].
  set (P := fun key : string => key <> "parent" /\ key <> to_key (read_cell cc "attach")).
  assert (Hparent : ~ P "parent") by (intros [H _]; congruence).
  assert (Hattach : ~ P (to_key (read_cell cc "attach"))) by (intros [_ H]; congruence).
  unfold mbind at 1, M_bind at 1.
  destruct (attaches parentInstance (VRef c) w) as [[attached|e] wa] eqn:Ea;
    apply attaches_pure in Ea; subst wa.
  - unfold mbind at 1, M_bind at 1.
    match goal with
    | |- context [match ?m w with _ => _ end] => destruct (m w) as [[[]|e] w1] eqn:Ed
    end.
    + destruct (detach_respects P parentInstance c cc attached w w1 (Ok tt)
                  Hparent Hattach Hc Ed c cc Hc) as (c1 & Hc1 & E1).
      unfold dispose_element. erewrite bind_ok by (eapply run_get; eauto).
      assert (Ht : read_cell c1 "type" = VStr "Scene").
      { unfold read_cell. rewrite E1, Htype; [reflexivity |].
        split; [discriminate | congruence]. }
      rewrite Ht. cbn. intros H. inversion H; subst r w'.
      exists c1. split; [assumption |]. intros key H1 H2. apply E1. now split.
    + destruct (detach_respects P parentInstance c cc attached w w1 (Throw e)
                  Hparent Hattach Hc Ed c cc Hc) as (c1 & Hc1 & E1).
      intros H. inversion H; subst r w'.
      exists c1. split; [assumption |]. intros key H1 H2. apply E1. now split.
  - intros H. inversion H; subst r w'. exists cc. split; [assumption | reflexivity].
Qed.

(** The theorem on the scene of the first surface, taken off the group it
    was never a child of. *)
Lemma removeChild_spares_scene_witness :
  exists cc',
    heap (Scenario.run (removeChild Scenario.group (VRef 33)) Scenario.mounted) !! 33
    = Some cc' /\
    lookup_prop "children" (c_own cc') = Some (VRef 29).
Proof.
  destruct (removeChild_spares_scene Scenario.mounted
              (Scenario.run (removeChild Scenario.group (VRef 33)) Scenario.mounted)
              Scenario.group 33 (Scenario.cell_at Scenario.mounted 33) (Ok tt))
    as (cc' & Hc & E).
  - vm_compute; reflexivity.
  - vm_compute; reflexivity.
  - vm_compute; discriminate.
  - vm_compute; reflexivity.
  - exists cc'. split; [exact Hc |]. rewrite E.
    + vm_compute; reflexivity.
    + discriminate.
    + vm_compute; discriminate.
Defined.

(** ** Scene Mutator: an attach that names no slot *)

(** A child whose [attach] names a property the parent does not have is
    handed to [parent.add].  When the child is no [Object3D] (a geometry, a
    material), three.js rejects it with a console error: the child is
    neither attached nor added, and [appendChild] returns as if it were. *)
Theorem appendChild_unknown_slot (w : world) (p c : nat) (pc cc : cell) (a : string)
    (kc : klass) :
  p <> c ->
  heap w !! p = Some pc -> heap w !! c = Some cc ->
  read_cell cc "attach" = VStr a -> a <> "" ->
  read_cell pc a = VUndefined ->
  read_cell pc "add" = VNative "add" ->
  c_shape cc = SObject kc -> k_isObject3D kc = false ->
  exists w',
    appendChild (VRef p) (VRef c) w = (Ok tt, w') /\ heap w' = heap w /\
    trace w' = trace w ++
      [EvCall (VRef p) "add" [VRef c];
       EvConsoleError "THREE.Object3D.add: object not an instance of THREE.Object3D."].
Proof.
  intros Hpc Hp Hc Hattach Ha Hslot Hadd Sc K.
  assert (Htruthy : truthy (VStr a) = true).
  { destruct a; [congruence | reflexivity]. }
  assert (Hne : strict_eq (VRef c) (VRef p) = false).
  { simpl. apply Nat.eqb_neq. congruence. }
  eexists. split; [| split].
  - unfold appendChild. cbn [truthy negb].
    erewrite bind_ok.
    2:{ unfold attaches. erewrite bind_ok by (eapply run_get; eauto).
        rewrite Hattach, Htruthy. cbn [to_key].
        erewrite bind_ok by (eapply run_get; eauto). rewrite Hslot. reflexivity. }
    cbn [strict_eq negb]. unfold invoke.
    erewrite bind_ok by (eapply run_get; eauto). rewrite Hadd.
    cbn [call]. unfold native. cbn [String.eqb Ascii.eqb Bool.eqb].
    erewrite bind_ok.
    2:{ erewrite bind_ok by reflexivity. cbn [arg nth].
        erewrite bind_ok.
        2:{ unfold Object3D_add. rewrite Hne.
            erewrite bind_ok by (eapply run_is_Object3D; eauto). rewrite K.
            cbn [truthy andb]. reflexivity. }
        reflexivity. }
    reflexivity.
  - reflexivity.
  - cbn [trace with_trace]. now rewrite <- app_assoc.
Qed.

(** The theorem on the box geometry given [attach="shape"] and appended to
    mesh A. *)
Lemma appendChild_unknown_slot_witness :
  exists w',
    appendChild Scenario.meshA Scenario.boxGeometry
      (Scenario.run (set Scenario.boxGeometry "attach" (VStr "shape")) Scenario.stage)
    = (Ok tt, w') /\
    heap w' = heap (Scenario.run (set Scenario.boxGeometry "attach" (VStr "shape"))
                      Scenario.stage).
Proof.
  pose (w := Scenario.run (set Scenario.boxGeometry "attach" (VStr "shape")) Scenario.stage).
  destruct (appendChild_unknown_slot w 2 6 (Scenario.cell_at w 2) (Scenario.cell_at w 6)
              "shape" (THREE.BufferGeometry "BoxGeometry"))
    as (w' & Hrun & Hheap & _).
  - discriminate.
  - vm_compute; reflexivity.
  - vm_compute; reflexivity.
  - vm_compute; reflexivity.
  - discriminate.
  - vm_compute; reflexivity.
  - vm_compute; reflexivity.
  - vm_compute; reflexivity.
  - reflexivity.
  - exists w'. split; [exact Hrun | exact Hheap].
Defined.

(** ** Render Loop: one frame, in order *)

Lemma played_heap (w w' : world) (state ref : value) :
  heap w' = heap w -> played w' state ref = played w state ref.
Proof. intros E. unfold played. now rewrite (field_heap w w' ref "current" E), E. Qed.

Lemma invoke_ref_played (state ref : value) (w : world) :
  (forall m, field w ref "current" <> VNative m) ->
  invoke_ref state ref w = (Ok tt, with_trace (trace w ++ played w state ref) w).
Proof.
  intros Hnat. unfold invoke_ref, played.
  erewrite bind_ok by apply get_opt_field.
  erewrite bind_ok by apply is_function_callable.
  destruct (field w ref "current") as [| | | | | |m|cb] eqn:Hcur;
    try (cbn; now rewrite with_trace_nil).
  - exfalso. apply (Hnat m). reflexivity.
  - cbn [callable]. destruct (heap w !! cb) as [[[k|ys|fu] o]|] eqn:Hcb;
      try (cbn; now rewrite with_trace_nil).
    cbn [when]. unfold call, apply_function. unfold mbind, M_bind. now rewrite Hcb.
Qed.

Lemma subscribers_played (state : value) (xs : list value) (w : world) :
  (forall ref m, In ref xs -> field w ref "current" <> VNative m) ->
  forEach (invoke_ref state) xs w
  = (Ok tt, with_trace (trace w ++ flat_map (played w state) xs) w).
Proof.
  revert w. induction xs as [|ref xs IH]; intros w Hnat.
  - cbn. now rewrite with_trace_nil.
  - cbn [forEach flat_map].
    erewrite bind_ok by (apply invoke_ref_played; intros m; apply Hnat; now left).
    rewrite IH.
    + replace (flat_map (played (with_trace (trace w ++ played w state ref) w) state) xs)
        with (flat_map (played w state) xs)
        by (apply flat_map_ext; intros r; symmetry; now apply played_heap).
      unfold with_trace. cbn [heap roots hovered trace hosts].
      now rewrite <- app_assoc.
    + intros r m Hin. rewrite (field_heap w) by reflexivity. apply Hnat. now right.
Qed.

(** The calls of one frame, the callbacks taken as the calls they are
    recorded as: the functions the refs hold, in the order of the list, then
    [gl.render(scene, camera)]. *)
Lemma frame_calls (w : world) (s a g : nat) (sc ca gc : cell) (xs : list value) :
  heap w !! s = Some sc ->
  read_cell sc "subscribed" = VRef a ->
  heap w !! a = Some ca -> c_shape ca = SArray xs ->
  read_cell sc "gl" = VRef g -> heap w !! g = Some gc ->
  read_cell gc "render" = VNative "render" ->
  (forall ref m, In ref xs -> field w ref "current" <> VNative m) ->
  exists w',
    frame (VRef s) w = (Ok tt, w') /\ heap w' = heap w /\
    trace w' = trace w ++ flat_map (played w (VRef s)) xs ++
               [EvCall (VRef g) "render" [read_cell sc "scene"; read_cell sc "camera"]].
Proof.
  intros Hs Hsub Ha Sa Hgl Hg Hrender Hnat.
  eexists. split; [| split].
  - unfold frame.
    erewrite bind_ok by (eapply run_get; eauto). rewrite Hsub.
    erewrite bind_ok by (eapply run_elements; eauto).
    erewrite bind_ok by (now apply subscribers_played).
    erewrite bind_ok by (eapply run_get; eauto). rewrite Hgl.
    erewrite bind_ok by (eapply run_get; eauto).
    erewrite bind_ok by (eapply run_get; eauto).
    unfold invoke.
    erewrite bind_ok by (eapply run_get; eauto). rewrite Hrender.
    unfold call. erewrite bind_ok by (apply native_logged; auto). reflexivity.
  - reflexivity.
  - cbn [trace with_trace]. now rewrite <- app_assoc.
Qed.

Lemma played_skipped (w : world) (state ref : value) :
  callable (heap w) (field w ref "current") = false -> played w state ref = [].
Proof.
  unfold played, callable. destruct (field w ref "current"); try reflexivity.
  destruct (heap w !! _) as [[[k|ys|fu] o]|]; try reflexivity. discriminate.
Qed.

Lemma played_function (w : world) (state ref : value) (fu : func) :
  plays w ref fu -> played w state ref = [EvApply fu [state]].
Proof.
  intros (cb & c & Hf & Hc & S). unfold played. rewrite Hf, Hc.
  destruct c as [[k|ys|fu'] o]; simpl in S; congruence.
Qed.

Lemma none_played (w : world) (state : value) (xs : list value) :
  (forall r, In r xs -> callable (heap w) (field w r "current") = false) ->
  flat_map (played w state) xs = [].
Proof.
  induction xs as [|x xs IH]; intros H; [reflexivity |].
  cbn [flat_map]. rewrite played_skipped by (apply H; now left).
  apply IH. intros r Hr. apply H. now right.
Qed.

(** How a frame of the render loop starts, whatever the callbacks do once
    they run: the refs at the head of the list whose [current] is no
    function are skipped, and the first call of the frame is the function
    of the first ref that holds one, applied to the state.  When no ref
    holds a function the frame is one call, [gl.render(scene, camera)]. *)
Theorem frame_first_call (w : world) (s a g : nat) (sc ca gc : cell) (xs : list value) :
  heap w !! s = Some sc ->
  read_cell sc "subscribed" = VRef a ->
  heap w !! a = Some ca -> c_shape ca = SArray xs ->
  read_cell sc "gl" = VRef g -> heap w !! g = Some gc ->
  read_cell gc "render" = VNative "render" ->
  (forall ref m, In ref xs -> field w ref "current" <> VNative m) ->
  (forall pre ref post fu,
     xs = pre ++ ref :: post ->
     (forall r, In r pre -> callable (heap w) (field w r "current") = false) ->
     plays w ref fu ->
     exists rest, emitted (frame (VRef s)) w = EvApply fu [VRef s] :: rest)
  /\
  ((forall r, In r xs -> callable (heap w) (field w r "current") = false) ->
   exists w',
     frame (VRef s) w = (Ok tt, w') /\
     trace w' = trace w ++
                [EvCall (VRef g) "render" [read_cell sc "scene"; read_cell sc "camera"]]).
Proof.
  intros Hs Hsub Ha Sa Hgl Hg Hrender Hnat.
  destruct (frame_calls w s a g sc ca gc xs Hs Hsub Ha Sa Hgl Hg Hrender Hnat)
    as (w' & Hrun & _ & Htrace).
  split.
  - intros pre ref post fu -> Hpre Hplays.
    unfold emitted. rewrite Hrun. cbn [snd]. rewrite Htrace, drop_app_length.
    rewrite flat_map_app. cbn [flat_map].
    rewrite (none_played w (VRef s) pre Hpre), (played_function w (VRef s) ref fu Hplays).
    cbn [app]. eauto.
  - intros Hnone. exists w'. split; [exact Hrun |].
    rewrite Htrace. now rewrite (none_played w (VRef s) xs Hnone).
Qed.

(** The theorem on the first surface: with both refs subscribed the frame
    starts with the callback of the first; with no subscriber it is the
    one call of [render]. *)
Lemma frame_first_call_witness :
  (exists rest,
     emitted (frame Scenario.state1) Scenario.animated
     = EvApply (FUser 1) [Scenario.state1] :: rest)
  /\
  (exists w',
     frame Scenario.state1 Scenario.mounted = (Ok tt, w') /\
     trace w' = trace Scenario.mounted ++ [EvCall (VRef 23) "render" [VRef 33; VRef 28]]).
Proof.
  split.
  - destruct (frame_first_call Scenario.animated 22 43 23
                (Scenario.cell_at Scenario.animated 22)
                (Scenario.cell_at Scenario.animated 43)
                (Scenario.cell_at Scenario.animated 23)
                [VRef 19; VRef 20]) as [Hfirst _].
    + vm_compute; reflexivity.
    + vm_compute; reflexivity.
    + vm_compute; reflexivity.
    + vm_compute; reflexivity.
    + vm_compute; reflexivity.
    + vm_compute; reflexivity.
    + vm_compute; reflexivity.
    + intros ref m [<-|[<-|[]]]; vm_compute; discriminate.
    + apply (Hfirst [] (VRef 19) [VRef 20] (FUser 1)).
      * reflexivity.
      * intros r [].
      * exists 9, (fn (FUser 1)). splits; vm_compute; reflexivity.
  - destruct (frame_first_call Scenario.mounted 22 43 23
                (Scenario.cell_at Scenario.mounted 22)
                (Scenario.cell_at Scenario.mounted 43)
                (Scenario.cell_at Scenario.mounted 23)
                []) as [_ Hnone].
    + vm_compute; reflexivity.
    + vm_compute; reflexivity.
    + vm_compute; reflexivity.
    + vm_compute; reflexivity.
    + vm_compute; reflexivity.
    + vm_compute; reflexivity.
    + vm_compute; reflexivity.
    + intros ref m [].
    + destruct Hnone as (w' & Hrun & Htrace); [intros r [] |].
      exists w'. split; [exact Hrun |]. rewrite Htrace. vm_compute; reflexivity.
Defined.

(** ** Render Loop: what one subscribe does *)

(** The subscriber list after one call of [subscribe(ref)]. *)
Lemma subscribe_result (w w' : world) (s a r : nat) (sc ca : cell)
    (ks : klass) (xs : list value) :
  heap w !! s = Some sc -> c_shape sc = SObject ks ->
  read_cell sc "subscribed" = VRef a ->
  heap w !! a = Some ca -> c_shape ca = SArray xs ->
  subscribe (VRef s) (VRef r) w = (Ok tt, w') ->
  array_in w' (VRef s) "subscribed"
  = if includes (VRef r) xs then without (VRef r) xs else xs ++ [VRef r].
Proof.
  intros Hs Ss Hsub Ha Sa Hrun.
  assert (Hsa : s <> a).
  { intros E. subst a. rewrite Hs in Ha. inversion Ha. subst ca. congruence. }
  assert (Hslt : s < length (heap w)) by (eapply lookup_lt_Some; eauto).
  unfold subscribe in Hrun.
  erewrite bind_ok in Hrun by (eapply run_get; eauto). rewrite Hsub in Hrun.
  erewrite bind_ok in Hrun by (eapply run_elements; eauto).
  destruct (includes (VRef r) xs) eqn:Hinc.
  - erewrite bind_ok in Hrun by reflexivity. inversion Hrun; subst w'; clear Hrun.
    eapply array_in_live with (a := length (heap w)).
    + cbn [heap with_heap]. rewrite list_lookup_alter_eq, lookup_app_l, Hs by lia.
      reflexivity.
    + apply read_write_same.
    + cbn [heap with_heap]. rewrite list_lookup_alter_ne by lia.
      rewrite lookup_app_r by lia. rewrite Nat.sub_diag. reflexivity.
    + reflexivity.
  - rewrite (run_update_elements w a ca xs _ Ha Sa) in Hrun.
    inversion Hrun; subst w'; clear Hrun.
    eapply array_in_live with (a := a).
    + cbn [heap with_heap]. rewrite list_lookup_alter_ne, Hs by congruence. reflexivity.
    + assumption.
    + cbn [heap with_heap]. rewrite list_lookup_alter_eq, Ha. reflexivity.
    + eapply shape_store_elements; eauto.
Qed.

(** [subscribe(ref)] toggles the membership of [ref] in the subscriber
    list and of nothing else: afterwards [ref] is in the list exactly when
    it was not before, every other ref is in it exactly when it was, and a
    list that held no ref twice still holds none twice. *)
Theorem subscribe_toggles (w w' : world) (s a r : nat) (sc ca : cell)
    (ks : klass) (xs : list value) :
  heap w !! s = Some sc -> c_shape sc = SObject ks ->
  read_cell sc "subscribed" = VRef a ->
  heap w !! a = Some ca -> c_shape ca = SArray xs ->
  subscribe (VRef s) (VRef r) w = (Ok tt, w') ->
  (In (VRef r) (array_in w' (VRef s) "subscribed") <-> ~ In (VRef r) xs) /\
  (forall other, other <> VRef r ->
     (In other (array_in w' (VRef s) "subscribed") <-> In other xs)) /\
  (List.NoDup xs -> List.NoDup (array_in w' (VRef s) "subscribed")).
Proof.
  intros Hs Ss Hsub Ha Sa Hrun.
  rewrite (subscribe_result w w' s a r sc ca ks xs Hs Ss Hsub Ha Sa Hrun).
  destruct (includes (VRef r) xs) eqn:Hinc.
  - assert (Hin : In (VRef r) xs) by now apply includes_ref.
    split; [| split].
    + split; [intros H; exfalso; revert H; apply not_in_without | tauto].
    + intros other Hother. unfold without. rewrite filter_In. split; [tauto |].
      intros H. split; [assumption |].
      apply Bool.negb_true_iff. apply Bool.not_true_is_false. intros E.
      apply strict_eq_true in E. contradiction.
    + intros Hnd. unfold without. now apply List.NoDup_filter.
  - assert (Hout : ~ In (VRef r) xs).
    { intros Hin. apply includes_ref in Hin. congruence. }
    split; [| split].
    + split; [tauto |]. intros _. apply in_or_app. right. now left.
    + intros other Hother. rewrite in_app_iff. cbn [In]. intuition congruence.
    + intros Hnd. apply List.NoDup_app; [assumption | |].
      * repeat constructor. intros [].
      * intros x Hx [<-|[]]. contradiction.
Qed.

(** The theorem on the first surface with both refs subscribed: the first
    ref toggled off. *)
Lemma subscribe_toggles_witness :
  ~ In (VRef 19)
       (array_in (Scenario.run (subscribe (VRef 22) (VRef 19)) Scenario.animated)
                 (VRef 22) "subscribed") /\
  In (VRef 20)
     (array_in (Scenario.run (subscribe (VRef 22) (VRef 19)) Scenario.animated)
               (VRef 22) "subscribed").
Proof.
  destruct (subscribe_toggles Scenario.animated
              (Scenario.run (subscribe (VRef 22) (VRef 19)) Scenario.animated)
              22 43 19
              (Scenario.cell_at Scenario.animated 22)
              (Scenario.cell_at Scenario.animated 43)
              plain [VRef 19; VRef 20])
    as (Hself & Hothers & _).
  - vm_compute; reflexivity.
  - vm_compute; reflexivity.
  - vm_compute; reflexivity.
  - vm_compute; reflexivity.
  - vm_compute; reflexivity.
  - vm_compute; reflexivity.
  - split.
    + intros H. apply (proj1 Hself) in H. apply H. now left.
    + apply (proj2 (Hothers (VRef 20) ltac:(discriminate))). right. now left.
Defined.

(** ** Event Manager: generic events *)

Lemma dispatch_loop (type : string) (e : value) (intersects : list value) (w : world) :
  Forall (interactive_object (heap w)) intersects ->
  forEach (fun object : value =>
    handlers ← get object "__handlers";
    marked ← mret VUndefined;
    if false && negb (truthy marked) then
      uuid ← get object "uuid";
      modify (fun w => with_hovered (set_prop (to_key uuid) object (hovered w)) w) ;;
      fire handlers "onHover" e ;;
      fire handlers "onPointerOver" e
    else if negb false then fire handlers type e
    else mret tt) intersects w
  = (Ok tt, with_trace (trace w ++ flat_map (dispatched (heap w) type e) intersects) w).
Proof.
  revert w. induction intersects as [|v vs IH]; intros w Hall.
  - cbn. now rewrite with_trace_nil.
  - inversion Hall as [|? ? (o & u & hm & -> & oc & Ho & Hu & Hh & Hm) Hrest]; subst.
    cbn [forEach flat_map].
    erewrite bind_ok.
    2:{ erewrite bind_ok by (eapply run_get; exact Ho). rewrite Hh.
        erewrite bind_ok by reflexivity. cbn [andb negb].
        apply fire_run. exact Hm. }
    rewrite IH by exact Hrest.
    unfold dispatched at 2. rewrite Ho, Hh.
    unfold with_trace. cbn [heap roots hovered trace hosts].
    now rewrite <- app_assoc.
Qed.

(** A generic event, the handlers taken as the calls they are recorded
    as. *)
Lemma handleEvent_generic_run (w : world) (s e : nat) (type : string)
    (intersects : list value) :
  surface (heap w) s ->
  type <> "hoverEvent" ->
  Forall (interactive_object (heap w)) intersects ->
  exists w' evs,
    cast_ray (VRef s) (VRef e) w = (Ok tt, with_trace (trace w ++ evs) w) /\
    handleEvent (VRef s) intersects (VRef e) type w = (Ok intersects, w') /\
    heap w' = heap w /\ hovered w' = hovered w /\
    trace w' = trace w ++ evs ++ flat_map (dispatched (heap w) type (VRef e)) intersects.
Proof.
  intros Hs Htype Hall.
  destruct (cast_ray_run w s e Hs) as (evs & Hcast).
  apply String.eqb_neq in Htype.
  eexists. exists evs. split; [exact Hcast |]. split; [| split; [| split]].
  - unfold handleEvent. erewrite bind_ok by exact Hcast.
    cbv zeta. rewrite Htype.
    erewrite bind_ok by (apply dispatch_loop; exact Hall).
    cbn [when]. erewrite bind_ok by reflexivity. reflexivity.
  - reflexivity.
  - reflexivity.
  - cbn [trace with_trace heap]. now rewrite <- app_assoc.
Qed.

(** A click, double click, pointer-up or pointer-down reaches every
    intersected object, nearest first: what follows the ray cast is each
    object's handler for the event, applied once to the event, in the order
    of the intersections; the intersections are returned and the hovered set
    is left as it was.  The statement is relative to the ray cast (the world
    [w1] it ends in), and the handlers are the ones the objects hold after
    it. *)
Theorem handleEvent_generic (w : world) (s e : nat) (type : string)
    (intersects : list value) :
  surface (heap w) s ->
  type <> "hoverEvent" ->
  Forall (interactive_object (heap w)) intersects ->
  exists w1 w',
    cast_ray (VRef s) (VRef e) w = (Ok tt, w1) /\
    handleEvent (VRef s) intersects (VRef e) type w = (Ok intersects, w') /\
    hovered w' = hovered w1 /\
    trace w' = trace w1 ++ flat_map (dispatched (heap w1) type (VRef e)) intersects.
Proof.
  intros Hs Htype Hall.
  destruct (handleEvent_generic_run w s e type intersects Hs Htype Hall)
    as (w' & evs & Hcast & Hrun & _ & Hhov & Htrace).
  eexists. exists w'. split; [exact Hcast |]. split; [exact Hrun |].
  split; [exact Hhov |]. rewrite Htrace. cbn [trace heap with_trace].
  now rewrite app_assoc.
Qed.

Lemma first_surface : surface (heap Scenario.two_surfaces) 22.
Proof.
  exists (Scenario.cell_at Scenario.two_surfaces 22), 35, 21, 36,
    (Scenario.cell_at Scenario.two_surfaces 36), 33.
  splits; vm_compute; reflexivity.
Qed.

Lemma meshA_listens : listens (heap Scenario.two_surfaces) 2 "A" 71.
Proof.
  exists (Scenario.cell_at Scenario.two_surfaces 2).
  split; [vm_compute; reflexivity |].
  split; [vm_compute; reflexivity |].
  split; [vm_compute; reflexivity |].
  exists (obj plain [("onClick", VRef 9); ("onPointerOut", VRef 10)]).
  split; [vm_compute; reflexivity |].
  intros name. unfold read_cell. cbn [lookup_prop c_own obj].
  destruct (String.eqb "onClick" name).
  - right. exists 9, (fn (FUser 1)), (FUser 1). splits; reflexivity.
  - destruct (String.eqb "onPointerOut" name).
    + right. exists 10, (fn (FUser 2)), (FUser 2). splits; reflexivity.
    + left. reflexivity.
Qed.

(** The theorem on a click over mesh A on the first surface. *)
Lemma handleEvent_generic_witness :
  exists w',
    handleEvent Scenario.state1 [Scenario.meshA] Scenario.mousemove "onClick"
                Scenario.two_surfaces = (Ok [Scenario.meshA], w') /\
    hovered w' = [] /\
    In (EvApply (FUser 1) [Scenario.mousemove]) (trace w').
Proof.
  destruct (handleEvent_generic Scenario.two_surfaces 22 18 "onClick" [Scenario.meshA])
    as (w1 & w' & Hcast & Hrun & Hhov & Htrace).
  - exact first_surface.
  - discriminate.
  - constructor; [| constructor].
    exists 2, "A", 71. split; [reflexivity | exact meshA_listens].
  - assert (E : w1 = Scenario.run (cast_ray (VRef 22) (VRef 18)) Scenario.two_surfaces)
      by (unfold Scenario.run; now rewrite Hcast).
    exists w'. split; [exact Hrun |].
    split; [rewrite Hhov, E; vm_compute; reflexivity |].
    rewrite Htrace. apply in_or_app. right. rewrite E.
    vm_compute. now left.
Defined.

(** ** Event Manager: moving over a hovered object *)



(** ** Event Manager: connect and disconnect *)

Lemma addEventListener_run (w : world) (cv : nat) (cc : cell) (name : string)
    (listener : value) (passive : bool) :
  heap w !! cv = Some cc ->
  read_cell cc "addEventListener" = VNative "addEventListener" ->
  invoke (VRef cv) "addEventListener" [VStr name; listener; VBool passive] w
  = (Ok tt,
     with_hosts
       {| loops := loops (hosts w);
          listeners := if existsb (same_listener (VRef cv) name listener)
                                  (listeners (hosts w))
                       then listeners (hosts w)
                       else listeners (hosts w) ++ [(VRef cv, name, listener)];
          contexts := contexts (hosts w) |}
       (with_trace (trace w ++ [EvCall (VRef cv) "addEventListener"
                                  [VStr name; listener; VBool passive]]) w)).
Proof.
  intros Hcv Hadd. unfold invoke.
  erewrite bind_ok by (eapply run_get; eauto). rewrite Hadd. reflexivity.
Qed.

Lemma removeEventListener_run (w : world) (cv : nat) (cc : cell) (name : string)
    (listener : value) :
  heap w !! cv = Some cc ->
  read_cell cc "removeEventListener" = VNative "removeEventListener" ->
  invoke (VRef cv) "removeEventListener" [VStr name; listener] w
  = (Ok tt,
     with_hosts
       {| loops := loops (hosts w);
          listeners := List.filter
                         (fun e => negb (same_listener (VRef cv) name listener e))
                         (listeners (hosts w));
          contexts := contexts (hosts w) |}
       (with_trace (trace w ++ [EvCall (VRef cv) "removeEventListener"
                                  [VStr name; listener]]) w)).
Proof.
  intros Hcv Hrem. unfold invoke.
  erewrite bind_ok by (eapply run_get; eauto). rewrite Hrem. reflexivity.
Qed.

Lemma fresh_listener (w : world) (target : value) (name : string) (l : nat) :
  registry_live w -> length (heap w) <= l ->
  existsb (same_listener target name (VRef l)) (listeners (hosts w)) = false.
Proof.
  intros Hlive Hl. destruct (existsb _ _) eqn:E; [| reflexivity].
  apply existsb_exists in E. destruct E as (e & Hin & Hsame).
  unfold same_listener in Hsame.
  apply andb_prop in Hsame. destruct Hsame as [_ Hsame].
  apply strict_eq_true in Hsame. specialize (Hlive e l Hin Hsame). lia.
Qed.

(** The loop of [connect] over the event types [ts]. *)
Lemma connect_loop (cv sv : nat) (state : value) (cc : cell)
    (ts : list (string * (string * bool))) (w : world) (svc : cell) :
  cv <> sv ->
  heap w !! cv = Some cc ->
  read_cell cc "addEventListener" = VNative "addEventListener" ->
  read_cell cc "__listeners" = VRef sv ->
  heap w !! sv = Some svc ->
  registry_live w ->
  exists w',
    forEach (fun '(name, (type, passive)) =>
      listener ← alloc (fn (FListener state type));
      invoke (VRef cv) "addEventListener" [VStr name; listener; VBool passive] ;;
      saved ← get (VRef cv) "__listeners";
      set saved name listener) ts w = (Ok tt, w') /\
    (forall l c, l <> sv -> heap w !! l = Some c -> heap w' !! l = Some c) /\
    heap w' !! sv = Some (kept (length (heap w)) ts svc) /\
    listeners (hosts w') = listeners (hosts w) ++ registered cv (length (heap w)) ts /\
    loops (hosts w') = loops (hosts w) /\ contexts (hosts w') = contexts (hosts w) /\
    roots w' = roots w /\ hovered w' = hovered w /\
    length (heap w') = length (heap w) + length ts /\
    registry_live w'.
Proof.
  intros Hne. revert w svc.
  induction ts as [|[name [type passive]] ts IH]; intros w svc Hcv Hadd Hsaved Hsv Hlive.
  - exists w. cbn [forEach kept registered length]. rewrite app_nil_r, Nat.add_0_r.
    splits; auto.
  - assert (Hcvlt : cv < length (heap w)) by (eapply lookup_lt_Some; eauto).
    assert (Hsvlt : sv < length (heap w)) by (eapply lookup_lt_Some; eauto).
    set (n := length (heap w)).
    set (w1 := with_heap
                 (alter (write_cell name (VRef n)) sv
                        (heap w ++ [fn (FListener state type)]))
                 (with_hosts
                    {| loops := loops (hosts w);
                       listeners := listeners (hosts w) ++ [(VRef cv, name, VRef n)];
                       contexts := contexts (hosts w) |}
                    (with_trace (trace w ++ [EvCall (VRef cv) "addEventListener"
                                   [VStr name; VRef n; VBool passive]]) w))).
    assert (Hstep : (listener ← alloc (fn (FListener state type));
                     invoke (VRef cv) "addEventListener"
                       [VStr name; listener; VBool passive] ;;
                     saved ← get (VRef cv) "__listeners";
                     set saved name listener) w = (Ok tt, w1)).
    { erewrite bind_ok by reflexivity.
      erewrite bind_ok.
      2:{ eapply addEventListener_run; [| exact Hadd].
          cbn [heap with_heap]. now apply lookup_app_l_Some. }
      cbn [hosts with_heap]. rewrite (fresh_listener w) by (auto; lia).
      erewrite bind_ok.
      2:{ eapply run_get. cbn [heap with_heap with_hosts with_trace].
          apply lookup_app_l_Some. exact Hcv. }
      rewrite Hsaved. reflexivity. }
    destruct (IH w1 (write_cell name (VRef n) svc)) as (w' & Hrun & H1 & H2 & H3 & H4 & H5
                                                        & H6 & H7 & H8 & H9).
    + subst w1. cbn [heap with_heap]. rewrite list_lookup_alter_ne by congruence.
      now apply lookup_app_l_Some.
    + exact Hadd.
    + exact Hsaved.
    + subst w1. cbn [heap with_heap]. rewrite list_lookup_alter_eq.
      rewrite (lookup_app_l_Some _ _ _ _ Hsv). reflexivity.
    + intros e l Hin Hl. subst w1. cbn [heap hosts listeners with_heap with_hosts] in *.
      rewrite length_alter, length_app. cbn [length].
      apply in_app_or in Hin. destruct Hin as [Hin|[<-|[]]].
      * specialize (Hlive e l Hin Hl). lia.
      * cbn [snd] in Hl. inversion Hl. subst n. lia.
    + assert (Hlen1 : length (heap w1) = S n).
      { subst w1. cbn [heap with_heap]. rewrite length_alter, length_app. cbn [length].
        subst n. lia. }
      exists w'. cbn [forEach]. erewrite bind_ok by exact Hstep.
      rewrite Hlen1 in *. cbn [kept registered fst length].
      splits; try assumption.
      * intros l c Hl Hc. apply H1; [assumption |].
        subst w1. cbn [heap with_heap]. rewrite list_lookup_alter_ne by congruence.
        now apply lookup_app_l_Some.
      * rewrite H3. subst w1. cbn [hosts listeners with_heap with_hosts].
        now rewrite <- app_assoc.
      * rewrite H8. subst n. lia.
Qed.

(** The loop of [disconnect] over the saved listeners. *)
Lemma disconnect_loop (cv : nat) (cc : cell) (saved : props) (w : world) :
  heap w !! cv = Some cc ->
  read_cell cc "removeEventListener" = VNative "removeEventListener" ->
  exists w',
    forEach (fun '(name, listener) =>
      invoke (VRef cv) "removeEventListener" [VStr name; listener]) saved w
    = (Ok tt, w') /\
    heap w' = heap w /\
    listeners (hosts w')
    = fold_left (fun ls entry =>
                   List.filter
                     (fun e => negb (same_listener (VRef cv) (fst entry) (snd entry) e)) ls)
                saved (listeners (hosts w)) /\
    loops (hosts w') = loops (hosts w) /\ contexts (hosts w') = contexts (hosts w) /\
    roots w' = roots w /\ hovered w' = hovered w.
Proof.
  intros Hcv Hrem. revert w Hcv.
  induction saved as [|[name listener] saved IH]; intros w Hcv.
  - exists w. splits; reflexivity.
  - cbn [forEach]. erewrite bind_ok by (eapply removeEventListener_run; eauto).
    match goal with
    | |- context [forEach _ saved ?w1] => destruct (IH w1) as (w' & Hrun & H1 & H2 & H3)
    end.
    + exact Hcv.
    + exists w'. split; [exact Hrun |]. split; [exact H1 |]. split; [exact H2 | exact H3].
Qed.

(** The world [connect] hands to its loop: pointer, raycaster and the
    empty [__listeners] are in place. *)
Lemma connect_prepares {A} (k : M A) (w : world) (cv s : nat) (cc sc : cell) :
  cv <> s ->
  heap w !! cv = Some cc -> heap w !! s = Some sc ->
  exists w0,
    (mouse ← THREE.new_vector THREE.Vector2;
     set (VRef s) "mouse" mouse ;;
     raycaster ← alloc (obj THREE.Raycaster []);
     set (VRef s) "raycaster" raycaster ;;
     saved ← alloc (obj plain []);
     set (VRef cv) "__listeners" saved ;;
     k) w = k w0 /\
    length (heap w0) = length (heap w) + 3 /\
    heap w0 !! cv = Some (write_cell "__listeners" (VRef (length (heap w) + 2)) cc) /\
    heap w0 !! s = Some (write_cell "raycaster" (VRef (length (heap w) + 1))
                           (write_cell "mouse" (VRef (length (heap w))) sc)) /\
    heap w0 !! (length (heap w) + 2) = Some (obj plain []) /\
    hosts w0 = hosts w /\ roots w0 = roots w /\ hovered w0 = hovered w /\
    trace w0 = trace w.
Proof.
  intros Hne Hcv Hs.
  assert (Hcvlt : cv < length (heap w)) by (eapply lookup_lt_Some; eauto).
  assert (Hslt : s < length (heap w)) by (eapply lookup_lt_Some; eauto).
  eexists. split.
  - unfold THREE.new_vector.
    erewrite bind_ok by reflexivity. erewrite bind_ok by reflexivity.
    erewrite bind_ok by reflexivity. erewrite bind_ok by reflexivity.
    erewrite bind_ok by reflexivity. erewrite bind_ok by reflexivity. reflexivity.
  - cbn [heap hosts roots hovered trace with_heap].
    repeat rewrite ?length_alter, ?length_app. cbn [length].
    replace (length (heap w) + 1 + 1) with (length (heap w) + 2) by lia.
    splits; try reflexivity.
    + lia.
    + rewrite list_lookup_alter_eq.
      rewrite lookup_app_l by (repeat rewrite ?length_alter, ?length_app; cbn [length]; lia).
      rewrite list_lookup_alter_ne by congruence.
      rewrite lookup_app_l by (repeat rewrite ?length_alter, ?length_app; cbn [length]; lia).
      rewrite list_lookup_alter_ne by congruence.
      rewrite lookup_app_l by lia. rewrite Hcv. reflexivity.
    + rewrite list_lookup_alter_ne by congruence.
      rewrite lookup_app_l by (repeat rewrite ?length_alter, ?length_app; cbn [length]; lia).
      rewrite list_lookup_alter_eq.
      rewrite lookup_app_l by (repeat rewrite ?length_alter, ?length_app; cbn [length]; lia).
      rewrite list_lookup_alter_eq.
      rewrite lookup_app_l by lia. rewrite Hs. reflexivity.
    + rewrite list_lookup_alter_ne by lia.
      rewrite lookup_app_r by (repeat rewrite ?length_alter, ?length_app; cbn [length]; lia).
      repeat rewrite ?length_alter, ?length_app. cbn [length].
      replace (length (heap w) + 2 - (length (heap w) + 1 + 1)) with 0 by lia.
      reflexivity.
Qed.

Lemma same_listener_refl (target : nat) (name : string) (l : nat) :
  same_listener (VRef target) name (VRef l) (VRef target, name, VRef l) = true.
Proof.
  unfold same_listener. cbn [fst snd strict_eq].
  now rewrite !Nat.eqb_refl, String.eqb_refl.
Qed.

Lemma filter_filter {A} (f g : A -> bool) (l : list A) :
  List.filter f (List.filter g l) = List.filter (fun x => g x && f x) l.
Proof.
  induction l as [|x l IH]; cbn [List.filter]; [reflexivity |].
  destruct (g x); cbn [List.filter andb]; [destruct (f x) |]; now rewrite IH.
Qed.

Lemma fold_filter {A B} (g : B -> A -> bool) (es : list B) (l : list A) :
  fold_left (fun ls entry => List.filter (g entry) ls) es l
  = List.filter (fun x => forallb (fun entry => g entry x) es) l.
Proof.
  revert l. induction es as [|e es IH]; intros l; cbn [fold_left forallb].
  - symmetry. now apply filter_all.
  - rewrite IH. apply filter_filter.
Qed.

(** Removing the listeners of [saved] from a registry that holds them next
    to older ones leaves the older ones. *)
Lemma unregister_all (cv base : nat) (L R : list (value * string * value))
    (saved : props) :
  (forall e l, In e L -> snd e = VRef l -> l < base) ->
  (forall entry, In entry saved -> exists l, snd entry = VRef l /\ base <= l) ->
  (forall r, In r R -> exists entry,
     In entry saved /\ same_listener (VRef cv) (fst entry) (snd entry) r = true) ->
  fold_left (fun ls entry =>
               List.filter
                 (fun e => negb (same_listener (VRef cv) (fst entry) (snd entry) e)) ls)
            saved (L ++ R) = L.
Proof.
  intros HL Hsaved HR.
  rewrite (fold_filter (fun entry e =>
             negb (same_listener (VRef cv) (fst entry) (snd entry) e))).
  rewrite List.filter_app, filter_all, filter_none; [apply app_nil_r | |].
  - intros r Hr. destruct (HR r Hr) as (entry & Hin & Hsame).
    apply Bool.not_true_is_false. intros Hall.
    rewrite forallb_forall in Hall. specialize (Hall entry Hin).
    rewrite Hsame in Hall. discriminate.
  - intros e He. apply forallb_forall. intros entry Hin.
    destruct (Hsaved entry Hin) as (l & Hl & Hge).
    apply Bool.negb_true_iff. apply Bool.not_true_is_false. intros Hsame.
    unfold same_listener in Hsame. apply andb_prop in Hsame. destruct Hsame as [_ Hsame].
    apply strict_eq_true in Hsame. rewrite Hl in Hsame.
    specialize (HL e l He Hsame). lia.
Qed.

(** [connect] on a canvas and a state of their own. *)
Lemma connect_run (w : world) (cv s : nat) (cc sc : cell) :
  cv <> s ->
  heap w !! cv = Some cc -> heap w !! s = Some sc ->
  read_cell cc "addEventListener" = VNative "addEventListener" ->
  registry_live w ->
  exists w',
    connect (VRef cv) (VRef s) w = (Ok tt, w') /\
    listeners (hosts w')
    = listeners (hosts w) ++ registered cv (length (heap w) + 3) EVENT_TYPES /\
    loops (hosts w') = loops (hosts w) /\ contexts (hosts w') = contexts (hosts w) /\
    heap w' !! cv = Some (write_cell "__listeners" (VRef (length (heap w) + 2)) cc) /\
    heap w' !! s = Some (write_cell "raycaster" (VRef (length (heap w) + 1))
                           (write_cell "mouse" (VRef (length (heap w))) sc)) /\
    heap w' !! (length (heap w) + 2)
    = Some (kept (length (heap w) + 3) EVENT_TYPES (obj plain [])).
Proof.
  intros Hne Hcv Hs Hadd Hlive.
  assert (Hcvlt : cv < length (heap w)) by (eapply lookup_lt_Some; eauto).
  assert (Hslt : s < length (heap w)) by (eapply lookup_lt_Some; eauto).
  unfold connect.
  match goal with
  | |- context [forEach ?f EVENT_TYPES] =>
      destruct (connect_prepares (forEach f EVENT_TYPES) w cv s cc sc Hne Hcv Hs)
        as (w0 & Hrun0 & Hlen0 & Hcv0 & Hs0 & Hsv0 & Hh0 & _)
  end.
  destruct (connect_loop cv (length (heap w) + 2) (VRef s)
              (write_cell "__listeners" (VRef (length (heap w) + 2)) cc)
              EVENT_TYPES w0 (obj plain []))
    as (w' & Hrun & Hframe & Hkept & Hls & Hloops & Hctx & _).
  - lia.
  - exact Hcv0.
  - rewrite read_write_other by discriminate. exact Hadd.
  - apply read_write_same.
  - exact Hsv0.
  - intros e l Hin Hl. rewrite Hh0 in Hin. specialize (Hlive e l Hin Hl). lia.
  - exists w'. rewrite Hrun0. split; [exact Hrun |].
    rewrite Hlen0, Hh0 in *.
    splits; try assumption.
    + apply Hframe; [lia | exact Hcv0].
    + apply Hframe; [lia | exact Hs0].
Qed.



Lemma lookup_delete_same (key : string) (o : props) :
  lookup_prop key (delete_prop key o) = None.
Proof.
  induction o as [|[k v] o IH]; cbn [delete_prop lookup_prop]; [reflexivity |].
  destruct (String.eqb_spec k key) as [->|Hne]; [exact IH |].
  cbn [lookup_prop]. apply String.eqb_neq in Hne. now rewrite Hne.
Qed.

(** [disconnect] after [connect] takes off the canvas exactly the
    listeners [connect] put there: the registry of listeners is what it
    was before, and the canvas has no [__listeners] of its own left. *)
Theorem connect_then_disconnect (w : world) (cv s : nat) (cc sc : cell) :
  cv <> s ->
  heap w !! cv = Some cc -> heap w !! s = Some sc ->
  read_cell cc "addEventListener" = VNative "addEventListener" ->
  read_cell cc "removeEventListener" = VNative "removeEventListener" ->
  registry_live w ->
  exists w' cc',
    (connect (VRef cv) (VRef s) ;; disconnect (VRef cv)) w = (Ok tt, w') /\
    listeners (hosts w') = listeners (hosts w) /\
    heap w' !! cv = Some cc' /\ lookup_prop "__listeners" (c_own cc') = None.
Proof.
  intros Hne Hcv Hs Hadd Hrem Hlive.
  destruct (connect_run w cv s cc sc Hne Hcv Hs Hadd Hlive)
    as (w1 & Hrun1 & Hls1 & _ & _ & Hcv1 & _ & Hkept1).
  set (n := length (heap w)) in *.
  destruct (disconnect_loop cv (write_cell "__listeners" (VRef (n + 2)) cc)
              (c_own (kept (n + 3) EVENT_TYPES (obj plain []))) w1 Hcv1)
    as (w2 & Hrun2 & Hheap2 & Hls2 & _).
  { rewrite read_write_other by discriminate. exact Hrem. }
  eexists. eexists. split; [| split; [| split]].
  - erewrite bind_ok by exact Hrun1. unfold disconnect.
    erewrite bind_ok by (eapply run_get; exact Hcv1). rewrite read_write_same.
    erewrite bind_ok by (unfold entries, read; rewrite Hkept1; reflexivity).
    erewrite bind_ok by exact Hrun2. reflexivity.
  - cbn [hosts with_heap]. rewrite Hls2, Hls1.
    apply (unregister_all cv (n + 3)).
    + intros e l Hin Hl. specialize (Hlive e l Hin Hl). fold n in Hlive. lia.
    + cbn. intros entry [<-|[<-|[<-|[<-|[<-|[]]]]]]; eexists; (split; [reflexivity | lia]).
    + cbn. intros r [<-|[<-|[<-|[<-|[<-|[]]]]]].
      * exists ("click", VRef (n + 3)). split; [cbn; tauto | apply same_listener_refl].
      * exists ("dblclick", VRef (S (n + 3))).
        split; [cbn; tauto | apply same_listener_refl].
      * exists ("pointerup", VRef (S (S (n + 3)))).
        split; [cbn; tauto | apply same_listener_refl].
      * exists ("pointerdown", VRef (S (S (S (n + 3))))).
        split; [cbn; tauto | apply same_listener_refl].
      * exists ("mousemove", VRef (S (S (S (S (n + 3)))))).
        split; [cbn; tauto | apply same_listener_refl].
  - cbn [heap with_heap]. rewrite list_lookup_alter_eq, Hheap2, Hcv1. reflexivity.
  - cbn [erase_cell c_own]. apply lookup_delete_same.
Qed.

(** The theorem on the first canvas of the page, a plain object for the
    state. *)
Lemma connect_then_disconnect_witness :
  exists w' cc',
    (connect Scenario.canvas1 Scenario.frameRef1 ;; disconnect Scenario.canvas1)
      Scenario.page = (Ok tt, w') /\
    listeners (hosts w') = [] /\
    heap w' !! 13 = Some cc' /\ lookup_prop "__listeners" (c_own cc') = None.
Proof.
  apply (connect_then_disconnect Scenario.page 13 19
           (Scenario.cell_at Scenario.page 13) (Scenario.cell_at Scenario.page 19)).
  - discriminate.
  - vm_compute; reflexivity.
  - vm_compute; reflexivity.
  - vm_compute; reflexivity.
  - vm_compute; reflexivity.
  - intros e l [].
Defined.

(** ** Root Lifecycle Manager: rendering again *)

Lemma roots_set_same (canvas : value) (store : value * value)
    (r : list (value * (value * value))) :
  roots_get canvas r = Some store -> roots_set canvas store r = r.
Proof.
  induction r as [|[k st] r IH]; cbn [roots_get roots_set]; [discriminate |].
  destruct (same_value_zero k canvas).
  - intros E. inversion E. reflexivity.
  - intros E. now rewrite IH.
Qed.

(** The loop that copies the props of [render] onto the state. *)
Lemma assign_loop (s : nat) (ps : props) (w : world) :
  forEach (fun '(key, v) => set (VRef s) key v) ps w
  = (Ok tt, with_heap (alter (assigned ps) s (heap w)) w).
Proof.
  revert w. induction ps as [|[k v] ps IH]; intros w.
  - cbn [forEach]. unfold mret, M_ret. f_equal.
    rewrite list_alter_id by reflexivity. now destruct w.
  - cbn [forEach]. erewrite bind_ok by reflexivity. rewrite IH.
    f_equal. unfold with_heap. cbn [heap roots hovered trace hosts]. f_equal.
    rewrite list_alter_alter_eq. apply list_alter_ext; [| reflexivity].
    intros c0 _. reflexivity.
Qed.

Lemma invoke_native (w : world) (t : nat) (tc : cell) (m : string) (args : list value) :
  heap w !! t = Some tc -> read_cell tc m = VNative m -> ~ In m acting ->
  invoke (VRef t) m args w
  = (Ok tt, with_trace (trace w ++ [EvCall (VRef t) m args]) w).
Proof.
  intros Ht Hm Hplain. unfold invoke.
  erewrite bind_ok by (eapply run_get; eauto). rewrite Hm. cbn [call].
  erewrite bind_ok by (now apply native_recorded). reflexivity.
Qed.

(** [render] on a canvas that has a root, as the run of the model. *)
Lemma render_again_run (w : world) (element root : value) (cv s g cam : nat)
    (cc sc gc camc : cell) (gl camera : option props) (props : props) :
  heap w !! cv = Some cc ->
  roots_get (VRef cv) (roots w) = Some (root, VRef s) ->
  truthy root = true ->
  heap w !! s = Some sc ->
  ~ In "gl" (keys props) -> ~ In "camera" (keys props) ->
  read_cell sc "gl" = VRef g -> g <> s -> heap w !! g = Some gc ->
  read_cell gc "setSize" = VNative "setSize" ->
  read_cell sc "camera" = VRef cam -> cam <> s -> heap w !! cam = Some camc ->
  read_cell camc "updateProjectionMatrix" = VNative "updateProjectionMatrix" ->
  exists w' width height,
    render element (VRef cv) VUndefined gl camera props w = (Ok (VRef s), w') /\
    hosts w' = hosts w /\ roots w' = roots w /\
    heap w' = alter (assigned (props ++ [("size", VRef (length (heap w)))])) s
                (heap w ++ [obj plain [("width", width); ("height", height)]]) /\
    trace w' = trace w ++ [EvCall (VRef g) "setSize" [width; height];
                           EvCall (VRef cam) "updateProjectionMatrix" [];
                           EvReconciler "updateContainer" [element; root]].
Proof.
  intros Hcv Hroots Hroot Hs Hgl Hcamera Hg Hgs Hgc Hsize Hcam Hcams Hcamc Hupd.
  assert (Hslt : s < length (heap w)) by (eapply lookup_lt_Some; eauto).
  assert (Hglt : g < length (heap w)) by (eapply lookup_lt_Some; eauto).
  assert (Hcamlt : cam < length (heap w)) by (eapply lookup_lt_Some; eauto).
  set (pe := read_cell cc "parentElement").
  set (width := if truthy (field w pe "clientWidth")
                then field w pe "clientWidth" else VNum 0).
  set (height := if truthy (field w pe "clientHeight")
                 then field w pe "clientHeight" else VNum 0).
  set (n := length (heap w)).
  set (ps := props ++ [("size", VRef n)]).
  set (h2 := alter (assigned ps) s
               (heap w ++ [obj plain [("width", width); ("height", height)]])).
  assert (Hs2 : h2 !! s = Some (assigned ps sc)).
  { subst h2. rewrite list_lookup_alter_eq, lookup_app_l, Hs by lia. reflexivity. }
  assert (Hout : forall key, key = "gl" \/ key = "camera" ->
                   read_cell (assigned ps sc) key = read_cell sc key).
  { intros key Hkey. apply read_assigned_out. subst ps. unfold keys.
    rewrite map_app, in_app_iff. cbn [map fst In].
    destruct Hkey as [-> | ->]; intuition discriminate. }
  assert (Hn2 : h2 !! n = Some (obj plain [("width", width); ("height", height)])).
  { subst h2 n. rewrite list_lookup_alter_ne by lia.
    rewrite lookup_app_r by lia. now rewrite Nat.sub_diag. }
  assert (Hg2 : h2 !! g = Some gc).
  { subst h2. rewrite list_lookup_alter_ne by congruence. now apply lookup_app_l_Some. }
  assert (Hcam2 : h2 !! cam = Some camc).
  { subst h2. rewrite list_lookup_alter_ne by congruence. now apply lookup_app_l_Some. }
  exists (with_trace (trace w ++ [EvCall (VRef g) "setSize" [width; height];
                                  EvCall (VRef cam) "updateProjectionMatrix" [];
                                  EvReconciler "updateContainer" [element; root]])
            (with_heap h2 w)), width, height.
  split; [| splits; reflexivity].
  unfold render. cbn [truthy negb].
  erewrite bind_ok.
  2:{ erewrite bind_ok by (eapply run_get; eauto).
      erewrite bind_ok by apply get_opt_field.
      erewrite bind_ok by (eapply run_get; eauto).
      erewrite bind_ok by apply get_opt_field.
      reflexivity. }
  erewrite bind_ok by (unfold read; cbn [roots with_heap]; rewrite Hroots; reflexivity).
  cbn [truthy]. erewrite bind_ok by reflexivity.
  erewrite bind_ok by apply assign_loop.
  rewrite Hroot. cbn [negb]. erewrite bind_ok by reflexivity.
  cbn [heap with_heap]. fold pe width height n ps h2.
  erewrite bind_ok by (eapply run_get; exact Hs2). rewrite (Hout "gl") by auto. rewrite Hg.
  erewrite bind_ok by (eapply run_get; exact Hn2).
  erewrite bind_ok by (eapply run_get; exact Hn2).
  erewrite bind_ok
    by (apply (invoke_native _ g gc "setSize");
        [exact Hg2 | exact Hsize | unfold acting; simpl; intuition discriminate]).
  erewrite bind_ok by (eapply run_get; exact Hs2).
  rewrite (Hout "camera") by auto. rewrite Hcam.
  erewrite bind_ok
    by (apply (invoke_native _ cam camc "updateProjectionMatrix");
        [exact Hcam2 | exact Hupd | unfold acting; simpl; intuition discriminate]).
  erewrite bind_ok by reflexivity.
  cbn [roots with_roots with_heap with_trace]. rewrite (roots_set_same _ _ _ Hroots).
  unfold updateContainer.
  erewrite bind_ok by (erewrite bind_ok by reflexivity; reflexivity).
  unfold mret, M_ret. f_equal.
  unfold with_trace, with_heap, with_roots. cbn [heap roots hovered trace hosts].
  f_equal. rewrite <- !app_assoc. reflexivity.
Qed.

Lemma assigned_app (ps qs : props) (c : cell) :
  assigned (ps ++ qs) c = assigned qs (assigned ps c).
Proof. unfold assigned. apply fold_left_app. Qed.

(** [render] on a canvas that already has a root reuses what is stored:
    the state it returns is the stored one, still with its renderer and
    camera; the registry of loops, listeners and contexts and the root map
    are what they were; the state holds the props and a size object whose
    width and height are the arguments of [gl.setSize]; and the calls are
    [gl.setSize], [camera.updateProjectionMatrix] and the reconciler's
    [updateContainer], in this order.  The options [gl] and [camera] play no
    part. *)
Theorem render_again_reuses (w : world) (element root : value) (cv s g cam : nat)
    (cc sc gc camc : cell) (gl camera : option props) (props : props) :
  heap w !! cv = Some cc ->
  roots_get (VRef cv) (roots w) = Some (root, VRef s) ->
  truthy root = true ->
  heap w !! s = Some sc ->
  ~ In "gl" (keys props) -> ~ In "camera" (keys props) ->
  read_cell sc "gl" = VRef g -> g <> s -> heap w !! g = Some gc ->
  read_cell gc "setSize" = VNative "setSize" ->
  read_cell sc "camera" = VRef cam -> cam <> s -> heap w !! cam = Some camc ->
  read_cell camc "updateProjectionMatrix" = VNative "updateProjectionMatrix" ->
  exists w' width height size,
    render element (VRef cv) VUndefined gl camera props w = (Ok (VRef s), w') /\
    hosts w' = hosts w /\ roots w' = roots w /\
    field w' (VRef s) "gl" = VRef g /\
    field w' (VRef s) "camera" = VRef cam /\
    field w' (VRef s) "size" = size /\
    field w' size "width" = width /\ field w' size "height" = height /\
    (List.NoDup (keys props) ->
     forall key v, In (key, v) props -> key <> "size" -> field w' (VRef s) key = v) /\
    trace w' = trace w ++ [EvCall (VRef g) "setSize" [width; height];
                           EvCall (VRef cam) "updateProjectionMatrix" [];
                           EvReconciler "updateContainer" [element; root]].
Proof.
  intros Hcv Hroots Hroot Hs Hgl Hcamera Hg Hgs Hgc Hsize Hcam Hcams Hcamc Hupd.
  destruct (render_again_run w element root cv s g cam cc sc gc camc gl camera props
              Hcv Hroots Hroot Hs Hgl Hcamera Hg Hgs Hgc Hsize Hcam Hcams Hcamc Hupd)
    as (w' & width & height & Hrun & Hhosts & Hrootsw & Hheap & Htrace).
  assert (Hslt : s < length (heap w)) by (eapply lookup_lt_Some; eauto).
  assert (Hs' : heap w' !! s
                = Some (assigned (props ++ [("size", VRef (length (heap w)))]) sc)).
  { rewrite Hheap, list_lookup_alter_eq, lookup_app_l, Hs by lia. reflexivity. }
  assert (Hn' : heap w' !! length (heap w)
                = Some (obj plain [("width", width); ("height", height)])).
  { rewrite Hheap, list_lookup_alter_ne by lia.
    rewrite lookup_app_r by lia. now rewrite Nat.sub_diag. }
  assert (Hout : forall key, ~ In key (keys props) -> key <> "size" ->
                   read_cell (assigned (props ++ [("size", VRef (length (heap w)))]) sc) key
                   = read_cell sc key).
  { intros key Hkey Hne. apply read_assigned_out. unfold keys.
    rewrite map_app, in_app_iff. cbn [map fst In]. intuition congruence. }
  exists w', width, height, (VRef (length (heap w))).
  split; [exact Hrun |]. split; [exact Hhosts |]. split; [exact Hrootsw |].
  split; [| split; [| split; [| split; [| split; [| split]]]]].
  - rewrite (field_live w' s _ "gl" Hs'), Hout by (assumption || discriminate). exact Hg.
  - rewrite (field_live w' s _ "camera" Hs'), Hout by (assumption || discriminate).
    exact Hcam.
  - rewrite (field_live w' s _ "size" Hs'), assigned_app. apply read_write_same.
  - now rewrite (field_live w' _ _ "width" Hn').
  - now rewrite (field_live w' _ _ "height" Hn').
  - intros Hnd key v Hin Hne.
    rewrite (field_live w' s _ key Hs'), assigned_app.
    change (assigned [("size", VRef (length (heap w)))] (assigned props sc))
      with (write_cell "size" (VRef (length (heap w))) (assigned props sc)).
    rewrite read_write_other by congruence. now apply read_assigned_in.
  - exact Htrace.
Qed.

(** The theorem on the first surface, rendered again with renderer
    options and an event manager among the props. *)
Lemma render_again_reuses_witness :
  exists w',
    render VNull Scenario.canvas1 VUndefined (Some [("antialias", VBool true)]) None
           [("events", Scenario.manager)] Scenario.mounted
    = (Ok Scenario.state1, w') /\
    hosts w' = hosts Scenario.mounted /\ roots w' = roots Scenario.mounted /\
    field w' Scenario.state1 "gl" = VRef 23 /\
    field w' Scenario.state1 "events" = Scenario.manager.
Proof.
  destruct (render_again_reuses Scenario.mounted VNull (VRef 34) 13 22 23 28
              (Scenario.cell_at Scenario.mounted 13) (Scenario.cell_at Scenario.mounted 22)
              (Scenario.cell_at Scenario.mounted 23) (Scenario.cell_at Scenario.mounted 28)
              (Some [("antialias", VBool true)]) None [("events", Scenario.manager)])
    as (w' & width & height & size & Hrun & Hhosts & Hroots & Hgl & _ & _ & _ & _
        & Hprops & _).
  - vm_compute; reflexivity.
  - vm_compute; reflexivity.
  - reflexivity.
  - vm_compute; reflexivity.
  - intros [E|[]]; discriminate.
  - intros [E|[]]; discriminate.
  - vm_compute; reflexivity.
  - discriminate.
  - vm_compute; reflexivity.
  - vm_compute; reflexivity.
  - vm_compute; reflexivity.
  - discriminate.
  - vm_compute; reflexivity.
  - vm_compute; reflexivity.
  - exists w'. split; [exact Hrun |]. split; [exact Hhosts |]. split; [exact Hroots |].
    split; [exact Hgl |]. apply Hprops.
    + constructor; [intros [] | constructor].
    + now left.
    + discriminate.
Defined.

(** ** Elements *)

Lemma lookup_delete_other (key key' : string) (o : props) :
  key <> key' -> lookup_prop key' (delete_prop key o) = lookup_prop key' o.
Proof.
  intros Hne. induction o as [|[k v] o IH]; cbn [delete_prop lookup_prop]; [reflexivity |].
  destruct (String.eqb_spec k key) as [->|Hk].
  - rewrite IH. apply String.eqb_neq in Hne. now rewrite Hne.
  - cbn [lookup_prop]. now rewrite IH.
Qed.

Lemma destructured_defined (o : props) (name : string) (fallback : value) :
  fallback <> VUndefined -> destructured o name fallback <> VUndefined.
Proof.
  intros H. unfold destructured.
  destruct (strict_eq (prop o name) VUndefined) eqn:E; [assumption |].
  intros E'. rewrite E' in E. discriminate.
Qed.

(** [createElement] splits what it is given: [key] and [ref] leave the
    props and are never [undefined] on the element; [children] is decided
    by the child nodes alone (nothing for none, the child itself for one,
    the array for more), whatever [children] the props carried; every
    other prop is handed on as it is. *)
Theorem createElement_splits {T} (type : T) (given : option props)
    (childNodes : list value) (w : world) :
  exists el,
    createElement type given childNodes w
    = (Ok el, with_heap (heap w ++ [arr childNodes]) w) /\
    e_type el = type /\
    e_key el <> VUndefined /\ e_ref el <> VUndefined /\
    lookup_prop "key" (e_props el) = None /\
    lookup_prop "ref" (e_props el) = None /\
    lookup_prop "children" (e_props el)
    = Some (match childNodes with
            | [] => VUndefined
            | [child] => child
            | _ => VRef (length (heap w))
            end) /\
    forall name, name <> "key" -> name <> "ref" -> name <> "children" ->
      lookup_prop name (e_props el)
      = lookup_prop name (match given with Some o => o | None => [] end).
Proof.
  eexists. split; [reflexivity |]. cbn [e_type e_key e_ref e_props spread fold_left fst snd].
  split; [reflexivity |].
  split; [apply destructured_defined; discriminate |].
  split; [apply destructured_defined; discriminate |].
  split; [| split; [| split]].
  - rewrite lookup_set_other by discriminate.
    rewrite lookup_delete_other by discriminate. apply lookup_delete_same.
  - rewrite lookup_set_other by discriminate. apply lookup_delete_same.
  - rewrite lookup_set_same. destruct childNodes as [|c1 [|c2 cs]]; reflexivity.
  - intros name H1 H2 H3. rewrite lookup_set_other by congruence.
    rewrite !lookup_delete_other by congruence. reflexivity.
Qed.

(** ** Instance factory *)

Lemma keys_set_prop_in (key key' : string) (x : value) (o : props) :
  In key' (keys (set_prop key x o)) -> key' = key \/ In key' (keys o).
Proof.
  unfold keys. induction o as [|[k v] o IH]; cbn [set_prop map fst In].
  - intuition.
  - destruct (String.eqb_spec k key) as [->|Hne]; cbn [map fst In]; intuition.
Qed.

Lemma NoDup_keys_set_prop (key : string) (x : value) (o : props) :
  List.NoDup (keys o) -> List.NoDup (keys (set_prop key x o)).
Proof.
  unfold keys. induction o as [|[k v] o IH]; cbn [set_prop map fst]; intros H.
  - constructor; [intros [] | constructor].
  - inversion H as [|? ? Hk Ho]; subst.
    destruct (String.eqb_spec k key) as [->|Hne]; cbn [map fst].
    + constructor; assumption.
    + constructor; [| now apply IH].
      intros Hin. apply (keys_set_prop_in key k x o) in Hin.
      destruct Hin as [E|Hin]; [congruence | contradiction].
Qed.

Lemma keys_spread_in (base extra : props) (key : string) :
  In key (keys (spread base extra)) -> In key (keys base) \/ In key (keys extra).
Proof.
  unfold spread. revert base. induction extra as [|[k v] extra IH]; intros base;
    cbn [fold_left fst snd]; [tauto |].
  intros H. apply IH in H. destruct H as [H|H].
  - apply keys_set_prop_in in H. destruct H as [->|H]; [| now left].
    right. unfold keys. cbn [map fst In]. now left.
  - right. unfold keys in *. cbn [map fst In]. now right.
Qed.

Lemma NoDup_keys_spread (base extra : props) :
  List.NoDup (keys base) -> List.NoDup (keys (spread base extra)).
Proof.
  unfold spread. revert base. induction extra as [|[k v] extra IH]; intros base H;
    cbn [fold_left fst snd]; [assumption |].
  apply IH. now apply NoDup_keys_set_prop.
Qed.

Lemma lookup_spread (base extra : props) (key : string) :
  List.NoDup (keys extra) ->
  lookup_prop key (spread base extra)
  = match lookup_prop key extra with
    | Some v => Some v
    | None => lookup_prop key base
    end.
Proof.
  unfold spread. revert base. induction extra as [|[k v] extra IH]; intros base H;
    cbn [fold_left fst snd lookup_prop]; [reflexivity |].
  unfold keys in H. cbn [map fst] in H. inversion H as [|? ? Hk He]; subst.
  rewrite IH by assumption.
  destruct (String.eqb_spec k key) as [->|Hne].
  - apply (lookup_prop_keys key extra) in Hk. rewrite Hk. apply lookup_set_same.
  - now rewrite lookup_set_other by assumption.
Qed.

Lemma NoDup_keys_delete (key : string) (o : props) :
  List.NoDup (keys o) -> List.NoDup (keys (delete_prop key o)).
Proof.
  unfold keys. induction o as [|[k v] o IH]; cbn [delete_prop map fst]; intros H;
    [constructor |].
  inversion H as [|? ? Hk Ho]; subst.
  destruct (String.eqb_spec k key) as [->|Hne]; [now apply IH |].
  cbn [map fst]. constructor; [| now apply IH].
  intros Hin. apply (keys_delete_prop key k o) in Hin. tauto.
Qed.

Lemma pruneKeys_In (p : props) (ks : list string) (key : string) (v : value) :
  In (key, v) p -> ~ In key ks -> In (key, v) (pruneKeys p ks).
Proof.
  intros Hin Hout. unfold pruneKeys. apply filter_In. split; [assumption |].
  cbn [fst]. apply Bool.negb_true_iff. apply Bool.not_true_is_false. intros E.
  apply existsb_exists in E. destruct E as (k & Hk & E).
  apply String.eqb_eq in E. congruence.
Qed.

Lemma lookup_In (key : string) (v : value) (p : props) :
  lookup_prop key p = Some v -> In (key, v) p.
Proof.
  intros H. destruct (in_dec string_dec key (keys p)) as [Hin|Hout].
  - destruct (lookup_prop_In key p Hin) as (v' & Hv & Hin'). congruence.
  - apply lookup_prop_keys in Hout. congruence.
Qed.

Lemma strict_eq_defined (v : value) : v <> VUndefined -> strict_eq v VUndefined = false.
Proof.
  intros H. destruct (strict_eq v VUndefined) eqn:E; [| reflexivity].
  apply strict_eq_true in E. contradiction.
Qed.

Lemma auto_attached_default (name : string) (rest : props) :
  auto_attached name rest
  = match attach_default name with
    | Some slot => spread [("attach", VStr slot)] rest
    | None => rest
    end.
Proof.
  unfold auto_attached, attach_default.
  destruct (endsWith name "Geometry"); [reflexivity |].
  destruct (endsWith name "Material"); reflexivity.
Qed.

Lemma attach_default_slot (name slot : string) :
  attach_default name = Some slot -> slot = "geometry" \/ slot = "material".
Proof.
  unfold attach_default. destruct (endsWith name "Geometry"); [intros E; inversion E; auto |].
  destruct (endsWith name "Material"); [intros E; inversion E; auto | discriminate].
Qed.

(** "Create instance", when no [object] is given. *)
Lemma instance_constructed (target : option export) (args : value) (w : world) :
  (isArray ← is_array args;
   if (isArray : bool) then xs ← elements args; construct target xs
   else construct target [args]) w
  = construct target (arguments (heap w) args) w.
Proof.
  destruct args as [| | | | | |m|a]; try reflexivity.
  unfold is_array, read, arguments, elements, mbind, M_bind. 
  destruct (heap w !! a) as [[[k|xs|fu] o]|] eqn:E; try reflexivity.
  rewrite E. reflexivity.
Qed.

(** [createInstance] of a geometry or a material when the new instance
    keeps no object under [attach] or under a key of the props, so that
    every prop is assigned as a plain field. *)
Lemma createInstance_props (THREE : string -> option export) (type : string)
    (given : props) (new : list value -> M value) (slot : string) (w w1 : world) (l : nat)
    (c : cell) :
  type <> "primitive" ->
  THREE (pascalCase type) = Some (Class new) ->
  truthy (prop given "object") = false ->
  new (arguments (heap w) (prop given "args")) w = (Ok (VRef l), w1) ->
  heap w1 !! l = Some c ->
  (forall key t, key = "attach" \/ In key (keys given) -> read_cell c key <> VRef t) ->
  List.NoDup (keys given) -> ~ In "__handlers" (keys given) ->
  attach_default (pascalCase type) = Some slot ->
  (In "attach" (keys given) -> prop given "attach" <> VUndefined) ->
  exists w',
    createInstance THREE type given w = (Ok (Created (VRef l)), w') /\
    field w' (VRef l) "attach" = destructured given "attach" (VStr slot) /\
    trace w' = trace w1 /\
    (forall l' c', l' <> l -> heap w1 !! l' = Some c' -> heap w' !! l' = Some c').
Proof.
  intros Htype Hns Hobject Hnew Hl Hplain Hnd Hfree Hslot Hattach.
  set (rest := delete_prop "args" (delete_prop "object" given)).
  set (ps := spread [("attach", VStr slot)] rest).
  assert (Hrest : forall key, In key (keys rest) -> In key (keys given)).
  { intros key Hin. subst rest. apply keys_delete_prop in Hin. destruct Hin as [Hin _].
    apply keys_delete_prop in Hin. tauto. }
  assert (Hndr : List.NoDup (keys rest)).
  { subst rest. now do 2 apply NoDup_keys_delete. }
  assert (Hndp : List.NoDup (keys ps)).
  { subst ps. apply NoDup_keys_spread. constructor; [intros [] | constructor]. }
  assert (Hfreep : ~ In "__handlers" (keys ps)).
  { intros Hin. subst ps. apply keys_spread_in in Hin.
    destruct Hin as [[E|[]]|Hin]; [discriminate | auto]. }
  destruct (applyProps_plain l c ps [] w1 Hl Hndp Hfreep) as (w' & Hrun & Htrace & Hfields
                                                              & Hframe).
  { intros key Hin t. apply Hplain.
    apply applicable_keys in Hin. destruct Hin as [Hin _].
    subst ps. apply keys_spread_in in Hin.
    destruct Hin as [[E|[]]|Hin]; [left; now symmetry | right; now apply Hrest]. }
  exists w'. split; [| split; [| split; assumption]].
  - unfold createInstance. apply String.eqb_neq in Htype. rewrite Htype, Hns.
    cbn [negb andb missing]. rewrite Hobject.
    erewrite bind_ok by (rewrite instance_constructed; exact Hnew).
    rewrite auto_attached_default, Hslot. fold rest ps.
    erewrite bind_ok by exact Hrun. reflexivity.
  - apply Hfields.
    assert (Hlook : lookup_prop "attach" ps
                    = Some (destructured given "attach" (VStr slot))).
    { subst ps. rewrite lookup_spread by assumption.
      assert (E : lookup_prop "attach" rest = lookup_prop "attach" given).
      { subst rest. now rewrite !lookup_delete_other by discriminate. }
      rewrite E. unfold destructured, prop.
      destruct (lookup_prop "attach" given) as [v|] eqn:Ev.
      - assert (Hv : v <> VUndefined).
        { assert (Hin : In "attach" (keys given)).
          { destruct (in_dec string_dec "attach" (keys given)) as [H|H]; [exact H |].
            apply lookup_prop_keys in H. congruence. }
          specialize (Hattach Hin). unfold prop in Hattach. now rewrite Ev in Hattach. }
        now rewrite (strict_eq_defined v Hv).
      - reflexivity. }
    unfold applicable. apply pruneKeys_In; [now apply lookup_In |].
    intros Hin. apply in_app_or in Hin. destruct Hin as [Hin|Hin].
    + unfold identical_keys in Hin. apply filter_In in Hin. destruct Hin as [_ Hin].
      unfold prop at 1 in Hin. rewrite Hlook in Hin. cbn [prop lookup_prop] in Hin.
      rewrite strict_eq_defined in Hin; [discriminate |].
      apply destructured_defined. discriminate.
    + apply in_app_or in Hin. destruct Hin as [Hin|Hin].
      * apply handler_keys_spec in Hin. unfold is_handler in Hin.
        apply andb_prop in Hin. destruct Hin as [_ Hin]. discriminate.
      * cbn in Hin. intuition discriminate.
Qed.

(** [createInstance] of a geometry or a material whose constructor answers
    an object without object-valued properties. *)
Lemma createInstance_run (THREE : string -> option export) (type : string)
    (given : props) (new : list value -> M value) (slot : string) (w w1 : world) (l : nat)
    (c : cell) :
  type <> "primitive" ->
  THREE (pascalCase type) = Some (Class new) ->
  truthy (prop given "object") = false ->
  new (arguments (heap w) (prop given "args")) w = (Ok (VRef l), w1) ->
  heap w1 !! l = Some c ->
  (forall key t, read_cell c key <> VRef t) ->
  List.NoDup (keys given) -> ~ In "__handlers" (keys given) ->
  attach_default (pascalCase type) = Some slot ->
  (In "attach" (keys given) -> prop given "attach" <> VUndefined) ->
  exists w',
    createInstance THREE type given w = (Ok (Created (VRef l)), w') /\
    field w' (VRef l) "attach" = destructured given "attach" (VStr slot) /\
    trace w' = trace w1 /\
    (forall l' c', l' <> l -> heap w1 !! l' = Some c' -> heap w' !! l' = Some c').
Proof.
  intros Htype Hns Hobject Hnew Hl Hplain Hnd Hfree Hslot Hattach.
  apply (createInstance_props THREE type given new slot w w1 l c); try assumption.
  intros key t _. apply Hplain.
Qed.

(** A geometry or a material created without an [attach] prop is given the
    slot of its kind, ['geometry'] or ['material']; an [attach] prop wins
    over the default. *)
Theorem createInstance_auto_attach (THREE : string -> option export) (type : string)
    (given : props) (new : list value -> M value) (slot : string) (w w1 : world) (l : nat)
    (c : cell) :
  type <> "primitive" ->
  THREE (pascalCase type) = Some (Class new) ->
  truthy (prop given "object") = false ->
  new (arguments (heap w) (prop given "args")) w = (Ok (VRef l), w1) ->
  heap w1 !! l = Some c ->
  (forall key t, read_cell c key <> VRef t) ->
  List.NoDup (keys given) -> ~ In "__handlers" (keys given) ->
  attach_default (pascalCase type) = Some slot ->
  (In "attach" (keys given) -> prop given "attach" <> VUndefined) ->
  exists w',
    createInstance THREE type given w = (Ok (Created (VRef l)), w') /\
    field w' (VRef l) "attach" = destructured given "attach" (VStr slot) /\
    trace w' = trace w1.
Proof.
  intros Htype Hns Hobject Hnew Hl Hplain Hnd Hfree Hslot Hattach.
  destruct (createInstance_run THREE type given new slot w w1 l c)
    as (w' & Hrun & Hfield & Htrace & _); try assumption.
  exists w'. auto.
Qed.

(** The theorem on [<boxGeometry args={[]} />]. *)
Lemma createInstance_auto_attach_witness :
  exists w',
    createInstance Namespace.three "boxGeometry" [("args", VRef 1)] Scenario.stage
    = (Ok (Created (VRef 13)), w') /\
    field w' (VRef 13) "attach" = VStr "geometry".
Proof.
  destruct (createInstance_auto_attach Namespace.three "boxGeometry" [("args", VRef 1)]
              (fun _ => alloc (obj (THREE.BufferGeometry "BoxGeometry")
                                   [("type", VStr "BoxGeometry")]))
              "geometry" Scenario.stage
              (Scenario.run (alloc (obj (THREE.BufferGeometry "BoxGeometry")
                                        [("type", VStr "BoxGeometry")])) Scenario.stage)
              13 (obj (THREE.BufferGeometry "BoxGeometry") [("type", VStr "BoxGeometry")]))
    as (w' & Hrun & Hfield & _).
  - discriminate.
  - reflexivity.
  - reflexivity.
  - reflexivity.
  - vm_compute; reflexivity.
  - intros key t. unfold read_cell, proto. cbn [c_own obj lookup_prop c_shape].
    destruct (String.eqb "type" key); [discriminate |].
    destruct (bool_decide _); discriminate.
  - constructor; [intros [] | constructor].
  - intros [E|[]]; discriminate.
  - reflexivity.
  - intros [E|[]]; discriminate.
  - exists w'. split; [exact Hrun | exact Hfield].
Defined.

(** A geometry or a material that [createInstance] made without an
    [attach] prop, from props that are all assigned as plain fields (the new
    instance keeps no object under [attach] or under a key of the props: no
    colour or vector is among them), is stored by [appendChild] in the slot
    of its kind on a parent that has the slot.  Nothing is called beyond
    what the constructor calls, and no object but the parent and the new
    instance is written, the parent's array of children included. *)
Theorem created_element_attaches (THREE : string -> option export) (type : string)
    (given : props) (new : list value -> M value) (slot : string) (w w1 : world)
    (l p : nat) (c pc : cell) :
  type <> "primitive" ->
  THREE (pascalCase type) = Some (Class new) ->
  truthy (prop given "object") = false ->
  new (arguments (heap w) (prop given "args")) w = (Ok (VRef l), w1) ->
  heap w1 !! l = Some c ->
  (forall key t, key = "attach" \/ In key (keys given) -> read_cell c key <> VRef t) ->
  List.NoDup (keys given) -> ~ In "__handlers" (keys given) ->
  attach_default (pascalCase type) = Some slot ->
  ~ In "attach" (keys given) ->
  p <> l -> heap w1 !! p = Some pc -> read_cell pc slot <> VUndefined ->
  exists w',
    (outcome ← createInstance THREE type given;
     match outcome with
     | Created instance => appendChild (VRef p) instance
     | Thrown _ => mret tt
     end) w = (Ok tt, w') /\
    field w' (VRef p) slot = VRef l /\
    trace w' = trace w1 /\
    (forall l' c', l' <> l -> l' <> p -> heap w1 !! l' = Some c' ->
       heap w' !! l' = Some c').
Proof.
  intros Htype Hns Hobject Hnew Hl Hplain Hnd Hfree Hslot Hattach Hpl Hp Hdefined.
  destruct (createInstance_props THREE type given new slot w w1 l c)
    as (w2 & Hrun & Hfield & Htrace & Hframe); try assumption; [tauto |].
  assert (Hchild : field w2 (VRef l) "attach" = VStr slot).
  { rewrite Hfield. unfold destructured. now rewrite (prop_missing given "attach" Hattach). }
  assert (Htruthy : truthy (VStr slot) = true).
  { destruct (attach_default_slot _ _ Hslot) as [-> | ->]; reflexivity. }
  assert (Hp2 : heap w2 !! p = Some pc) by (apply Hframe; assumption).
  assert (Hrun2 : appendChild (VRef p) (VRef l) w2
                  = (Ok tt, with_heap (alter (write_cell slot (VRef l)) p (heap w2)) w2)).
  { unfold appendChild. cbn [truthy negb].
    erewrite bind_ok.
    2:{ unfold attaches. erewrite bind_ok by apply get_ref.
        rewrite Hchild, Htruthy. cbn [to_key].
        erewrite bind_ok by (eapply run_get; exact Hp2).
        rewrite (strict_eq_defined _ Hdefined). reflexivity. }
    cbn [negb]. erewrite bind_ok by apply get_ref. rewrite Hchild. reflexivity. }
  eexists. split; [| split; [| split]].
  - erewrite bind_ok by exact Hrun. exact Hrun2.
  - unfold field. erewrite run_get
      by (cbn [heap with_heap]; rewrite list_lookup_alter_eq, Hp2; reflexivity).
    apply read_write_same.
  - exact Htrace.
  - intros l' c' Hl' Hp' Hc'. cbn [heap with_heap].
    rewrite list_lookup_alter_ne by congruence. now apply Hframe.
Qed.

(** The theorem on [<meshBasicMaterial transparent />] appended to mesh A:
    the material keeps a colour, which no prop touches. *)
Lemma created_element_attaches_witness :
  exists w',
    (outcome ← createInstance Namespace.three "meshBasicMaterial"
                 [("transparent", VBool true)];
     match outcome with
     | Created instance => appendChild Scenario.meshA instance
     | Thrown _ => mret tt
     end) Scenario.stage = (Ok tt, w') /\
    field w' Scenario.meshA "material" = VRef 14 /\
    trace w' = [].
Proof.
  pose (new := fun _ : list value =>
      color ← alloc (obj THREE.Color [("r", VNum 1); ("g", VNum 1); ("b", VNum 1)]);
      alloc (obj (THREE.Material "MeshBasicMaterial")
                 [("type", VStr "MeshBasicMaterial"); ("color", color)])).
  destruct (created_element_attaches Namespace.three "meshBasicMaterial"
              [("transparent", VBool true)] new
              "material" Scenario.stage (Scenario.run (new []) Scenario.stage)
              14 2 (obj (THREE.Material "MeshBasicMaterial")
                        [("type", VStr "MeshBasicMaterial"); ("color", VRef 13)])
              (Scenario.cell_at Scenario.stage 2))
    as (w' & Hrun & Hfield & Htrace & _).
  - discriminate.
  - reflexivity.
  - reflexivity.
  - reflexivity.
  - vm_compute; reflexivity.
  - intros key t [-> | [<- | []]]; vm_compute; discriminate.
  - constructor; [intros [] | constructor].
  - intros [E|[]]; discriminate.
  - reflexivity.
  - intros [E|[]]; discriminate.
  - discriminate.
  - vm_compute; reflexivity.
  - vm_compute; discriminate.
  - exists w'. split; [exact Hrun |]. split; [exact Hfield |].
    rewrite Htrace. vm_compute; reflexivity.
Defined.

(** [createInstance] throws a message of its own exactly when the
    validation of the type fails (a name the namespace does not export, a
    primitive without its [object]), and then before anything is
    constructed or changed. *)
Theorem createInstance_validates (THREE : string -> option export) (type : string)
    (given : props) (w w' : world) (r : result outcome) :
  createInstance THREE type given w = (r, w') ->
  ((exists message, r = Ok (Thrown message)) <->
   (type <> "primitive" /\ missing (THREE (pascalCase type)) = true) \/
   (type = "primitive" /\ truthy (prop given "object") = false)) /\
  ((exists message, r = Ok (Thrown message)) -> w' = w).
Proof.
  assert (Hnever : forall (m : M value) (k : value -> M unit) message,
            (instance ← m; k instance ;; mret (Created instance)) w
            <> (Ok (Thrown message), w')).
  { intros m k message H. apply bind_inv in H. destruct H as (instance & w1 & _ & H).
    apply bind_inv in H. destruct H as ([] & w2 & _ & H). discriminate. }
  unfold createInstance.
  destruct (String.eqb_spec type "primitive") as [->|Hne]; cbn [negb andb].
  - destruct (truthy (prop given "object")) eqn:Hobject; cbn [negb].
    + intros H. split; [split |].
      * intros (message & ->). exfalso. eapply Hnever. exact H.
      * intros [[Hp _]|[_ Hf]]; congruence.
      * intros (message & ->). exfalso. eapply Hnever. exact H.
    + intros H. inversion H; subst r w'. split; [split |]; eauto.
  - destruct (missing (THREE (pascalCase type))) eqn:Hmissing.
    + intros H. inversion H; subst r w'. split; [split |]; eauto.
    + intros H. split; [split |].
      * intros (message & ->). exfalso. eapply Hnever. exact H.
      * intros [[_ Hf]|[Hp _]]; congruence.
      * intros (message & ->). exfalso. eapply Hnever. exact H.
Qed.

(** The theorem on [<frontSide />]: a constant of the namespace that is
    falsy is no part of it. *)
Lemma createInstance_validates_witness :
  createInstance Namespace.three "frontSide" [] Scenario.stage
  = (Ok (Thrown "frontSide is not a part of the THREE namespace."), Scenario.stage).
Proof.
  pose proof (createInstance_validates Namespace.three "frontSide" [] Scenario.stage
                (Scenario.run (createInstance Namespace.three "frontSide" []) Scenario.stage)
                (Ok (Thrown "frontSide is not a part of the THREE namespace."))
                ltac:(vm_compute; reflexivity)) as [_ Hworld].
  rewrite <- (Hworld ltac:(eauto)) at 2. vm_compute; reflexivity.
Defined.

(** ** Root Lifecycle Manager: the first render *)

Lemma lookup_alter_at {A} (f : A -> A) (l : list A) (i j : nat) :
  i = j -> alter f i l !! j = f <$> l !! j.
Proof. intros ->. apply list_lookup_alter_eq. Qed.

Lemma lookup_last {A} (l : list A) (x : A) (j : nat) :
  j = length l -> (l ++ [x]) !! j = Some x.
Proof. intros ->. rewrite lookup_app_r by lia. now rewrite Nat.sub_diag. Qed.

Lemma read_obj_here (k : klass) (key : string) (v : value) (o : props) :
  read_cell (obj k ((key, v) :: o)) key = v.
Proof. unfold read_cell. cbn [c_own obj lookup_prop]. now rewrite String.eqb_refl. Qed.

Lemma read_obj_next (k : klass) (key key' : string) (v : value) (o : props) :
  key' <> key -> read_cell (obj k ((key', v) :: o)) key = read_cell (obj k o) key.
Proof.
  intros H. unfold read_cell. cbn [c_own obj lookup_prop].
  apply String.eqb_neq in H. now rewrite H.
Qed.

Lemma read_method (k : klass) (m : string) :
  In m (k_methods k) -> read_cell (obj k []) m = VNative m.
Proof.
  intros H. unfold read_cell, proto. cbn [c_own obj lookup_prop c_shape].
  rewrite bool_decide_eq_true_2; [reflexivity |]. now apply list_elem_of_In.
Qed.

Lemma roots_get_set (cv : nat) (store : value * value)
    (r : list (value * (value * value))) :
  roots_get (VRef cv) (roots_set (VRef cv) store r) = Some store.
Proof.
  induction r as [|[k st] r IH]; cbn [roots_set roots_get].
  - cbn. now rewrite Nat.eqb_refl.
  - destruct (same_value_zero k (VRef cv)) eqn:E; cbn [roots_get]; now rewrite E.
Qed.

Lemma fresh_renderer (w : world) (g : nat) :
  loops_live w -> length (heap w) <= g ->
  List.filter (fun e => negb (same_loop (VRef g) e)) (loops (hosts w)) = loops (hosts w).
Proof.
  intros Hlive Hg. apply filter_all. intros e He.
  apply Bool.negb_true_iff. apply Bool.not_true_is_false. intros E.
  unfold same_loop in E. apply strict_eq_true in E.
  specialize (Hlive e g He E). lia.
Qed.

(** The length of a heap some cells of which were written or appended. *)
Ltac len := repeat rewrite ?length_alter, ?length_app; cbn [length]; lia.

(** Worlds as records. *)
Ltac norm :=
  unfold with_heap, with_hosts, with_trace, with_roots;
  cbn [heap roots hovered trace hosts loops listeners contexts].

(** Look an address up in such a heap. *)
Ltac heap_at :=
  cbn [heap];
  repeat first
    [ rewrite lookup_last by len
    | rewrite lookup_app_l by len
    | rewrite lookup_alter_at by len
    | rewrite list_lookup_alter_ne by len ].

(** Read a property of a cell that was written or just constructed. *)
Ltac reads :=
  repeat first [ rewrite read_write_other by discriminate
               | rewrite read_write_same
               | rewrite read_obj_next by discriminate
               | rewrite read_obj_here
               | rewrite read_method by (cbn; tauto) ].

(** One step of a computation: by evaluation, or a read of a live object. *)
Ltac run := erewrite bind_ok by reflexivity; norm.
Ltac load H :=
  erewrite bind_ok
    by (eapply run_get; heap_at; rewrite H; cbn [fmap option_fmap option_map]; reflexivity);
  reads.
Ltac load0 :=
  erewrite bind_ok
    by (eapply run_get; heap_at; cbn [fmap option_fmap option_map]; reflexivity);
  reads.
Ltac lens H :=
  repeat rewrite ?length_alter, ?length_app, ?H; cbn [length];
  repeat rewrite <- Nat.add_assoc; cbn [Nat.add].
Ltac recorded :=
  erewrite bind_ok
    by (apply native_recorded; unfold acting; cbn; intuition discriminate).

(** The first [render] on a canvas, without an event manager and without
    options: one renderer takes a graphics context, one render loop is
    started on it, camera, scene and root are created and the canvas is
    entered in the root map with the new state.  The state keeps its
    renderer under [gl]; no [renderer] property is written. *)
Theorem render_mounts (w : world) (element : value) (cv : nat) (cc : cell)
    (props : props) :
  heap w !! cv = Some cc ->
  roots_get (VRef cv) (roots w) = None ->
  ~ In "events" (keys props) ->
  loops_live w ->
  exists w',
    render element (VRef cv) VUndefined None None props w
    = (Ok (VRef (length (heap w) + 1)), w') /\
    roots_get (VRef cv) (roots w')
    = Some (VRef (length (heap w) + 13), VRef (length (heap w) + 1)) /\
    contexts (hosts w') = contexts (hosts w) ++ [VRef (length (heap w) + 2)] /\
    loops (hosts w')
    = loops (hosts w) ++ [(VRef (length (heap w) + 2), VRef (length (heap w) + 16))] /\
    listeners (hosts w') = listeners (hosts w) /\
    heap w' !! (length (heap w) + 16) = Some (fn (FLoop (VRef (length (heap w) + 1)))) /\
    field w' (VRef (length (heap w) + 1)) "gl" = VRef (length (heap w) + 2) /\
    field w' (VRef (length (heap w) + 1)) "camera" = VRef (length (heap w) + 7) /\
    field w' (VRef (length (heap w) + 1)) "scene" = VRef (length (heap w) + 12) /\
    array_in w' (VRef (length (heap w) + 1)) "subscribed" = [] /\
    (~ In "renderer" (keys props) ->
     field w' (VRef (length (heap w) + 1)) "renderer" = VUndefined).
Proof.
  intros Hcv Hroots Hevents Hlive.
  assert (Hcvlt : cv < length (heap w)) by (eapply lookup_lt_Some; eauto).
  pose proof (fresh_renderer w (length (heap w) + 2) Hlive ltac:(lia)) as Hfresh.
  remember (length (heap w)) as n eqn:Hn.
  pose (ps := props ++ [("size", VRef n)]).
  pose (h0 := alter (assigned (props ++ [("size", VRef n)])) (n + 1)
                ((heap w ++
                  [obj plain
                     [("width",
                       if truthy (field w (read_cell cc "parentElement") "clientWidth")
                       then field w (read_cell cc "parentElement") "clientWidth"
                       else VNum 0);
                      ("height",
                       if truthy (field w (read_cell cc "parentElement") "clientHeight")
                       then field w (read_cell cc "parentElement") "clientHeight"
                       else VNum 0)]]) ++ [obj plain []])).
  assert (Hlen0 : length h0 = n + 2) by (subst h0; len).
  assert (Hs0 : h0 !! (n + 1) = Some (assigned ps (obj plain []))).
  { subst h0. heap_at. reflexivity. }
  assert (Hn0 : exists width height,
            h0 !! n = Some (obj plain [("width", width); ("height", height)])).
  { subst h0. eexists. eexists. heap_at. reflexivity. }
  destruct Hn0 as (width & height & Hn0).
  assert (Hframe0 : forall l, l < n -> h0 !! l = heap w !! l).
  { intros l Hl. subst h0. heap_at. reflexivity. }
  assert (Hout : forall key, ~ In key (keys props) -> key <> "size" ->
                   read_cell (assigned ps (obj plain [])) key = VUndefined).
  { intros key Hkey Hsize. rewrite read_assigned_out; [reflexivity |]. subst ps.
    unfold keys. rewrite map_app, in_app_iff. cbn [map fst In]. intuition congruence. }
  eexists. split.
  - unfold render. cbn [truthy negb].
    erewrite bind_ok.
    2:{ erewrite bind_ok by (eapply run_get; eauto).
        erewrite bind_ok by apply get_opt_field.
        erewrite bind_ok by (eapply run_get; eauto).
        erewrite bind_ok by apply get_opt_field.
        reflexivity. }
    erewrite bind_ok by (unfold read; cbn [roots with_heap]; rewrite Hroots; reflexivity).
    erewrite bind_ok by reflexivity.
    erewrite bind_ok by apply assign_loop.
    cbn [truthy negb]. norm. rewrite !length_app, <- Hn. cbn [length].
    fold h0.
    erewrite bind_ok.
    2:{ run. rewrite Hlen0. run. run.
        load Hs0. run.
        load Hs0. run.
        (* Create camera *)
        run. lens Hlen0.
        run.
        load Hs0. load0. run. run.
        cbn [truthy negb when].
        erewrite bind_ok.
        2:{ load Hs0. unfold invoke. load0. cbn [call]. recorded. reflexivity. }
        norm.
        (* Create scene *)
        run. lens Hlen0.
        run.
        load Hs0.
        (* Create root *)
        run. lens Hlen0.
        load Hs0. rewrite (Hout "events") by (assumption || discriminate).
        cbn [truthy when]. run.
        run. lens Hlen0.
        run.
        run. lens Hlen0.
        run.
        (* Start our render loop *)
        run. lens Hlen0.
        load Hs0.
        erewrite bind_ok.
        2:{ unfold invoke. load0. cbn [call]. run. reflexivity. }
        reflexivity. }
    norm.
    load Hs0.
    load Hn0. load Hn0.
    erewrite bind_ok.
    2:{ unfold invoke. load0. cbn [call]. recorded. reflexivity. }
    norm.
    load Hs0.
    erewrite bind_ok.
    2:{ unfold invoke. load0. cbn [call]. recorded. reflexivity. }
    norm.
    run.
    unfold updateContainer. run.
    reflexivity.
  - cbn [heap roots hosts loops listeners contexts].
    splits.
    + apply roots_get_set.
    + reflexivity.
    + cbn [arg nth strict_eq]. rewrite Hfresh. reflexivity.
    + reflexivity.
    + heap_at. reflexivity.
    + unfold field.
      erewrite run_get
        by (heap_at; rewrite Hs0; cbn [fmap option_fmap option_map]; reflexivity).
      reads. reflexivity.
    + unfold field.
      erewrite run_get
        by (heap_at; rewrite Hs0; cbn [fmap option_fmap option_map]; reflexivity).
      reads. reflexivity.
    + unfold field.
      erewrite run_get
        by (heap_at; rewrite Hs0; cbn [fmap option_fmap option_map]; reflexivity).
      reads. reflexivity.
    + unfold array_in.
      erewrite run_get
        by (heap_at; rewrite Hs0; cbn [fmap option_fmap option_map]; reflexivity).
      reads. unfold elements. heap_at. reflexivity.
    + intros Hrenderer. unfold field.
      erewrite run_get
        by (heap_at; rewrite Hs0; cbn [fmap option_fmap option_map]; reflexivity).
      reads. apply Hout; [assumption | discriminate].
Qed.

(** The theorem on the first canvas of the page, rendered without an
    event manager. *)
Lemma render_mounts_witness :
  exists w',
    render VNull Scenario.canvas1 VUndefined None None [] Scenario.page
    = (Ok (VRef 22), w') /\
    contexts (hosts w') = [VRef 23] /\
    loops (hosts w') = [(VRef 23, VRef 37)] /\
    field w' (VRef 22) "renderer" = VUndefined.
Proof.
  destruct (render_mounts Scenario.page VNull 13 (Scenario.cell_at Scenario.page 13) [])
    as (w' & Hrun & _ & Hcontexts & Hloops & _ & _ & _ & _ & _ & _ & Hrenderer).
  - vm_compute; reflexivity.
  - reflexivity.
  - intros [].
  - intros e l [].
  - exists w'. split; [exact Hrun |]. split; [exact Hcontexts |].
    split; [exact Hloops |]. apply Hrenderer. intros [].
Defined.
